(** * TROREP analysis scripts: balancing, filtering and entity classification

    Shallow embedding of the pure cores of
    - [analysis/analyze_doc_balancing.py]   ([get_balanced_ranking]),
    - [analysis/analyze_dreq_filtering.py]  ([collect_filtered_eqrels],
      [filter_ranking], [get_statistics]),
    - [analysis/analyze_shared_entities.py] ([get_classified_entities]),
    - [analysis/utils/utils.py]             ([log_stat]).

    Conventions.
    - A Python [dict] keeps insertion order and the code depends on it
      (stable sort ties, [pos[:k]]), so a dict is an association list whose
      keys are pairwise distinct ([dict_wf]).
    - A Python [set] of identifiers is a [gset string].
    - Relevance grades are Python ints ([Z]); scores are floats that the code
      only compares and copies, modelled as rationals ([Q]).
    - A Python [str] is its UTF-8 encoding; a text file is the
      concatenation of what is written to it and is read line by line.
    - [logging] calls are collected in a list of [log_record]s.
    - Exceptions are an explicit error result. *)

From Stdlib Require Import QArith.
From stdpp Require Import gmap strings list sorting pretty.

Local Open Scope string_scope.
Local Open Scope list_scope.
Local Open Scope nat_scope.

(** ** Python dictionaries *)

Abbreviation Dict V := (list (string * V)).

Module PyDict.

Definition dict_wf {V} (d : Dict V) : Prop := NoDup d.*1.

(** [d.get(k)] *)
Fixpoint get {V} (d : Dict V) (k : string) : option V :=
  match d with
  | [] => None
  | (k', v) :: d' => if decide (k' = k) then Some v else get d' k
  end.

(** [d.get(k, dflt)] *)
Definition get_default {V} (d : Dict V) (k : string) (dflt : V) : V :=
  default dflt (get d k).

(** [d[k] = v]: overwrite in place, or append a new key. *)
Fixpoint set {V} (d : Dict V) (k : string) (v : V) : Dict V :=
  match d with
  | [] => [(k, v)]
  | (k', v') :: d' =>
      if decide (k' = k) then (k, v) :: d' else (k', v') :: set d' k v
  end.

(** [d.keys()], in iteration order *)
Definition keys {V} (d : Dict V) : list string := d.*1.

(** [d.update(e)] *)
Definition update {V} (d e : Dict V) : Dict V :=
  foldl (λ acc kv, set acc kv.1 kv.2) d e.

(** [{k: v for k in l}] *)
Definition from_keys {V} (l : list string) (v : V) : Dict V :=
  foldl (λ acc k, set acc k v) [] l.

End PyDict.

(** ** Logging ([utils.log_stat], [logging.warning]) *)

Inductive log_record : Type :=
  | LInfo (msg : string)
  | LWarning (msg : string).

(** A Python [str] is modelled by its UTF-8 encoding.  [len(s)] counts code
    points: the bytes that are not continuation bytes ([10xxxxxx]). *)
Definition is_continuation (c : Ascii.ascii) : bool :=
  let n := Ascii.nat_of_ascii c in (128 <=? n) && (n <? 192).

Fixpoint len (s : string) : nat :=
  match s with
  | EmptyString => 0
  | String c s' => (if is_continuation c then 0 else 1) + len s'
  end.

(** The format specification [:<40]: left-justify in a field of width 40,
    counted in characters. *)
Definition ljust (w : nat) (s : string) : string :=
  s +:+ String.string_of_list_ascii (replicate (w - len s) (Ascii.ascii_of_nat 32)).

Definition log_stat (title value : string) : log_record :=
  LInfo (" - " +:+ ljust 40 (title +:+ ":") +:+ " " +:+ value).

(** ** [sorted(l, key=..., reverse=True)]

    Python's sort is stable, also with [reverse=True]: of two elements with
    equal keys the one that comes first in the input comes first in the
    output.  Insertion from the right puts [x] in front of every element
    whose key is not larger. *)

Section Sorted.
Context {A : Type} (key : A → Q).

Fixpoint insert_rev (x : A) (l : list A) : list A :=
  match l with
  | [] => [x]
  | y :: l' =>
      if Qle_bool (key y) (key x) then x :: l else y :: insert_rev x l'
  end.

Definition sorted_rev (l : list A) : list A := foldr insert_rev [] l.

(** [x] may stand before [y] in a descending sequence. *)
Definition ge_key (x y : A) : Prop := Qle_bool (key y) (key x) = true.
End Sorted.

(** ** [analyze_doc_balancing.get_balanced_ranking] *)

Module DocBalancing.
Import PyDict.

(** [docs[x]]; the code only evaluates it for [x] in [docs.keys()]. *)
Definition getitem (docs : Dict Q) (x : string) : Q := get_default docs x 0%Q.

(** [topic_qrels.get(d, 0)] *)
Definition grade (topic_qrels : Dict Z) (d : string) : Z :=
  get_default topic_qrels d 0%Z.

Definition sorted_ids (docs : Dict Q) : list string :=
  sorted_rev (getitem docs) (keys docs).

Definition pos_docs (topic_qrels : Dict Z) (docs : Dict Q) : list string :=
  filter (λ d, (1 ≤ grade topic_qrels d)%Z) (sorted_ids docs).

Definition neg_docs (topic_qrels : Dict Z) (docs : Dict Q) : list string :=
  filter (λ d, grade topic_qrels d = 0%Z) (sorted_ids docs).

Definition balance_k (topic_qrels : Dict Z) (docs : Dict Q) : nat :=
  length (pos_docs topic_qrels docs) `min` length (neg_docs topic_qrels docs).

Definition balanced_ids (topic_qrels : Dict Z) (docs : Dict Q) : gset string :=
  let k := balance_k topic_qrels docs in
  list_to_set (take k (pos_docs topic_qrels docs)
               ++ take k (neg_docs topic_qrels docs)).

(** [{doc_id: score for doc_id, score in docs.items() if doc_id in balanced_ids}] *)
Definition balanced_docs (topic_qrels : Dict Z) (docs : Dict Q) : Dict Q :=
  filter (λ it, it.1 ∈ balanced_ids topic_qrels docs) docs.

Definition skip_warning (topic : string) : string :=
  "Could not balance query #" +:+ topic
  +:+ ": missing positive or negative documents, skipped.".

Definition skip_log (topic : string) : list log_record :=
  [ log_stat ("Query " +:+ topic)
      "Skipped (missing positive or negative documents)";
    LWarning (skip_warning topic) ].

(** [qrels.get(topic, {})] *)
Definition topic_qrels_of (qrels : Dict (Dict Z)) (topic : string) : Dict Z :=
  get_default qrels topic [].

(** One iteration of [for topic, docs in ranking.items()]. *)
Definition balance_step (qrels : Dict (Dict Z))
    (st : Dict (Dict Q) * list log_record) (item : string * Dict Q)
    : Dict (Dict Q) * list log_record :=
  let topic_qrels := topic_qrels_of qrels item.1 in
  if decide (0 < balance_k topic_qrels item.2) then
    (set st.1 item.1 (balanced_docs topic_qrels item.2), st.2)
  else
    (st.1, st.2 ++ skip_log item.1).

Definition get_balanced_ranking (ranking : Dict (Dict Q)) (qrels : Dict (Dict Z))
    : Dict (Dict Q) * list log_record :=
  foldl (balance_step qrels) ([], []) ranking.

(** The relevance classes of the data model, by the judgment entry itself:
    positive iff an entry exists and is ≥ 1, negative iff an entry exists
    and is 0 (no entry: unknown). *)
Definition judged_positive (topic_qrels : Dict Z) (d : string) : Prop :=
  match get topic_qrels d with
  | Some g => (1 ≤ g)%Z
  | None => False
  end.

Definition judged_negative (topic_qrels : Dict Z) (d : string) : Prop :=
  get topic_qrels d = Some 0%Z.

#[export] Instance judged_positive_dec topic_qrels d :
  Decision (judged_positive topic_qrels d).
Proof. unfold judged_positive. destruct (get topic_qrels d); apply _. Defined.

#[export] Instance judged_negative_dec topic_qrels d :
  Decision (judged_negative topic_qrels d).
Proof. unfold judged_negative. apply _. Defined.

(** What one loop iteration contributes to [result]: used to describe the
    loop on a well-formed ranking. *)
Definition balance_item (qrels : Dict (Dict Z)) (item : string * Dict Q)
    : option (string * Dict Q) :=
  let topic_qrels := topic_qrels_of qrels item.1 in
  if decide (0 < balance_k topic_qrels item.2)
  then Some (item.1, balanced_docs topic_qrels item.2) else None.

End DocBalancing.

(** ** Exceptions *)

Inductive exn : Type :=
  | IndexError | TypeError | AttributeError | ZeroDivisionError
  | StatisticsError | ValueError.

Inductive res (A : Type) : Type :=
  | Ok (a : A)
  | Raise (e : exn).
Arguments Ok {A} a.
Arguments Raise {A} e.

#[export] Instance res_bind : MBind res :=
  λ A B f m, match m with Ok a => f a | Raise e => Raise e end.

(** A [for] loop whose body may raise. *)
Fixpoint for_each {A S : Type} (body : S → A → res S) (s : S) (l : list A)
    : res S :=
  match l with
  | [] => Ok s
  | x :: l' => s' ← body s x; for_each body s' l'
  end.

(** ** [analyze_dreq_filtering] *)

Module DreqFiltering.
Import PyDict.

(** *** [collect_filtered_eqrels], after [pytrec_eval.parse_qrel] *)

Definition pos_ents (ents : Dict Z) : list string :=
  (filter (λ it, (1 ≤ it.2)%Z) ents).*1.

Definition neg_ents (ents : Dict Z) : list string :=
  (filter (λ it, it.2 = 0%Z) ents).*1.

Definition ents_k (ents : Dict Z) : nat :=
  length (pos_ents ents) `min` length (neg_ents ents).

Definition balanced_ents (ents : Dict Z) : Dict Z :=
  let k := ents_k ents in
  update (from_keys (take k (pos_ents ents)) 1%Z)
         (from_keys (take k (neg_ents ents)) 0%Z).

Definition eqrels_step (filtered : Dict (Dict Z)) (item : string * Dict Z)
    : Dict (Dict Z) :=
  if decide (0 < ents_k item.2) then set filtered item.1 (balanced_ents item.2)
  else filtered.

(** The returned [filtered_eqrels]; the statistics the function logs are
    not part of the model. *)
Definition collect_filtered_eqrels (eqrels_dict : Dict (Dict Z))
    : Dict (Dict Z) :=
  foldl eqrels_step [] eqrels_dict.

(** *** [filter_ranking] *)

Definition space : Ascii.ascii := Ascii.ascii_of_nat 32.
Definition newline : string := String (Ascii.ascii_of_nat 10) "".

(** [line.split(' ')]: cut at every single space. *)
Fixpoint split_space (s : string) : list string :=
  match s with
  | EmptyString => [""]
  | String c s' =>
      if Ascii.eqb c space then "" :: split_space s'
      else match split_space s' with
           | p :: ps => String c p :: ps
           | [] => [String c ""]
           end
  end.

(** [parts[i]] *)
Definition index (parts : list string) (i : nat) : res string :=
  match parts !! i with
  | Some p => Ok p
  | None => Raise IndexError
  end.

(** [x.split(' ')[0]] *)
Definition line_key (line : string) : string :=
  match split_space line with
  | p :: _ => p
  | [] => ""
  end.

(** [itertools.groupby]: maximal runs of consecutive equal keys. *)
Fixpoint groupby {A : Type} (key : A → string) (l : list A)
    : list (string * list A) :=
  match l with
  | [] => []
  | x :: l' =>
      match groupby key l' with
      | (k, g) :: rest =>
          if decide (key x = k) then (k, x :: g) :: rest
          else (key x, [x]) :: (k, g) :: rest
      | [] => [(key x, [x])]
      end
  end.

(** [set(ent_qrels.get(qid).keys()) if qid in ent_qrels else set()] *)
Definition scored_ents_of (ent_qrels : Dict (Dict Z)) (qid : string)
    : gset string :=
  match get ent_qrels qid with
  | Some ents => list_to_set (keys ents)
  | None => ∅
  end.

(** [doc_ents.get(doc_id, set())] *)
Definition linked_ents_of (doc_ents : gmap string (gset string))
    (doc_id : string) : gset string :=
  default ∅ (doc_ents !! doc_id).

(** The line written for a retained document. *)
Definition out_line (qid p1 doc_id : string) (rank : nat) (p4 : string)
    : string :=
  qid +:+ " " +:+ p1 +:+ " " +:+ doc_id +:+ " " +:+ pretty rank
  +:+ " " +:+ p4 +:+ " Entity-Filtered" +:+ newline.

(** State of the loops: [doc_count], [rank], and what was written to
    [f_out] so far. *)
Record filter_state : Type := FilterState {
  doc_count : nat;
  rank : nat;
  written : list string
}.

(** Body of [for line in group]. *)
Definition filter_line (qid : string) (scored_ents : gset string)
    (doc_ents : gmap string (gset string))
    (st : filter_state) (line : string) : res filter_state :=
  let parts := split_space line in
  doc_id ← index parts 2;
  let overlap := scored_ents ∩ linked_ents_of doc_ents doc_id in
  if decide (0 < size overlap) then
    p1 ← index parts 1;
    p4 ← index parts 4;
    Ok (FilterState (S (doc_count st)) (S (rank st))
          (written st ++ [out_line qid p1 doc_id (rank st) p4]))
  else
    Ok (FilterState (S (doc_count st)) (rank st) (written st)).

(** Body of [for qid, group in groupby(...)]. *)
Definition filter_group (ent_qrels : Dict (Dict Z))
    (doc_ents : gmap string (gset string))
    (st : filter_state) (grp : string * list string) : res filter_state :=
  let scored_ents := scored_ents_of ent_qrels grp.1 in
  for_each (filter_line grp.1 scored_ents doc_ents)
    (FilterState (doc_count st) 1 (written st)) grp.2.

(** [filter_ranking]: the lines of the initial ranking file in, the lines
    written to the [save] file and the logged document count out. *)
Definition filter_ranking (ent_qrels : Dict (Dict Z)) (ranking : list string)
    (doc_ents : gmap string (gset string)) : res (list string * nat) :=
  st ← for_each (filter_group ent_qrels doc_ents) (FilterState 0 1 [])
         (groupby line_key ranking);
  Ok (written st, doc_count st).

(** *** The overlap filter as the documentation words it

    A second description of [filter_ranking], to compare with the loop
    above: per group, select the retained lines in input order and number
    them from 1. *)

(** The [i]-th space-separated field of a line. *)
Definition field (i : nat) (line : string) : string :=
  default "" (split_space line !! i).

(** A document is retained iff the intersection of its linked entities and
    the query's scored entities is non-empty. *)
Definition retained (ent_qrels : Dict (Dict Z))
    (doc_ents : gmap string (gset string)) (qid line : string) : Prop :=
  scored_ents_of ent_qrels qid ∩ linked_ents_of doc_ents (field 2 line) ≠ ∅.

(** Dense ranks from [rank] on, score field carried through. *)
Fixpoint renumber (qid : string) (rank : nat) (kept : list string)
    : list string :=
  match kept with
  | [] => []
  | line :: kept' =>
      out_line qid (field 1 line) (field 2 line) rank (field 4 line)
      :: renumber qid (S rank) kept'
  end.

Definition filter_group_spec (ent_qrels : Dict (Dict Z))
    (doc_ents : gmap string (gset string)) (grp : string * list string)
    : list string :=
  renumber grp.1 1 (filter (retained ent_qrels doc_ents grp.1) grp.2).

Definition filter_ranking_spec (ent_qrels : Dict (Dict Z))
    (ranking : list string) (doc_ents : gmap string (gset string))
    : list string :=
  concat (filter_group_spec ent_qrels doc_ents <$> groupby line_key ranking).

(** *** [get_statistics], after [collect_ranks_with_stats] *)

(** [d.get(qid).keys()] as a set; [None.keys()] raises. *)
Definition keys_of (d : Dict (Dict Q)) (qid : string) : res (gset string) :=
  match get d qid with
  | Some docs => Ok (list_to_set (keys docs))
  | None => Raise AttributeError
  end.

(** [a / b] on ints *)
Definition truediv (a b : nat) : res Q :=
  if decide (b = 0) then Raise ZeroDivisionError
  else Ok (inject_Z (Z.of_nat a) / inject_Z (Z.of_nat b))%Q.

Definition comparable_queries (fil_dict ref_dict : Dict (Dict Q))
    : gset string :=
  list_to_set (keys fil_dict) ∩ list_to_set (keys ref_dict).

Definition overlap_of (fil_dict ref_dict : Dict (Dict Q)) (qid : string)
    : res Q :=
  fil_docs ← keys_of fil_dict qid;
  ref_docs ← keys_of ref_dict qid;
  let shared_docs := fil_docs ∩ ref_docs in
  truediv (size shared_docs) (size ref_docs).

(** The overlap of [qid] as the documentation words it:
    [|filtered ∩ reference| / |reference|]. *)
Definition ratio_of (fil_dict ref_dict : Dict (Dict Q)) (qid : string) (r : Q)
    : Prop :=
  ∃ fil_docs ref_docs,
    get fil_dict qid = Some fil_docs ∧ get ref_dict qid = Some ref_docs
    ∧ r = (inject_Z (Z.of_nat (size ((list_to_set (keys fil_docs) : gset string)
                                     ∩ list_to_set (keys ref_docs))))
           / inject_Z (Z.of_nat (size (list_to_set (keys ref_docs)
                                       : gset string))))%Q.

(** The loop: the list [overlaps], in the iteration order of the set (which
    Python leaves unspecified). *)
Definition collect_overlaps (fil_dict ref_dict : Dict (Dict Q))
    : res (list Q) :=
  for_each (λ overlaps qid,
              overlap ← overlap_of fil_dict ref_dict qid;
              Ok (overlaps ++ [overlap]))
    [] (elements (comparable_queries fil_dict ref_dict)).

(** [statistics.mean]: the exact mean of the data; an empty list raises. *)
Definition mean (data : list Q) : res Q :=
  match data with
  | [] => Raise StatisticsError
  | _ :: _ => Ok (foldr Qplus 0 data / inject_Z (Z.of_nat (length data)))%Q
  end.

(** [min(l)] and [max(l)]: the first smallest, the first largest element;
    an empty list raises. *)
Definition min_of (l : list Q) : res Q :=
  match l with
  | [] => Raise ValueError
  | x :: l' => Ok (foldl (λ m y, if Qle_bool m y then m else y) x l')
  end.

Definition max_of (l : list Q) : res Q :=
  match l with
  | [] => Raise ValueError
  | x :: l' => Ok (foldl (λ m y, if Qle_bool y m then m else y) x l')
  end.

(** What the three [log_stat] calls after the loop are given: the number
    of comparable queries, the mean and the range of the overlaps (logged
    as percentages with two decimals, a formatting that is not part of the
    model).  [overlaps] is kept for reference. *)
Record overlap_stats : Type := OverlapStats {
  num_comparable : nat;
  overlaps : list Q;
  mean_overlap : Q;
  min_overlap : Q;
  max_overlap : Q
}.

(** The branch [if reference:] of [get_statistics], on the two parsed
    rankings. *)
Definition get_statistics (fil_dict ref_dict : Dict (Dict Q))
    : res overlap_stats :=
  match collect_overlaps fil_dict ref_dict with
  | Raise e => Raise e
  | Ok ovs =>
      let n := size (comparable_queries fil_dict ref_dict) in
      match mean ovs with
      | Raise e => Raise e
      | Ok m =>
          match min_of ovs with
          | Raise e => Raise e
          | Ok lo =>
              match max_of ovs with
              | Raise e => Raise e
              | Ok hi => Ok (OverlapStats n ovs m lo hi)
              end
          end
      end
  end.

End DreqFiltering.

(** ** [analyze_shared_entities.get_classified_entities] *)

Module SharedEntities.
Import PyDict.

Record classes : Type := Classes {
  shared : gset string;
  positive : gset string;
  negative : gset string
}.

(** [s.update(links.get(doc_id))]: [links.get] gives [None] for a missing
    key (also on a [defaultdict]), and [set.update(None)] raises. *)
Definition update_from (s : gset string) (o : option (gset string))
    : res (gset string) :=
  match o with
  | Some e => Ok (s ∪ e)
  | None => Raise TypeError
  end.

Record entity_state : Type := EntityState {
  pos_entities : gset string;
  neg_entities : gset string;
  warnings : list log_record
}.

(** Body of [for doc_id, rel in doc_rels.items()]. *)
Definition classify_doc (links : gmap string (gset string))
    (st : entity_state) (item : string * Z) : res entity_state :=
  if decide (1 ≤ item.2)%Z then
    p ← update_from (pos_entities st) (links !! item.1);
    Ok (EntityState p (neg_entities st) (warnings st))
  else if decide (item.2 < 1)%Z then
    n ← update_from (neg_entities st) (links !! item.1);
    Ok (EntityState (pos_entities st) n (warnings st))
  else
    Ok (EntityState (pos_entities st) (neg_entities st)
          (warnings st
           ++ [LWarning ("Invalid relevance value found: " +:+ pretty item.2)])).

(** Body of [for topic, doc_rels in qrels.items()]. *)
Definition classify_topic (links : gmap string (gset string))
    (st : Dict classes * list log_record) (item : string * Dict Z)
    : res (Dict classes * list log_record) :=
  es ← for_each (classify_doc links) (EntityState ∅ ∅ st.2) item.2;
  let shared := pos_entities es ∩ neg_entities es in
  let pos := pos_entities es ∖ shared in
  let neg := neg_entities es ∖ shared in
  Ok (set st.1 item.1 (Classes shared pos neg), warnings es).

Definition get_classified_entities (qrels : Dict (Dict Z))
    (links : gmap string (gset string))
    : res (Dict classes * list log_record) :=
  for_each (classify_topic links) ([], []) qrels.

(** *** The classes in closed form, to state what the loops compute *)

(** The documents the loop body sends to [pos_entities] ([rel >= 1]) and to
    [neg_entities] ([rel < 1]). *)
Definition positive_docs (doc_rels : Dict Z) : list string :=
  (filter (λ it, (1 ≤ it.2)%Z) doc_rels).*1.

Definition negative_docs (doc_rels : Dict Z) : list string :=
  (filter (λ it, (it.2 < 1)%Z) doc_rels).*1.

(** Union of the linked-entity sets of some documents. *)
Definition entity_union (links : gmap string (gset string))
    (docs : list string) : gset string :=
  ⋃ ((λ d, default ∅ (links !! d)) <$> docs).

Definition classes_of (links : gmap string (gset string))
    (doc_rels : Dict Z) : classes :=
  let P := entity_union links (positive_docs doc_rels) in
  let N := entity_union links (negative_docs doc_rels) in
  Classes (P ∩ N) (P ∖ (P ∩ N)) (N ∖ (P ∩ N)).

(** Every judged document has an entry in the link map. *)
Definition all_linked (qrels : Dict (Dict Z))
    (links : gmap string (gset string)) : Prop :=
  ∀ topic doc_rels doc rel,
    (topic, doc_rels) ∈ qrels → (doc, rel) ∈ doc_rels →
    is_Some (links !! doc).

End SharedEntities.

(** ** Fields of a line *)

Module LineFields.
Import DreqFiltering.

(** The string contains no space, as every piece of [split(' ')] does. *)
Fixpoint no_space (s : string) : Prop :=
  match s with
  | EmptyString => True
  | String c s' => c ≠ space ∧ no_space s'
  end.

(** *** Files in text mode

    [open(ranking, "r")] and [open(save, "w")] are text files: what is
    written is the concatenation of the [write] arguments, and iterating
    over a file yields its lines with the terminator kept, a line break
    being ["\n"], ["\r"] or ["\r\n"], each read as ["\n"]. *)

Definition LF : Ascii.ascii := Ascii.ascii_of_nat 10.
Definition CR : Ascii.ascii := Ascii.ascii_of_nat 13.

(** [f.write(w)] for every [w], in order. *)
Definition file_text (writes : list string) : string :=
  foldr String.append "" writes.

(** [for line in f] *)
Fixpoint readlines (text : string) : list string :=
  match text with
  | EmptyString => []
  | String c rest =>
      if Ascii.eqb c LF then newline :: readlines rest
      else if Ascii.eqb c CR then
        match rest with
        | String c' _ =>
            if Ascii.eqb c' LF then readlines rest
            else newline :: readlines rest
        | EmptyString => [newline]
        end
      else
        match readlines rest with
        | l :: ls => String c l :: ls
        | [] => [String c ""]
        end
  end.

(** The string contains no line break. *)
Fixpoint no_break (s : string) : Prop :=
  match s with
  | EmptyString => True
  | String c s' => c ≠ LF ∧ c ≠ CR ∧ no_break s'
  end.

(** A line as the iteration over a text file yields it: no line break but
    the final ["\n"] (which the last line of a file may lack). *)
Definition file_line (line : string) : Prop :=
  ∃ body, no_break body ∧ (line = body ∨ line = body +:+ newline).

End LineFields.

(** ** [analyze_doc_balancing.get_balanced_counts] *)

Module BalancedCounts.
Import PyDict.

(** One row of the table: query, documents before and after, pruned
    ([len(docs) - len(docs_bal)], a Python int). *)
Record count_row : Type := CountRow {
  row_query : string;
  num_before : nat;
  num_after : nat;
  num_pruned : Z
}.

(** Body of [for topic, docs in ranking.items()]. *)
Definition counts_step {V W : Type} (balanced : Dict (Dict W))
    (rows : list count_row) (item : string * Dict V) : list count_row :=
  match get balanced item.1 with
  | None => rows
  | Some docs_bal =>
      rows ++ [CountRow item.1 (length item.2) (length docs_bal)
                 (Z.of_nat (length item.2) - Z.of_nat (length docs_bal))]
  end.

Definition get_balanced_counts {V W : Type} (ranking : Dict (Dict V))
    (balanced : Dict (Dict W)) : list count_row :=
  foldl (counts_step balanced) [] ranking.

End BalancedCounts.

(** ** [analyze_illegal_entities.validate_topic_entities]

    Topics, documents and entities are strings already, so [str(.)] is the
    identity. *)

Module IllegalEntities.
Import PyDict.

(** The non-empty result dict. *)
Record topic_stats : Type := TopicStats {
  stat_topic : string;
  num_retrieved : nat;
  num_scored : nat;
  num_illegal : nat;
  num_legal : nat
}.

Definition missing_warning (topic : string) : string :=
  "Topic #" +:+ topic
  +:+ " missing from either the initial or entity ranking, skipping.".

(** [{str(e) for e in links.get(str(doc_id), [])}] *)
Definition ents_in_doc (links : gmap string (gset string))
    (doc_id : string) : gset string :=
  default ∅ (links !! doc_id).

(** The loop [for doc_id in docs: valid_entities.update(ents_in_doc)]. *)
Definition valid_entities (links : gmap string (gset string))
    (docs : list string) : gset string :=
  foldl (λ acc doc_id, acc ∪ ents_in_doc links doc_id) ∅ docs.

(** [None] is the empty dict the function returns for a missing topic. *)
Definition validate_topic_entities {V W : Type}
    (links : gmap string (gset string))
    (i_dict : Dict (Dict V)) (e_dict : Dict (Dict W)) (topic : string)
    : option topic_stats * list log_record :=
  match get i_dict topic, get e_dict topic with
  | Some docs, Some ents =>
      let valid := valid_entities links (keys docs) in
      let scored : gset string := list_to_set (keys ents) in
      (Some (TopicStats topic (size valid) (size scored)
               (size (scored ∖ valid)) (size (scored ∩ valid))), [])
  | _, _ => (None, [LWarning (missing_warning topic)])
  end.

(** The loop of [main] that collects the non-empty results. *)
Definition entity_rows {V W : Type} (links : gmap string (gset string))
    (doc_rank : Dict (Dict V)) (ent_rank : Dict (Dict W))
    : list topic_stats * list log_record :=
  foldl (λ st topic,
           let res := validate_topic_entities links doc_rank ent_rank topic in
           (match res.1 with
            | Some row => st.1 ++ [row]
            | None => st.1
            end, st.2 ++ res.2))
    ([], []) (keys doc_rank).

End IllegalEntities.

(** ** [utils.collect_decomposed_ranking] *)

Module Decomposition.
Import PyDict.

(** The lists [positive], [negative], [unknown] of one topic. *)
Record doc_classes : Type := DocClasses {
  positive_ids : list string;
  negative_ids : list string;
  unknown_ids : list string
}.

(** Body of [for doc_id in docs]. *)
Definition classify_doc_id (qrel_dict : Dict Z) (st : doc_classes)
    (doc_id : string) : doc_classes :=
  match get qrel_dict doc_id with
  | None =>
      DocClasses (positive_ids st) (negative_ids st) (unknown_ids st ++ [doc_id])
  | Some rel =>
      if decide (1 ≤ rel)%Z then
        DocClasses (positive_ids st ++ [doc_id]) (negative_ids st)
          (unknown_ids st)
      else
        DocClasses (positive_ids st) (negative_ids st ++ [doc_id])
          (unknown_ids st)
  end.

Definition decompose_topic {V : Type} (qrel_dict : Dict Z) (docs : Dict V)
    : doc_classes :=
  foldl (classify_doc_id qrel_dict) (DocClasses [] [] []) (keys docs).

(** [docs_per_rel]: the three lists grow together, so the [defaultdict]
    has either all three keys or (all lists empty) none. *)
Record decomposition : Type := Decomp {
  positive_counts : list nat;
  negative_counts : list nat;
  unknown_counts : list nat
}.

Definition missing_qrels_warning (topic : string) : string :=
  "Topic #" +:+ topic +:+ " missing from QRELs, skipping.".

(** Body of [for topic in topics]. *)
Definition decompose_step {V : Type} (doc_ranking : Dict (Dict V))
    (qrels : Dict (Dict Z)) (st : decomposition * list log_record)
    (topic : string) : decomposition * list log_record :=
  match get qrels topic with
  | None => (st.1, st.2 ++ [LWarning (missing_qrels_warning topic)])
  | Some qrel_dict =>
      let cls := decompose_topic qrel_dict (get_default doc_ranking topic []) in
      (Decomp (positive_counts st.1 ++ [length (positive_ids cls)])
              (negative_counts st.1 ++ [length (negative_ids cls)])
              (unknown_counts st.1 ++ [length (unknown_ids cls)]),
       st.2)
  end.

(** [topics] is a set: the order in which it is traversed is the one of
    [elements]. *)
Definition collect_decomposed_ranking {V : Type} (doc_ranking : Dict (Dict V))
    (qrels : Dict (Dict Z)) : decomposition * list log_record :=
  foldl (decompose_step doc_ranking qrels) (Decomp [] [] [], [])
    (elements (list_to_set (keys doc_ranking) : gset string)).

End Decomposition.

(** ** [utils.collect_entity_prevalence]

    On the per-topic class dicts that [get_classified_entities] returns. *)

Module Prevalence.
Import PyDict SharedEntities.

(** [classes.get(class_name)] *)
Definition classes_get (c : classes) (name : string)
    : option (gset string) :=
  if decide (name = "shared") then Some (shared c)
  else if decide (name = "positive") then Some (positive c)
  else if decide (name = "negative") then Some (negative c)
  else None.

(** [set(classes.get(class_name))], resp. [set(classes)] (the keys of the
    dict) when no class name is given; [set(None)] raises. *)
Definition class_set (class_name : option string) (c : classes)
    : res (gset string) :=
  match class_name with
  | Some name =>
      match classes_get c name with
      | Some s => Ok s
      | None => Raise TypeError
      end
  | None => Ok {[ "shared"; "positive"; "negative" ]}
  end.

(** [ent_counts[ent] += 1] on a [defaultdict(int)] *)
Definition incr (counts : gmap string nat) (ent : string)
    : gmap string nat :=
  <[ent := S (default 0 (counts !! ent))]> counts.

(** Body of [for topic, classes in ents_per_topic.items()]. *)
Definition prevalence_step (class_name : option string)
    (counts : gmap string nat) (item : string * classes)
    : res (gmap string nat) :=
  s ← class_set class_name item.2;
  Ok (foldl incr counts (elements s)).

(** [v / topic_count]; [topic_count] is 0 only for an empty input, where
    [ent_counts] is empty and nothing is divided. *)
Definition prevalence_of (topic_count v : nat) : Q :=
  (inject_Z (Z.of_nat v) / inject_Z (Z.of_nat topic_count))%Q.

Definition collect_entity_prevalence (ents_per_topic : Dict classes)
    (class_name : option string) : res (gmap string Q) :=
  let topic_count := length (keys ents_per_topic) in
  match for_each (prevalence_step class_name) ∅ ents_per_topic with
  | Ok ent_counts => Ok (prevalence_of topic_count <$> ent_counts)
  | Raise e => Raise e
  end.

End Prevalence.

(** ** [utils.collect_unique_elements] *)

Module UniqueElements.
Import PyDict.

(** What the function logs: a [log_stat] line, or a [logging.error]. *)
Inductive log_event : Type :=
  | Logged (r : log_record)
  | LError (msg : string).

Definition collect_unique_elements {V : Type} (ranking : Dict (Dict V))
    (topic element : string) : gset string * list log_event :=
  if decide (topic = "all") then
    let result : gset string :=
      foldl (λ acc item, acc ∪ list_to_set (keys item.2)) ∅ ranking in
    (result,
     [Logged (log_stat ("Unique " +:+ element +:+ " (Total)")
                (pretty (size result)))])
  else
    match get ranking topic with
    | Some e_dict =>
        let result : gset string := list_to_set (keys e_dict) in
        (result,
         [Logged (log_stat ("Unique " +:+ element +:+ " (#" +:+ topic +:+ ")")
                    (pretty (size result)))])
    | None =>
        (∅, [LError ("Could not find given query in ranking: " +:+ topic)])
    end.

End UniqueElements.

(** ** [utils.collect_entity_rank_prevalence] *)

Module RankPrevalence.
Import PyDict.

(** [enumerate(l, start)] *)
Fixpoint enumerate_from {A : Type} (start : nat) (l : list A)
    : list (nat * A) :=
  match l with
  | [] => []
  | x :: l' => (start, x) :: enumerate_from (S start) l'
  end.

(** [sorted(topic_ents.items(), key=lambda x: x[1], reverse=True)] *)
Definition sorted_ents (topic_ents : Dict Q) : Dict Q :=
  sorted_rev snd topic_ents.

(** The two [defaultdict]s of the loops. *)
Record rank_state : Type := RankState {
  ent_ranks : Dict (list nat);
  ent_prevs : Dict nat
}.

(** [k is None or rank <= k] *)
Definition in_top (k : option Z) (rank : nat) : bool :=
  match k with
  | None => true
  | Some k' => bool_decide (Z.of_nat rank ≤ k')%Z
  end.

(** Body of [for rank, (eid, score) in enumerate(sorted_ents, start=1)]. *)
Definition rank_step (k : option Z) (st : rank_state)
    (item : nat * (string * Q)) : rank_state :=
  let rank := item.1 in
  let eid := item.2.1 in
  let ranks := set (ent_ranks st) eid
                 (get_default (ent_ranks st) eid [] ++ [rank]) in
  if in_top k rank then
    RankState ranks (set (ent_prevs st) eid (S (get_default (ent_prevs st) eid 0)))
  else
    RankState ranks (ent_prevs st).

(** Body of [for topic_ents in ents_per_topic.values()]. *)
Definition topic_step (k : option Z) (st : rank_state)
    (topic_ents : Dict Q) : rank_state :=
  foldl (rank_step k) st (enumerate_from 1 (sorted_ents topic_ents)).

(** [statistics.mean] of a list of ranks, as the exact rational (Python
    converts it to an int or a float at the end). *)
Definition mean (ranks : list nat) : Q :=
  (inject_Z (Z.of_nat (sum_list ranks))
   / inject_Z (Z.of_nat (length ranks)))%Q.

(** [{k: f(v) for k, v in d.items()}] *)
Definition map_values {A B : Type} (f : A → B) (d : Dict A) : Dict B :=
  (λ kv, (kv.1, f kv.2)) <$> d.

Definition collect_entity_rank_prevalence (ents_per_topic : Dict (Dict Q))
    (k : option Z) : Dict Q * Dict Q :=
  let topic_count := length (keys ents_per_topic) in
  let st := foldl (topic_step k) (RankState [] []) ents_per_topic.*2 in
  (map_values mean (ent_ranks st),
   map_values (λ v, (inject_Z (Z.of_nat v)
                     / inject_Z (Z.of_nat topic_count))%Q) (ent_prevs st)).

(** The ranks an entity takes over the topics, in topic order. *)
Definition ranks_in (e : string) (topic_ents : Dict Q) : list nat :=
  (filter (λ it, it.2.1 = e) (enumerate_from 1 (sorted_ents topic_ents))).*1.

Definition all_ranks (e : string) (ents_per_topic : Dict (Dict Q))
    : list nat :=
  concat (ranks_in e <$> ents_per_topic.*2).

End RankPrevalence.

(** ** Example inputs *)

Module Examples.
Import DreqFiltering.

(** The filter scenario of the documentation, and a query without scored
    entities. *)
Definition ex_initial : list string :=
  [ "q1 Q0 d1 1 3.5 bm25" +:+ newline;
    "q1 Q0 d2 2 3.0 bm25" +:+ newline;
    "q1 Q0 d3 3 2.5 bm25" +:+ newline;
    "q2 Q0 d1 1 3.0 bm25" +:+ newline ].
Definition ex_scored : Dict (Dict Z) := [("q1", [("e5", 1%Z)])].
Definition ex_doc_ents : gmap string (gset string) :=
  {[ "d1" := {[ "e5" ]}; "d2" := {[ "e9" ]}; "d3" := {[ "e5"; "e7" ]} ]}.

(** A filtered and a reference ranking: [q1] has reference documents but
    no filtered ones. *)
Definition ex_fil : Dict (Dict Q) :=
  [("q2", [("d1", 3 # 1)])]%Q.
Definition ex_ref : Dict (Dict Q) :=
  [("q1", [("d1", 3 # 1)]); ("q2", [("d1", 3 # 1); ("d2", 2 # 1)])]%Q.

(** The scenario of the documentation: [d3] is unjudged. *)
Definition ex_ranking : Dict (Dict Q) :=
  [("q1", [("d1", 3 # 1); ("d2", 2 # 1); ("d3", 1 # 1)])]%Q.
Definition ex_qrels : Dict (Dict Z) :=
  [("q1", [("d1", 1%Z); ("d2", 0%Z)])].

(** One judged positive document and one unjudged document. *)
Definition ex_ranking_unjudged : Dict (Dict Q) :=
  [("q1", [("d1", 3 # 1); ("d3", 1 # 1)])]%Q.
Definition ex_qrels_unjudged : Dict (Dict Z) :=
  [("q1", [("d1", 1%Z)])].

(** Only a positive document. *)
Definition ex_ranking_only_pos : Dict (Dict Q) :=
  [("q1", [("d1", 3 # 1)])]%Q.

(** Entity judgments with graded positives ([e1] has grade 2). *)
Definition ex_eqrels : Dict (Dict Z) :=
  [("q1", [("e1", 2%Z); ("e2", 0%Z); ("e3", 0%Z); ("e4", 3%Z)]);
   ("q2", [("e1", 1%Z)])].

(** A judgment with a negative grade; links for its document. *)
Definition ex_qrels_invalid : Dict (Dict Z) := [("q1", [("d1", (-1)%Z)])].
Definition ex_links : gmap string (gset string) := {[ "d1" := {[ "e1" ]} ]}.

(** Judgments with a shared entity, [e2]. *)
Definition ex_qrels_shared : Dict (Dict Z) :=
  [("q1", [("d1", 2%Z); ("d2", 0%Z)])].
Definition ex_links_shared : gmap string (gset string) :=
  {[ "d1" := {[ "e1"; "e2" ]}; "d2" := {[ "e2"; "e3" ]} ]}.

(** Entity judgments for the filter pipeline: [q1] can be balanced with
    [k = 1] (which keeps [e5] and [e8], not [e7]); [q2] has no negative. *)
Definition ex_eqrels_pipeline : Dict (Dict Z) :=
  [("q1", [("e5", 1%Z); ("e7", 2%Z); ("e8", 0%Z)]);
   ("q2", [("e5", 1%Z)])].

(** An entity ranking for [q1]: [e9] is linked from no ranked document. *)
Definition ex_ent_ranking : Dict (Dict Q) :=
  [("q1", [("e1", 9 # 10); ("e9", 1 # 2)])]%Q.

(** Classified entities of three topics. *)
Definition ex_class_entities : Dict SharedEntities.classes :=
  [("q1", SharedEntities.Classes {[ "e2" ]} {[ "e1" ]} {[ "e3" ]});
   ("q2", SharedEntities.Classes {[ "e2"; "e4" ]} ∅ {[ "e1" ]});
   ("q3", SharedEntities.Classes ∅ {[ "e2" ]} ∅)].

Definition ex_entity_ranking : Dict (Dict Q) :=
  [("q1", [("e1", 9 # 10); ("e9", 1 # 2); ("e2", 7 # 10)]);
   ("q2", [("e2", 3 # 10); ("e1", 3 # 10)])]%Q.

End Examples.
Import Examples.

(** * Properties *)

(** ** Dictionaries *)

Module PyDictFacts.
Import PyDict.

Section Facts.
Context {V : Type}.
Implicit Types (d : Dict V) (k : string) (v : V).

Lemma get_Some_elem d k v : get d k = Some v → (k, v) ∈ d.
Proof.
  induction d as [|[k' v'] d IH]; simpl; [done|].
  case_decide; intros Hg.
  - injection Hg as ->. subst. left.
  - right. auto.
Qed.

Lemma get_None_keys d k : get d k = None ↔ k ∉ keys d.
Proof.
  unfold keys. induction d as [|[k' v'] d IH]; simpl.
  - split; [intros _; apply not_elem_of_nil | done].
  - rewrite not_elem_of_cons. case_decide; subst.
    + split; [done | intros [? _]; done].
    + rewrite IH. naive_solver.
Qed.

Lemma elem_keys d k v : (k, v) ∈ d → k ∈ keys d.
Proof. intros H. unfold keys. apply list_elem_of_fmap. by exists (k, v). Qed.

Lemma elem_get d k v : dict_wf d → (k, v) ∈ d → get d k = Some v.
Proof.
  unfold dict_wf. induction d as [|[k' v'] d IH]; simpl.
  - intros _ H. by apply not_elem_of_nil in H.
  - rewrite NoDup_cons. intros [Hk Hd] [H|H]%elem_of_cons.
    + injection H as -> ->. by rewrite decide_True.
    + rewrite decide_False; [auto|].
      intros ->. apply Hk. by eapply elem_keys.
Qed.

Lemma wf_functional d k v v' :
  dict_wf d → (k, v) ∈ d → (k, v') ∈ d → v = v'.
Proof.
  intros Hwf H1 H2.
  apply (elem_get _ _ _ Hwf) in H1. apply (elem_get _ _ _ Hwf) in H2.
  congruence.
Qed.

Lemma get_set d k v k' :
  get (set d k v) k' = if decide (k = k') then Some v else get d k'.
Proof.
  induction d as [|[k0 v0] d IH]; simpl.
  - done.
  - destruct (decide (k0 = k)) as [->|Hne]; simpl.
    + repeat case_decide; congruence.
    + rewrite IH. repeat case_decide; congruence.
Qed.

Lemma set_fresh d k v : k ∉ keys d → set d k v = d ++ [(k, v)].
Proof.
  unfold keys. induction d as [|[k0 v0] d IH]; simpl; [done|].
  rewrite not_elem_of_cons. intros [Hne Hk].
  rewrite decide_False by done. by rewrite IH.
Qed.

Lemma set_values d k v k' v' :
  (k', v') ∈ set d k v → (k', v') ∈ d ∨ v' = v.
Proof.
  induction d as [|[k0 v0] d IH]; simpl.
  - intros [= -> ->]%list_elem_of_singleton. by right.
  - case_decide.
    + intros [[= -> ->]|H']%elem_of_cons; [by right|].
      left. by right.
    + intros [[= -> ->]|H']%elem_of_cons; [left; left|].
      destruct (IH H') as [?|?]; [left; by right | by right].
Qed.

Lemma keys_tagged (l : list string) v : keys ((λ k, (k, v)) <$> l) = l.
Proof. unfold keys. induction l; simpl; [done | by f_equal]. Qed.

Lemma from_keys_NoDup (l : list string) v :
  NoDup l → from_keys l v = (λ k, (k, v)) <$> l.
Proof.
  unfold from_keys. intros Hl.
  cut (∀ acc : Dict V, (∀ k, k ∈ l → k ∉ keys acc) →
         foldl (λ acc k, set acc k v) acc l = acc ++ ((λ k, (k, v)) <$> l)).
  { intros H. apply (H []). intros. apply not_elem_of_nil. }
  induction Hl as [|x l Hx Hl IH]; intros acc Hacc; simpl.
  - by rewrite app_nil_r.
  - rewrite set_fresh by (apply Hacc; left).
    rewrite IH; [by rewrite <- app_assoc|].
    intros k Hk. unfold keys. rewrite fmap_app, elem_of_app. simpl.
    intros [Hin | ->%list_elem_of_singleton]; [|done].
    eapply Hacc; [right|]; done.
Qed.

Lemma from_keys_values (l : list string) v k' v' :
  (k', v') ∈ from_keys l v → v' = v.
Proof.
  unfold from_keys.
  cut (∀ acc : Dict V, (∀ k0 v0, (k0, v0) ∈ acc → v0 = v) →
         (k', v') ∈ foldl (λ acc k, set acc k v) acc l → v' = v).
  { intros H. apply H. intros ?? []%not_elem_of_nil. }
  induction l as [|x l IH]; intros acc Hacc; simpl; [apply Hacc|].
  apply IH. intros k0 v0 [?|?]%set_values; eauto.
Qed.

Lemma update_disjoint d e :
  dict_wf e → (∀ k, k ∈ keys e → k ∉ keys d) → update d e = d ++ e.
Proof.
  unfold update, dict_wf. revert d.
  induction e as [|[k v] e IH]; intros d Hwf Hdisj; simpl.
  - by rewrite app_nil_r.
  - apply NoDup_cons in Hwf as [Hk Hwf].
    rewrite set_fresh by (apply Hdisj; left).
    rewrite IH; [by rewrite <- app_assoc | done |].
    intros k0 Hk0. unfold keys. rewrite fmap_app, elem_of_app. simpl.
    intros [Hin | ->%list_elem_of_singleton]; [|done].
    eapply Hdisj; [right|]; done.
Qed.

Lemma update_values d e k v :
  (k, v) ∈ update d e → (k, v) ∈ d ∨ ∃ k0, (k0, v) ∈ e.
Proof.
  unfold update. revert d.
  induction e as [|[k1 v1] e IH]; intros d; simpl; [by left|].
  intros [[H| ->]%set_values | [k0 H]]%IH.
  - by left.
  - right. exists k1. left.
  - right. exists k0. by right.
Qed.

Lemma filter_keys (P : string → Prop)
    `{HP1 : !∀ it : string * V, Decision (P it.1)}
    `{HP2 : !∀ x, Decision (P x)} d :
  keys (filter (λ it, P it.1) d) = filter P (keys d).
Proof.
  unfold keys. induction d as [|[k v] d IH]; [done|].
  rewrite filter_cons, fmap_cons, (filter_cons _ (k, v).1), <- IH.
  destruct (decide (P (k, v).1)), (decide (P (k, v).1)); simpl in *; done.
Qed.

Lemma filter_wf (P : string * V → Prop) `{!∀ x, Decision (P x)} d :
  dict_wf d → dict_wf (filter P d).
Proof.
  unfold dict_wf. intros Hwf. eapply sublist_NoDup; [exact Hwf|].
  apply fmap_sublist, sublist_filter.
Qed.

End Facts.

End PyDictFacts.

(** ** The stable descending sort *)

Section SortedFacts.
Context {A : Type} (key : A → Q).
Implicit Types (x y : A) (l : list A).

Lemma ge_key_trans x y z : ge_key key x y → ge_key key y z → ge_key key x z.
Proof.
  unfold ge_key. rewrite !Qle_bool_iff. intros Hxy Hyz.
  by eapply Qle_trans.
Qed.

Lemma ge_key_total x y : Qle_bool (key y) (key x) = false → ge_key key y x.
Proof.
  unfold ge_key. intros Hf. apply Qle_bool_iff, Qlt_le_weak, Qnot_le_lt.
  intros Hle. apply Qle_bool_iff in Hle. congruence.
Qed.

Lemma insert_rev_Permutation x l : insert_rev key x l ≡ₚ x :: l.
Proof.
  induction l as [|y l IH]; simpl; [done|].
  destruct (Qle_bool (key y) (key x)); [done|].
  rewrite IH. apply Permutation_swap.
Qed.

Lemma sorted_rev_Permutation l : sorted_rev key l ≡ₚ l.
Proof.
  induction l as [|x l IH]; simpl; [done|].
  by rewrite insert_rev_Permutation, IH.
Qed.

Lemma sorted_rev_elem x l : x ∈ sorted_rev key l ↔ x ∈ l.
Proof. by rewrite sorted_rev_Permutation. Qed.

Lemma sorted_rev_NoDup l : NoDup l → NoDup (sorted_rev key l).
Proof. by rewrite sorted_rev_Permutation. Qed.

Lemma insert_rev_front x l :
  Forall (ge_key key x) l → insert_rev key x l = x :: l.
Proof.
  destruct l as [|y l]; simpl; [done|].
  intros [Hy _]%Forall_cons. unfold ge_key in Hy. by rewrite Hy.
Qed.

Lemma insert_rev_sorted x l :
  StronglySorted (ge_key key) l → StronglySorted (ge_key key) (insert_rev key x l).
Proof.
  induction 1 as [|y l Hl IH Hy]; simpl.
  - repeat constructor.
  - destruct (Qle_bool (key y) (key x)) eqn:Hyx.
    + constructor; [by constructor|].
      constructor; [done|].
      eapply Forall_impl; [exact Hy|]. intros z Hz.
      by eapply ge_key_trans.
    + constructor; [done|].
      rewrite insert_rev_Permutation. constructor; [|done].
      by apply ge_key_total.
Qed.

Lemma sorted_rev_sorted l : StronglySorted (ge_key key) (sorted_rev key l).
Proof.
  induction l; simpl; [constructor | by apply insert_rev_sorted].
Qed.

Section Filter.
Context (P : A → Prop) `{!∀ x, Decision (P x)}.

Lemma insert_rev_filter_False x l :
  ¬ P x → filter P (insert_rev key x l) = filter P l.
Proof.
  intros Hx. induction l as [|y l IH]; simpl.
  - by rewrite filter_cons_False.
  - destruct (Qle_bool (key y) (key x)).
    + by rewrite filter_cons_False.
    + rewrite !(filter_cons _ y). by rewrite IH.
Qed.

Lemma insert_rev_filter_True x l :
  P x → StronglySorted (ge_key key) l →
  filter P (insert_rev key x l) = insert_rev key x (filter P l).
Proof.
  intros Hx. induction 1 as [|y l Hl IH Hy]; simpl.
  - by rewrite filter_cons_True.
  - destruct (Qle_bool (key y) (key x)) eqn:Hyx.
    + rewrite filter_cons_True by done.
      symmetry. apply insert_rev_front.
      apply Forall_forall. intros z [_ Hz]%list_elem_of_filter.
      apply elem_of_cons in Hz as [->|Hz]; [done|].
      eapply ge_key_trans; [exact Hyx|].
      by eapply Forall_forall in Hy.
    + rewrite !(filter_cons _ y). rewrite IH.
      destruct (decide (P y)); [|done].
      simpl. by rewrite Hyx.
Qed.

(** Sorting a sub-selection gives the sub-selection of the sorted
    sequence: the sort is stable and the order is total. *)
Lemma sorted_rev_filter l :
  sorted_rev key (filter P l) = filter P (sorted_rev key l).
Proof.
  induction l as [|x l IH]; [done|].
  rewrite filter_cons. destruct (decide (P x)) as [Hx|Hx]; simpl.
  - rewrite insert_rev_filter_True by auto using sorted_rev_sorted.
    by rewrite IH.
  - by rewrite insert_rev_filter_False.
Qed.
End Filter.
End SortedFacts.

Lemma insert_rev_ext {A} (key1 key2 : A → Q) x l :
  key1 x = key2 x → (∀ y, y ∈ l → key1 y = key2 y) →
  insert_rev key1 x l = insert_rev key2 x l.
Proof.
  intros Hx. induction l as [|y l IH]; intros Hl; simpl; [done|].
  rewrite Hx, (Hl y) by left.
  destruct (Qle_bool _ _); [done|].
  f_equal. apply IH. intros z Hz. apply Hl. by right.
Qed.

Lemma sorted_rev_ext {A} (key1 key2 : A → Q) l :
  (∀ y, y ∈ l → key1 y = key2 y) → sorted_rev key1 l = sorted_rev key2 l.
Proof.
  induction l as [|x l IH]; intros Hl; simpl; [done|].
  rewrite IH by (intros; apply Hl; by right).
  apply insert_rev_ext; [apply Hl; left|].
  intros y Hy%sorted_rev_elem. apply Hl. by right.
Qed.

(** ** Selections of a duplicate-free list *)

Section ListFacts.
Context {A : Type}.
Implicit Types (l : list A).

Lemma filter_ext_elem (P1 P2 : A → Prop)
    `{!∀ x, Decision (P1 x), !∀ x, Decision (P2 x)} l :
  (∀ x, x ∈ l → P1 x ↔ P2 x) → filter P1 l = filter P2 l.
Proof.
  induction l as [|x l IH]; intros Hl; [done|].
  rewrite !filter_cons.
  rewrite IH by (intros; apply Hl; by right).
  destruct (decide (P1 x)) as [H1|H1], (decide (P2 x)) as [H2|H2];
    try done; exfalso; apply (Hl x) in H1 || apply (Hl x) in H2;
    done || left.
Qed.

Lemma filter_swap (P1 P2 : A → Prop)
    `{!∀ x, Decision (P1 x), !∀ x, Decision (P2 x)} l :
  filter P1 (filter P2 l) = filter P2 (filter P1 l).
Proof.
  rewrite !list_filter_filter. apply list_filter_iff. naive_solver.
Qed.

Lemma filter_all (P : A → Prop) `{!∀ x, Decision (P x)} l :
  (∀ x, x ∈ l → P x) → filter P l = l.
Proof.
  induction l as [|x l IH]; intros Hl; [done|].
  rewrite filter_cons_True by (apply Hl; left).
  f_equal. apply IH. intros; apply Hl; by right.
Qed.

Lemma filter_none (P : A → Prop) `{!∀ x, Decision (P x)} l :
  (∀ x, x ∈ l → ¬ P x) → filter P l = [].
Proof.
  induction l as [|x l IH]; intros Hl; [done|].
  rewrite filter_cons_False by (apply Hl; left).
  apply IH. intros; apply Hl; by right.
Qed.

Context `{!EqDecision A}.

(** Selecting from [l] the members of its own prefix gives the prefix. *)
Lemma filter_elem_take l k :
  NoDup l → filter (λ x, x ∈ take k l) l = take k l.
Proof.
  assert (Happ : ∀ l1 l2, NoDup (l1 ++ l2) →
            filter (λ x, x ∈ l1) (l1 ++ l2) = l1).
  { intros l1 l2 (_ & Hd & _)%NoDup_app.
    rewrite filter_app, filter_all by done.
    rewrite filter_none; [by rewrite app_nil_r|].
    intros x Hx2 Hx1. by eapply Hd. }
  intros Hl. specialize (Happ (take k l) (drop k l)).
  rewrite take_drop in Happ. auto.
Qed.
End ListFacts.

(** ** Document balancing *)

Module DocBalancingFacts.
Import PyDict PyDictFacts DocBalancing.

Lemma result_sources qrels ranking st topic out :
  get (foldl (balance_step qrels) st ranking).1 topic = Some out →
  get st.1 topic = Some out
  ∨ ∃ docs, (topic, docs) ∈ ranking
      ∧ 0 < balance_k (topic_qrels_of qrels topic) docs
      ∧ out = balanced_docs (topic_qrels_of qrels topic) docs.
Proof.
  revert st. induction ranking as [|[t docs] ranking IH]; intros st; simpl.
  { by left. }
  intros [Hst | (docs' & Hin & Hk & ->)]%IH.
  - unfold balance_step in Hst. simpl in Hst.
    destruct (decide (0 < _)) as [Hk|Hk]; simpl in Hst; [|by left].
    rewrite get_set in Hst. destruct (decide (t = topic)) as [->|]; [|by left].
    injection Hst as <-. right. exists docs. split; [left|done].
  - right. exists docs'. split; [by right | done].
Qed.

Lemma result_omap qrels ranking st :
  dict_wf ranking → (∀ t, t ∈ keys ranking → t ∉ keys st.1) →
  (foldl (balance_step qrels) st ranking).1
  = st.1 ++ omap (balance_item qrels) ranking.
Proof.
  unfold dict_wf. revert st.
  induction ranking as [|[t docs] ranking IH]; intros st Hwf Hst; simpl.
  { by rewrite app_nil_r. }
  apply NoDup_cons in Hwf as [Ht Hwf].
  rewrite IH; [|done|].
  - unfold balance_step, balance_item. simpl.
    destruct (decide (0 < _)); simpl; [|done].
    rewrite set_fresh by (apply Hst; left). by rewrite <- app_assoc.
  - intros t' Ht'. unfold balance_step. simpl.
    destruct (decide (0 < _)); simpl; [|apply Hst; by right].
    rewrite set_fresh by (apply Hst; left).
    unfold keys. rewrite fmap_app, elem_of_app. simpl.
    intros [Hin | ->%list_elem_of_singleton]; [|done].
    eapply Hst; [right|]; done.
Qed.

Lemma log_skipped qrels ranking st topic docs :
  (topic, docs) ∈ ranking →
  balance_k (topic_qrels_of qrels topic) docs = 0 →
  LWarning (skip_warning topic) ∈ (foldl (balance_step qrels) st ranking).2.
Proof.
  assert (Hmono : ∀ ranking st r,
    r ∈ st.2 → r ∈ (foldl (balance_step qrels) st ranking).2).
  { clear. induction ranking as [|it ranking IH]; intros st r Hr; [done|].
    simpl. apply IH. unfold balance_step.
    destruct (decide (0 < _)); simpl; [done|].
    apply elem_of_app. by left. }
  revert st. induction ranking as [|it ranking IH]; intros st Hin Hk.
  { by apply not_elem_of_nil in Hin. }
  apply elem_of_cons in Hin as [<-|Hin]; simpl; [|by apply IH].
  apply Hmono. unfold balance_step. simpl. rewrite Hk.
  rewrite decide_False by lia. simpl.
  apply elem_of_app. right. unfold skip_log. right. left.
Qed.

Section Topic.
Context (topic_qrels : Dict Z) (docs : Dict Q).
Hypothesis docs_wf : dict_wf docs.

Lemma sorted_ids_elem d : d ∈ sorted_ids docs ↔ d ∈ keys docs.
Proof. unfold sorted_ids. apply sorted_rev_elem. Qed.

Lemma sorted_ids_Permutation : sorted_ids docs ≡ₚ keys docs.
Proof. apply sorted_rev_Permutation. Qed.

Lemma pos_docs_NoDup : NoDup (pos_docs topic_qrels docs).
Proof. by apply NoDup_filter, sorted_rev_NoDup. Qed.

Lemma neg_docs_NoDup : NoDup (neg_docs topic_qrels docs).
Proof. by apply NoDup_filter, sorted_rev_NoDup. Qed.

Lemma pos_neg_disjoint d :
  d ∈ pos_docs topic_qrels docs → d ∈ neg_docs topic_qrels docs → False.
Proof.
  unfold pos_docs, neg_docs. rewrite !list_elem_of_filter. lia.
Qed.

Lemma balanced_ids_pos :
  filter (λ d, d ∈ balanced_ids topic_qrels docs) (pos_docs topic_qrels docs)
  = take (balance_k topic_qrels docs) (pos_docs topic_qrels docs).
Proof.
  rewrite <- (filter_elem_take (pos_docs _ _)) by apply pos_docs_NoDup.
  apply filter_ext_elem. intros d Hd. unfold balanced_ids.
  rewrite elem_of_list_to_set, elem_of_app. split; [|by left].
  intros [?|Hn]; [done|]. apply elem_of_take in Hn as (i & Hn & _).
  exfalso. eapply pos_neg_disjoint; [done|].
  by eapply list_elem_of_lookup_2.
Qed.

Lemma balanced_ids_neg :
  filter (λ d, d ∈ balanced_ids topic_qrels docs) (neg_docs topic_qrels docs)
  = take (balance_k topic_qrels docs) (neg_docs topic_qrels docs).
Proof.
  rewrite <- (filter_elem_take (neg_docs _ _)) by apply neg_docs_NoDup.
  apply filter_ext_elem. intros d Hd. unfold balanced_ids.
  rewrite elem_of_list_to_set, elem_of_app. split; [|by right].
  intros [Hp|?]; [|done]. apply elem_of_take in Hp as (i & Hp & _).
  exfalso. eapply pos_neg_disjoint; [|done].
  by eapply list_elem_of_lookup_2.
Qed.

Lemma balanced_docs_keys :
  keys (balanced_docs topic_qrels docs)
  = filter (λ d, d ∈ balanced_ids topic_qrels docs) (keys docs).
Proof.
  unfold balanced_docs.
  apply (filter_keys (λ d, d ∈ balanced_ids topic_qrels docs)).
Qed.

Lemma balanced_docs_wf : dict_wf (balanced_docs topic_qrels docs).
Proof. by apply filter_wf. Qed.

Lemma balanced_docs_getitem d :
  d ∈ keys (balanced_docs topic_qrels docs) →
  getitem (balanced_docs topic_qrels docs) d = getitem docs d.
Proof.
  unfold keys. intros ([d' v] & -> & Hin)%list_elem_of_fmap. simpl.
  unfold getitem, get_default.
  rewrite (elem_get _ _ _ balanced_docs_wf Hin).
  apply list_elem_of_filter in Hin as [_ Hin].
  by rewrite (elem_get _ _ _ docs_wf Hin).
Qed.

(** The sorted identifiers of the balanced documents are the balanced
    ones among the sorted identifiers. *)
Lemma balanced_sorted_ids :
  sorted_ids (balanced_docs topic_qrels docs)
  = filter (λ d, d ∈ balanced_ids topic_qrels docs) (sorted_ids docs).
Proof.
  unfold sorted_ids.
  rewrite (sorted_rev_ext _ (getitem docs))
    by (intros; by apply balanced_docs_getitem).
  rewrite balanced_docs_keys. apply sorted_rev_filter.
Qed.

Lemma balanced_pos_docs :
  pos_docs topic_qrels (balanced_docs topic_qrels docs)
  = take (balance_k topic_qrels docs) (pos_docs topic_qrels docs).
Proof.
  unfold pos_docs at 1. rewrite balanced_sorted_ids, filter_swap.
  apply balanced_ids_pos.
Qed.

Lemma balanced_neg_docs :
  neg_docs topic_qrels (balanced_docs topic_qrels docs)
  = take (balance_k topic_qrels docs) (neg_docs topic_qrels docs).
Proof.
  unfold neg_docs at 1. rewrite balanced_sorted_ids, filter_swap.
  apply balanced_ids_neg.
Qed.

Lemma balanced_balance_k :
  balance_k topic_qrels (balanced_docs topic_qrels docs)
  = balance_k topic_qrels docs.
Proof.
  unfold balance_k at 1. rewrite balanced_pos_docs, balanced_neg_docs.
  rewrite !length_take. unfold balance_k. lia.
Qed.

Lemma balanced_balanced_ids :
  balanced_ids topic_qrels (balanced_docs topic_qrels docs)
  = balanced_ids topic_qrels docs.
Proof.
  unfold balanced_ids at 1.
  rewrite balanced_balance_k, balanced_pos_docs, balanced_neg_docs.
  by rewrite !take_idemp.
Qed.

Lemma balanced_docs_idemp :
  balanced_docs topic_qrels (balanced_docs topic_qrels docs)
  = balanced_docs topic_qrels docs.
Proof.
  unfold balanced_docs at 1. rewrite balanced_balanced_ids.
  unfold balanced_docs. rewrite list_filter_filter.
  apply list_filter_iff. naive_solver.
Qed.

(** Among the retained documents, each class has exactly [k] members. *)
Lemma balanced_count (P : string → Prop)
    `{HP1 : !∀ it : string * Q, Decision (P it.1)}
    `{HP2 : !∀ d, Decision (P d)} :
  length (filter (λ it, P it.1) (balanced_docs topic_qrels docs))
  = length (filter (λ d, d ∈ balanced_ids topic_qrels docs)
              (filter P (sorted_ids docs))).
Proof.
  transitivity
    (length (keys (filter (λ it, P it.1) (balanced_docs topic_qrels docs)))).
  { unfold keys. by rewrite length_fmap. }
  rewrite (filter_keys P), balanced_docs_keys, filter_swap.
  by rewrite <- sorted_ids_Permutation.
Qed.
End Topic.

Lemma class_split topic_qrels docs x :
  (x ∈ pos_docs topic_qrels docs
   ↔ x ∈ keys docs ∧ ∃ g, get topic_qrels x = Some g ∧ (1 ≤ g)%Z)
  ∧ (x ∈ neg_docs topic_qrels docs
     ↔ x ∈ keys docs
       ∧ (get topic_qrels x = Some 0%Z ∨ get topic_qrels x = None)).
Proof.
  unfold pos_docs, neg_docs. rewrite !list_elem_of_filter, !sorted_ids_elem.
  unfold grade, get_default.
  destruct (get topic_qrels x) as [g|]; simpl; split; split;
    try naive_solver; intros [? ?]; split; try done;
    try (eexists; split; [done|lia]); try (by right); try lia.
Qed.

Lemma balance_item_keys qrels ranking :
  keys (omap (balance_item qrels) ranking) `sublist_of` keys ranking.
Proof.
  unfold keys. induction ranking as [|[t docs] ranking IH]; simpl; [done|].
  unfold balance_item at 1. simpl.
  destruct (decide (0 < _)); simpl; by constructor.
Qed.

Lemma balance_item_fixed qrels item item' :
  dict_wf item.2 → balance_item qrels item = Some item' →
  balance_item qrels item' = Some item'.
Proof.
  unfold balance_item. intros Hwf.
  destruct (decide (0 < _)) as [Hk|]; [|done].
  intros [= <-]. simpl.
  rewrite balanced_balance_k, balanced_docs_idemp by done.
  by rewrite decide_True.
Qed.

Lemma get_balanced_ranking_omap ranking qrels :
  dict_wf ranking →
  (get_balanced_ranking ranking qrels).1 = omap (balance_item qrels) ranking.
Proof.
  intros Hwf. unfold get_balanced_ranking.
  rewrite result_omap; [done..|]. intros. apply not_elem_of_nil.
Qed.

End DocBalancingFacts.

(** ** Entity-qrels balancing *)

Module EqrelsFacts.
Import PyDict PyDictFacts DreqFiltering.

Lemma eqrels_sources eqrels acc qid bal :
  get (foldl eqrels_step acc eqrels) qid = Some bal →
  get acc qid = Some bal
  ∨ ∃ ents, (qid, ents) ∈ eqrels ∧ 0 < ents_k ents ∧ bal = balanced_ents ents.
Proof.
  revert acc. induction eqrels as [|[q ents] eqrels IH]; intros acc; simpl.
  { by left. }
  intros [Hacc | (ents' & Hin & Hk & ->)]%IH.
  - unfold eqrels_step in Hacc. simpl in Hacc.
    destruct (decide (0 < _)) as [Hk|Hk]; [|by left].
    rewrite get_set in Hacc. destruct (decide (q = qid)) as [->|]; [|by left].
    injection Hacc as <-. right. exists ents. split; [left|done].
  - right. exists ents'. split; [by right | done].
Qed.

Lemma balanced_ents_grades ents ent g :
  (ent, g) ∈ balanced_ents ents → g = 1%Z ∨ g = 0%Z.
Proof.
  unfold balanced_ents.
  intros [H1 | [k0 H0]]%update_values.
  - left. by eapply from_keys_values.
  - right. by eapply from_keys_values.
Qed.

Section Query.
Context (ents : Dict Z).
Hypothesis ents_wf : dict_wf ents.

Lemma pos_ents_elem e :
  e ∈ pos_ents ents ↔ ∃ g, (e, g) ∈ ents ∧ (1 ≤ g)%Z.
Proof.
  unfold pos_ents. rewrite list_elem_of_fmap. split.
  - intros ([e' g] & -> & [Hg Hin]%list_elem_of_filter). by exists g.
  - intros (g & Hin & Hg). exists (e, g). split; [done|].
    by apply list_elem_of_filter.
Qed.

Lemma neg_ents_elem e : e ∈ neg_ents ents ↔ (e, 0%Z) ∈ ents.
Proof.
  unfold neg_ents. rewrite list_elem_of_fmap. split.
  - intros ([e' g] & -> & [Hg Hin]%list_elem_of_filter).
    simpl in *. by subst.
  - intros Hin. exists (e, 0%Z). split; [done|].
    by apply list_elem_of_filter.
Qed.

Lemma pos_ents_NoDup : NoDup (pos_ents ents).
Proof. by apply (filter_wf (λ it, (1 ≤ it.2)%Z)). Qed.

Lemma neg_ents_NoDup : NoDup (neg_ents ents).
Proof. by apply (filter_wf (λ it, it.2 = 0%Z)). Qed.

Lemma pos_neg_ents_disjoint e :
  e ∈ pos_ents ents → e ∈ neg_ents ents → False.
Proof.
  intros (g & Hin & Hg)%pos_ents_elem Hn%neg_ents_elem.
  pose proof (wf_functional _ _ _ _ ents_wf Hin Hn). lia.
Qed.

(** On a well-formed judgment dict nothing is overwritten: the balanced
    dict lists the first [k] positives at grade 1, then the first [k]
    negatives at grade 0. *)
Lemma balanced_ents_shape :
  balanced_ents ents
  = ((λ e, (e, 1%Z)) <$> take (ents_k ents) (pos_ents ents))
    ++ ((λ e, (e, 0%Z)) <$> take (ents_k ents) (neg_ents ents)).
Proof.
  unfold balanced_ents.
  assert (Hp : NoDup (take (ents_k ents) (pos_ents ents))).
  { eapply sublist_NoDup; [apply pos_ents_NoDup | apply sublist_take]. }
  assert (Hn : NoDup (take (ents_k ents) (neg_ents ents))).
  { eapply sublist_NoDup; [apply neg_ents_NoDup | apply sublist_take]. }
  rewrite !from_keys_NoDup by done.
  apply update_disjoint.
  - unfold dict_wf. fold (keys ((λ e, (e, 0%Z)) <$> take (ents_k ents) (neg_ents ents))).
    by rewrite keys_tagged.
  - intros e. rewrite !keys_tagged. intros H2 H1.
    apply elem_of_take in H1 as (i & H1 & _).
    apply elem_of_take in H2 as (j & H2 & _).
    eapply pos_neg_ents_disjoint; by eapply list_elem_of_lookup_2.
Qed.

Lemma balanced_ents_count_1 :
  length (filter (λ it, it.2 = 1%Z) (balanced_ents ents)) = ents_k ents.
Proof.
  rewrite balanced_ents_shape, filter_app.
  rewrite filter_all, filter_none.
  - rewrite app_nil_r, length_fmap, length_take. unfold ents_k. lia.
  - by intros [e g] (e' & [= -> ->] & _)%list_elem_of_fmap.
  - by intros [e g] (e' & [= -> ->] & _)%list_elem_of_fmap.
Qed.

Lemma balanced_ents_count_0 :
  length (filter (λ it, it.2 = 0%Z) (balanced_ents ents)) = ents_k ents.
Proof.
  rewrite balanced_ents_shape, filter_app.
  rewrite filter_none, filter_all.
  - simpl. rewrite length_fmap, length_take. unfold ents_k. lia.
  - by intros [e g] (e' & [= -> ->] & _)%list_elem_of_fmap.
  - by intros [e g] (e' & [= -> ->] & _)%list_elem_of_fmap.
Qed.
End Query.

End EqrelsFacts.

(** ** The scenarios of the documentation, evaluated *)

Example sorted_ids_stable :
  DocBalancing.sorted_ids
    [("a", 1 # 1); ("b", 2 # 1); ("c", 1 # 1); ("d", 2 # 1)]%Q
  = ["b"; "d"; "a"; "c"].
Proof. reflexivity. Qed.

Example split_space_doubled :
  DreqFiltering.split_space "q1  d1 " = ["q1"; ""; "d1"; ""].
Proof. reflexivity. Qed.

Example groupby_runs :
  DreqFiltering.groupby (λ x : string, x) ["a"; "a"; "b"; "a"]
  = [("a", ["a"; "a"]); ("b", ["b"]); ("a", ["a"])].
Proof. reflexivity. Qed.

Example balance_scenario :
  DocBalancing.get_balanced_ranking ex_ranking ex_qrels
  = ([("q1", [("d1", 3 # 1); ("d2", 2 # 1)])]%Q, []).
Proof. reflexivity. Qed.

Example only_positives_scenario :
  (DocBalancing.get_balanced_ranking ex_ranking_only_pos ex_qrels_unjudged).1
  = [].
Proof. reflexivity. Qed.

Example shared_scenario :
  SharedEntities.get_classified_entities ex_qrels_shared ex_links_shared
  = Ok ([("q1", SharedEntities.Classes {[ "e2" ]} {[ "e1" ]} {[ "e3" ]})], []).
Proof. reflexivity. Qed.

(** * The claims *)

Import PyDict PyDictFacts DocBalancing DocBalancingFacts.
Import DreqFiltering EqrelsFacts.

(** ** Document balancer *)

(** C1, as stated, fails: a candidate without a judgment entry is looked up
    with [topic_qrels.get(d, 0)], lands in [neg_docs] and is kept.  Here
    ["d3"] is unjudged and is part of the balanced output of ["q1"]. *)
Lemma unjudged_candidate_retained :
  ¬ (∀ topic out d,
       get (get_balanced_ranking ex_ranking_unjudged ex_qrels_unjudged).1 topic
       = Some out →
       get (topic_qrels_of ex_qrels_unjudged topic) d = None →
       d ∉ keys out).
Proof.
  intros H.
  apply (H "q1" [("d1", 3 # 1); ("d3", 1 # 1)]%Q "d3"); [done | done |].
  unfold keys. simpl. right. left.
Qed.

(** C1 (amended).  For every query in the balanced output the score-sorted
    identifier sequence is split into [pos_docs] (judgment ≥ 1) and
    [neg_docs] (judgment equal to 0, or no judgment entry, which defaults
    to 0); every retained candidate is among the first [k] of one of the
    two sub-sequences, and a candidate whose judgment is neither ≥ 1 nor 0
    never appears in the output. *)
Theorem balanced_output_classes ranking qrels topic out d :
  get (get_balanced_ranking ranking qrels).1 topic = Some out →
  d ∈ keys out →
  ∃ docs, (topic, docs) ∈ ranking ∧
    let tq := topic_qrels_of qrels topic in
    let k := length (pos_docs tq docs) `min` length (neg_docs tq docs) in
    sorted_ids docs ≡ₚ keys docs
    ∧ StronglySorted (ge_key (getitem docs)) (sorted_ids docs)
    ∧ (∀ x, x ∈ pos_docs tq docs
            ↔ x ∈ keys docs ∧ ∃ g, get tq x = Some g ∧ (1 ≤ g)%Z)
    ∧ (∀ x, x ∈ neg_docs tq docs
            ↔ x ∈ keys docs ∧ (get tq x = Some 0%Z ∨ get tq x = None))
    ∧ (d ∈ take k (pos_docs tq docs) ∨ d ∈ take k (neg_docs tq docs))
    ∧ (∀ g, get tq d = Some g → (1 ≤ g)%Z ∨ g = 0%Z).
Proof.
  intros [Hget | (docs & Hin & Hk & ->)]%result_sources Hd; [done|].
  exists docs. split; [done|]. simpl.
  assert (Hsel : d ∈ take (balance_k (topic_qrels_of qrels topic) docs)
                       (pos_docs (topic_qrels_of qrels topic) docs)
               ∨ d ∈ take (balance_k (topic_qrels_of qrels topic) docs)
                       (neg_docs (topic_qrels_of qrels topic) docs)).
  { rewrite balanced_docs_keys in Hd.
    apply list_elem_of_filter in Hd as [Hd _].
    unfold balanced_ids in Hd.
    by rewrite elem_of_list_to_set, elem_of_app in Hd. }
  split_and!.
  - apply sorted_ids_Permutation.
  - apply sorted_rev_sorted.
  - intros x. apply class_split.
  - intros x. apply class_split.
  - exact Hsel.
  - intros g Hg.
    destruct Hsel as [Hs|Hs]; apply elem_of_take in Hs as (i & Hs & _);
      apply list_elem_of_lookup_2 in Hs.
    + apply class_split in Hs as (_ & g' & Hg' & ?). left. congruence.
    + apply class_split in Hs as (_ & [Hg'|Hg']); [right|]; congruence.
Qed.

Lemma balanced_output_classes_witness :
  ∃ docs, (("q1", docs) : string * Dict Q) ∈ ex_ranking_unjudged ∧
    let tq := topic_qrels_of ex_qrels_unjudged "q1" in
    let k := length (pos_docs tq docs) `min` length (neg_docs tq docs) in
    sorted_ids docs ≡ₚ keys docs
    ∧ StronglySorted (ge_key (getitem docs)) (sorted_ids docs)
    ∧ (∀ x, x ∈ pos_docs tq docs
            ↔ x ∈ keys docs ∧ ∃ g, get tq x = Some g ∧ (1 ≤ g)%Z)
    ∧ (∀ x, x ∈ neg_docs tq docs
            ↔ x ∈ keys docs ∧ (get tq x = Some 0%Z ∨ get tq x = None))
    ∧ ("d3" ∈ take k (pos_docs tq docs) ∨ "d3" ∈ take k (neg_docs tq docs))
    ∧ (∀ g, get tq "d3" = Some g → (1 ≤ g)%Z ∨ g = 0%Z).
Proof.
  apply (balanced_output_classes ex_ranking_unjudged ex_qrels_unjudged "q1"
           [("d1", 3 # 1); ("d3", 1 # 1)]%Q "d3").
  - reflexivity.
  - unfold keys. simpl. right. left.
Defined.




(** C8.  Balancing is idempotent: balancing the balanced ranking again, with
    the same qrels, gives the same ranking. *)
Theorem balancing_idempotent ranking qrels :
  dict_wf ranking →
  (∀ topic docs, (topic, docs) ∈ ranking → dict_wf docs) →
  (get_balanced_ranking (get_balanced_ranking ranking qrels).1 qrels).1
  = (get_balanced_ranking ranking qrels).1.
Proof.
  intros Hwf Hdocs.
  rewrite (get_balanced_ranking_omap ranking) by done.
  rewrite get_balanced_ranking_omap.
  2:{ eapply sublist_NoDup; [exact Hwf | apply balance_item_keys]. }
  clear Hwf. induction ranking as [|[t docs] ranking IH]; [done|].
  simpl. destruct (balance_item qrels (t, docs)) as [item'|] eqn:Hit.
  - simpl. rewrite (balance_item_fixed qrels (t, docs) item'
                      (Hdocs t docs ltac:(left)) Hit).
    f_equal. apply IH. intros; eapply Hdocs; by right.
  - apply IH. intros; eapply Hdocs; by right.
Qed.

Lemma balancing_idempotent_witness :
  (get_balanced_ranking (get_balanced_ranking ex_ranking ex_qrels).1 ex_qrels).1
  = (get_balanced_ranking ex_ranking ex_qrels).1.
Proof.
  apply (balancing_idempotent ex_ranking ex_qrels).
  - unfold dict_wf. simpl. apply NoDup_singleton.
  - intros topic docs [[= -> ->] | []%not_elem_of_nil]%elem_of_cons.
    unfold dict_wf. compute_done.
Defined.

(** C2, as stated, fails for [get_balanced_ranking]: a retained document
    need not be judged.  In the balanced output of ["q1"] one document is
    judged positive and none is judged negative (["d3"] has no judgment
    entry and fills the negative class). *)
Lemma unjudged_fills_negative_class :
  ¬ (∀ topic out,
       get (get_balanced_ranking ex_ranking_unjudged ex_qrels_unjudged).1 topic
       = Some out →
       let tq := topic_qrels_of ex_qrels_unjudged topic in
       length (filter (λ it, judged_positive tq it.1) out)
       = length (filter (λ it, judged_negative tq it.1) out)).
Proof.
  intros H.
  specialize (H "q1" [("d1", 3 # 1); ("d3", 1 # 1)]%Q eq_refl).
  vm_compute in H. discriminate H.
Qed.

(** C2 (amended).  In every query of a balanced output the two classes have
    the same size [k = min(|pos|,|neg|)]: among the documents retained by
    [get_balanced_ranking], [k] are in the positive class (judgment ≥ 1) and
    [k] in the negative class (judgment 0 or no judgment entry, as
    [topic_qrels.get(d, 0)] forms it); every query emitted by
    [collect_filtered_eqrels] maps [k] entities to grade 1 and [k] entities
    to grade 0. *)
Theorem balanced_classes_equal_size :
  (∀ (ranking : Dict (Dict Q)) (qrels : Dict (Dict Z)) topic out,
     (∀ t docs, (t, docs) ∈ ranking → dict_wf docs) →
     get (get_balanced_ranking ranking qrels).1 topic = Some out →
     ∃ docs, (topic, docs) ∈ ranking ∧
       let tq := topic_qrels_of qrels topic in
       let k := length (pos_docs tq docs) `min` length (neg_docs tq docs) in
       0 < k
       ∧ length (filter (λ it, (1 ≤ grade tq it.1)%Z) out) = k
       ∧ length (filter (λ it, grade tq it.1 = 0%Z) out) = k)
  ∧ (∀ (eqrels : Dict (Dict Z)) qid bal,
       (∀ q ents, (q, ents) ∈ eqrels → dict_wf ents) →
       get (collect_filtered_eqrels eqrels) qid = Some bal →
       ∃ ents, (qid, ents) ∈ eqrels ∧
         let k := length (pos_ents ents) `min` length (neg_ents ents) in
         0 < k
         ∧ length (filter (λ it, it.2 = 1%Z) bal) = k
         ∧ length (filter (λ it, it.2 = 0%Z) bal) = k).
Proof.
  split.
  - intros ranking qrels topic out Hdocs
      [Hget | (docs & Hin & Hk & ->)]%result_sources; [done|].
    exists docs. split; [done|]. simpl.
    pose proof (Hdocs _ _ Hin) as Hwf.
    split; [exact Hk|]. split.
    + rewrite (balanced_count _ _ (λ d, (1 ≤ grade (topic_qrels_of qrels topic) d)%Z)).
      fold (pos_docs (topic_qrels_of qrels topic) docs).
      rewrite balanced_ids_pos, length_take by done.
      unfold balance_k. lia.
    + rewrite (balanced_count _ _ (λ d, grade (topic_qrels_of qrels topic) d = 0%Z)).
      fold (neg_docs (topic_qrels_of qrels topic) docs).
      rewrite balanced_ids_neg, length_take by done.
      unfold balance_k. lia.
  - intros eqrels qid bal Hents
      [Hget | (ents & Hin & Hk & ->)]%eqrels_sources; [done|].
    exists ents. split; [done|]. simpl.
    pose proof (Hents _ _ Hin) as Hwf.
    split; [exact Hk|].
    by rewrite balanced_ents_count_1, balanced_ents_count_0.
Qed.

Lemma balanced_classes_equal_size_witness :
  (∃ docs, (("q1", docs) : string * Dict Q) ∈ ex_ranking ∧
     let tq := topic_qrels_of ex_qrels "q1" in
     let k := length (pos_docs tq docs) `min` length (neg_docs tq docs) in
     0 < k
     ∧ length (filter (λ it, (1 ≤ grade tq it.1)%Z)
                 [("d1", 3 # 1); ("d2", 2 # 1)]%Q) = k
     ∧ length (filter (λ it, grade tq it.1 = 0%Z)
                 [("d1", 3 # 1); ("d2", 2 # 1)]%Q) = k)
  ∧ (∃ ents, (("q1", ents) : string * Dict Z) ∈ ex_eqrels ∧
       let k := length (pos_ents ents) `min` length (neg_ents ents) in
       0 < k
       ∧ length (filter (λ it, it.2 = 1%Z) [("e1", 1%Z); ("e4", 1%Z);
                                            ("e2", 0%Z); ("e3", 0%Z)]) = k
       ∧ length (filter (λ it, it.2 = 0%Z) [("e1", 1%Z); ("e4", 1%Z);
                                            ("e2", 0%Z); ("e3", 0%Z)]) = k).
Proof.
  split.
  - apply (proj1 balanced_classes_equal_size ex_ranking ex_qrels "q1").
    + intros t docs [[= -> ->] | []%not_elem_of_nil]%elem_of_cons.
      unfold dict_wf. compute_done.
    + reflexivity.
  - apply (proj2 balanced_classes_equal_size ex_eqrels "q1").
    + intros q ents [[= -> ->] | [[= -> ->] | []%not_elem_of_nil]%elem_of_cons]%elem_of_cons;
        unfold dict_wf; compute_done.
    + reflexivity.
Defined.

(** C10.  Every grade in the output of [collect_filtered_eqrels] is 1 or 0:
    the output of a query lists its first [k] positive entities (original
    grade ≥ 1, possibly greater than 1) at grade 1 and its first [k]
    negative entities at grade 0, so the original grades are not kept. *)
Theorem filtered_eqrels_grades_binary (eqrels : Dict (Dict Z)) qid bal :
  get (collect_filtered_eqrels eqrels) qid = Some bal →
  (∀ ent g, (ent, g) ∈ bal → g = 1%Z ∨ g = 0%Z)
  ∧ ∃ ents, (qid, ents) ∈ eqrels ∧
      (dict_wf ents →
       let k := length (pos_ents ents) `min` length (neg_ents ents) in
       bal = ((λ e, (e, 1%Z)) <$> take k (pos_ents ents))
             ++ ((λ e, (e, 0%Z)) <$> take k (neg_ents ents))
       ∧ (∀ ent, (ent, 1%Z) ∈ bal → ∃ g0, (ent, g0) ∈ ents ∧ (1 ≤ g0)%Z)
       ∧ (∀ ent, (ent, 0%Z) ∈ bal → (ent, 0%Z) ∈ ents)).
Proof.
  intros [Hget | (ents & Hin & Hk & ->)]%eqrels_sources; [done|].
  split.
  - intros ent g. apply balanced_ents_grades.
  - exists ents. split; [done|]. intros Hwf. simpl.
    rewrite balanced_ents_shape by done. fold (ents_k ents).
    split; [done|]. split; intros ent; rewrite elem_of_app, !list_elem_of_fmap.
    + intros [(e & [= ->] & He) | (e & [=] & _)].
      apply elem_of_take in He as (i & He & _).
      apply list_elem_of_lookup_2 in He. by apply pos_ents_elem.
    + intros [(e & [=] & _) | (e & [= ->] & He)].
      apply elem_of_take in He as (i & He & _).
      apply list_elem_of_lookup_2 in He. by apply neg_ents_elem.
Qed.

Lemma filtered_eqrels_grades_binary_witness :
  get ex_eqrels "q1"
    = Some [("e1", 2%Z); ("e2", 0%Z); ("e3", 0%Z); ("e4", 3%Z)]
  ∧ get (collect_filtered_eqrels ex_eqrels) "q1"
    = Some [("e1", 1%Z); ("e4", 1%Z); ("e2", 0%Z); ("e3", 0%Z)]
  ∧ (∀ ent g, (ent, g) ∈ [("e1", 1%Z); ("e4", 1%Z); ("e2", 0%Z); ("e3", 0%Z)] →
              g = 1%Z ∨ g = 0%Z).
Proof.
  split; [reflexivity|]. split; [reflexivity|].
  apply (filtered_eqrels_grades_binary ex_eqrels "q1"). reflexivity.
Defined.

(** ** Overlap filter *)

Module FilterFacts.
Import PyDict DreqFiltering.

Lemma overlap_nonempty (X : gset string) : 0 < size X ↔ X ≠ ∅.
Proof.
  split.
  - intros Hs ->. rewrite size_empty in Hs. lia.
  - intros Hne. apply Nat.neq_0_lt_0, size_non_empty_iff.
    intros He. apply Hne. by apply leibniz_equiv.
Qed.

Lemma overlap_nonempty_set (X : gset string) : (∃ x, x ∈ X) → 0 < size X.
Proof.
  intros [x Hx]. apply overlap_nonempty. intros ->.
  by apply not_elem_of_empty in Hx.
Qed.

Lemma index_field parts_len line i :
  parts_len = length (split_space line) → i < parts_len →
  index (split_space line) i = Ok (field i line).
Proof.
  intros -> Hi. unfold index, field.
  destruct (lookup_lt_is_Some_2 (split_space line) i Hi) as [p Hp].
  by rewrite Hp.
Qed.

Lemma groupby_concat {A} (key : A → string) (l : list A) :
  concat (groupby key l).*2 = l.
Proof.
  induction l as [|x l IH]; [done|]. simpl.
  destruct (groupby key l) as [|[k g] rest]; simpl in *.
  - by subst.
  - destruct (decide (key x = k)); simpl; by rewrite IH.
Qed.

Lemma elem_of_concat {A} (ls : list (list A)) g x :
  g ∈ ls → x ∈ g → x ∈ concat ls.
Proof.
  induction ls as [|g' ls IH]; intros Hg Hx; simpl.
  - by apply not_elem_of_nil in Hg.
  - apply elem_of_app. apply elem_of_cons in Hg as [->|Hg]; auto.
Qed.

Lemma groupby_elem {A} (key : A → string) (l : list A) k g x :
  (k, g) ∈ groupby key l → x ∈ g → x ∈ l.
Proof.
  intros Hg Hx. rewrite <- (groupby_concat key l).
  apply (elem_of_concat _ g); [|done].
  apply list_elem_of_fmap. by exists (k, g).
Qed.

Section Group.
Context (ent_qrels : Dict (Dict Z)) (doc_ents : gmap string (gset string)).
Context (qid : string).

Lemma filter_line_spec st line :
  5 ≤ length (split_space line) →
  filter_line qid (scored_ents_of ent_qrels qid) doc_ents st line
  = Ok (if decide (retained ent_qrels doc_ents qid line)
        then FilterState (S (doc_count st)) (S (rank st))
               (written st
                ++ [out_line qid (field 1 line) (field 2 line) (rank st)
                      (field 4 line)])
        else FilterState (S (doc_count st)) (rank st) (written st)).
Proof.
  intros Hlen. unfold filter_line. cbv zeta.
  rewrite (index_field _ line 2 eq_refl) by lia. cbn [mbind res_bind].
  destruct (decide (0 < size _)) as [Hov|Hov].
  - rewrite (index_field _ line 1 eq_refl) by lia.
    rewrite (index_field _ line 4 eq_refl) by lia. cbn [mbind res_bind].
    rewrite decide_True; [done|].
    unfold retained. by apply overlap_nonempty.
  - rewrite decide_False; [done|].
    unfold retained. by rewrite <- overlap_nonempty.
Qed.

Lemma filter_lines_spec group st :
  (∀ line, line ∈ group → 5 ≤ length (split_space line)) →
  for_each (filter_line qid (scored_ents_of ent_qrels qid) doc_ents)
    st group
  = Ok (FilterState
          (doc_count st + length group)
          (rank st + length (filter (retained ent_qrels doc_ents qid) group))
          (written st
           ++ renumber qid (rank st)
                (filter (retained ent_qrels doc_ents qid) group))).
Proof.
  revert st. induction group as [|line group IH]; intros st Hwf.
  { simpl. destruct st. simpl. rewrite app_nil_r. do 2 f_equal; lia. }
  cbn [for_each]. rewrite filter_line_spec by (apply Hwf; left).
  cbn [mbind res_bind].
  rewrite IH by (intros; apply Hwf; by right).
  rewrite filter_cons.
  destruct (decide (retained _ _ _ _)); cbn [doc_count rank written].
  - cbn [length renumber]. rewrite <- app_assoc. simpl.
    by rewrite !Nat.add_succ_r.
  - cbn [length]. by rewrite !Nat.add_succ_r.
Qed.
End Group.

Lemma filter_group_ok ent_qrels doc_ents st grp :
  (∀ line, line ∈ grp.2 → 5 ≤ length (split_space line)) →
  filter_group ent_qrels doc_ents st grp
  = Ok (FilterState
          (doc_count st + length grp.2)
          (1 + length (filter (retained ent_qrels doc_ents grp.1) grp.2))
          (written st ++ filter_group_spec ent_qrels doc_ents grp)).
Proof.
  intros Hwf. unfold filter_group. by rewrite filter_lines_spec.
Qed.

Lemma filter_groups_spec ent_qrels doc_ents groups st :
  (∀ k g line, (k, g) ∈ groups → line ∈ g → 5 ≤ length (split_space line)) →
  ∃ r, for_each (filter_group ent_qrels doc_ents) st groups
       = Ok (FilterState
               (doc_count st + length (concat groups.*2)) r
               (written st
                ++ concat (filter_group_spec ent_qrels doc_ents <$> groups))).
Proof.
  revert st. induction groups as [|[k g] groups IH]; intros st Hwf.
  { exists (rank st). simpl. destruct st; simpl.
    by rewrite app_nil_r, Nat.add_0_r. }
  cbn [for_each].
  rewrite filter_group_ok by (intros; eapply Hwf; [left|done]).
  cbn [mbind res_bind].
  edestruct IH as [r ->]; [intros; eapply Hwf; [by right|done]|].
  exists r. cbn [doc_count rank written fst snd]. simpl.
  by rewrite length_app, <- app_assoc, Nat.add_assoc.
Qed.

Lemma renumber_lookup qid rank kept i line :
  kept !! i = Some line →
  renumber qid rank kept !! i
  = Some (out_line qid (field 1 line) (field 2 line) (rank + i)
            (field 4 line)).
Proof.
  revert rank i. induction kept as [|l kept IH]; intros rank [|i]; simpl;
    try done.
  - intros [= ->]. by rewrite Nat.add_0_r.
  - intros Hl. by rewrite (IH (S rank) i Hl), Nat.add_succ_r.
Qed.

Lemma renumber_length qid rank kept :
  length (renumber qid rank kept) = length kept.
Proof. revert rank. induction kept; intros; simpl; by f_equal. Qed.

End FilterFacts.

(** ** Overlap statistics *)

Module StatisticsFacts.
Import PyDict PyDictFacts DreqFiltering FilterFacts.

Lemma keys_to_set {V} (d : Dict V) qid :
  qid ∈ (list_to_set (keys d) : gset string) ↔ qid ∈ keys d.
Proof. apply elem_of_list_to_set. Qed.

Lemma truediv_bounds a b :
  a ≤ b → 0 < b →
  truediv a b = Ok (inject_Z (Z.of_nat a) / inject_Z (Z.of_nat b))%Q
  ∧ (0 <= inject_Z (Z.of_nat a) / inject_Z (Z.of_nat b) <= 1)%Q.
Proof.
  intros Hab Hb. unfold truediv. rewrite decide_False by lia.
  split; [done|].
  assert (Hb' : (0 < inject_Z (Z.of_nat b))%Q).
  { change 0%Q with (inject_Z 0). rewrite <- Zlt_Qlt. lia. }
  split.
  - apply Qle_shift_div_l; [done|]. rewrite Qmult_0_l.
    change 0%Q with (inject_Z 0). rewrite <- Zle_Qle. lia.
  - apply Qle_shift_div_r; [done|]. rewrite Qmult_1_l.
    rewrite <- Zle_Qle. lia.
Qed.

Lemma overlap_of_ok fil_dict ref_dict qid fil_docs ref_docs :
  get fil_dict qid = Some fil_docs →
  get ref_dict qid = Some ref_docs →
  ref_docs ≠ [] →
  let F : gset string := list_to_set (keys fil_docs) in
  let R : gset string := list_to_set (keys ref_docs) in
  overlap_of fil_dict ref_dict qid
  = Ok (inject_Z (Z.of_nat (size (F ∩ R))) / inject_Z (Z.of_nat (size R)))%Q
  ∧ (0 <= inject_Z (Z.of_nat (size (F ∩ R))) / inject_Z (Z.of_nat (size R))
     <= 1)%Q.
Proof.
  intros Hf Hr Hne F R. unfold overlap_of, keys_of. rewrite Hf, Hr.
  cbn [mbind res_bind]. apply truediv_bounds.
  - apply subseteq_size. set_solver.
  - apply overlap_nonempty_set. destruct ref_docs as [|[d v] ref_docs]; [done|].
    exists d. subst R. unfold keys. simpl. set_solver.
Qed.

Lemma comparable_elem (fil_dict ref_dict : Dict (Dict Q)) qid :
  qid ∈ comparable_queries fil_dict ref_dict
  ↔ qid ∈ keys fil_dict ∧ qid ∈ keys ref_dict.
Proof.
  unfold comparable_queries. by rewrite elem_of_intersection, !keys_to_set.
Qed.

Lemma keys_get {V} (d : Dict V) k : k ∈ keys d → ∃ v, get d k = Some v.
Proof.
  intros Hk. destruct (get d k) as [v|] eqn:Hg; [by exists v|].
  by apply get_None_keys in Hg.
Qed.

Lemma overlaps_loop_exact fil_dict ref_dict (qids : list string) acc :
  (∀ q docs, (q, docs) ∈ ref_dict → docs ≠ []) →
  (∀ q, q ∈ qids → q ∈ comparable_queries fil_dict ref_dict) →
  ∃ rs, for_each (λ overlaps qid,
                    overlap ← overlap_of fil_dict ref_dict qid;
                    Ok (overlaps ++ [overlap])) acc qids
        = Ok (acc ++ rs)
        ∧ Forall2 (ratio_of fil_dict ref_dict) qids rs
        ∧ Forall (λ r, 0 <= r <= 1)%Q rs.
Proof.
  intros Href. revert acc.
  induction qids as [|qid qids IH]; intros acc Hq.
  { exists []. by rewrite app_nil_r. }
  destruct (proj1 (comparable_elem _ _ qid) (Hq qid ltac:(left)))
    as [[fd Hf]%keys_get [rd Hr]%keys_get].
  destruct (overlap_of_ok _ _ _ _ _ Hf Hr) as [Hov Hb].
  { eapply Href. by eapply get_Some_elem. }
  cbn [for_each]. rewrite Hov. cbn [mbind res_bind].
  match goal with |- context [for_each _ (acc ++ [?r]) qids] =>
    destruct (IH (acc ++ [r]) ltac:(intros; apply Hq; by right))
      as (rs & -> & Hrs & Hall);
    exists (r :: rs)
  end.
  rewrite <- app_assoc. split; [done|].
  split; [|by constructor].
  constructor; [|done]. by exists fd, rd.
Qed.

Lemma collect_overlaps_ok fil_dict ref_dict :
  (∀ q docs, (q, docs) ∈ ref_dict → docs ≠ []) →
  ∃ ovs, collect_overlaps fil_dict ref_dict = Ok ovs
    ∧ Forall2 (ratio_of fil_dict ref_dict)
        (elements (comparable_queries fil_dict ref_dict)) ovs
    ∧ Forall (λ r, 0 <= r <= 1)%Q ovs.
Proof.
  intros Href. unfold collect_overlaps.
  destruct (overlaps_loop_exact fil_dict ref_dict
              (elements (comparable_queries fil_dict ref_dict)) [] Href)
    as (rs & Hrs & Hex & Hall).
  { intros q. apply elem_of_elements. }
  exists rs. by rewrite Hrs.
Qed.

(** *** Mean, minimum and maximum *)

Lemma sum_bounds (l : list Q) (lo hi : Q) :
  Forall (λ r, lo <= r <= hi)%Q l →
  (inject_Z (Z.of_nat (length l)) * lo <= foldr Qplus 0 l
   <= inject_Z (Z.of_nat (length l)) * hi)%Q.
Proof.
  induction 1 as [|r l [Hlo Hhi] _ [IHlo IHhi]].
  { simpl. rewrite !Qmult_0_l. split; apply Qle_refl. }
  cbn [foldr length]. rewrite Nat2Z.inj_succ, <- Z.add_1_r.
  rewrite inject_Z_plus, !Qmult_plus_distr_l, !Qmult_1_l.
  split.
  - rewrite (Qplus_comm _ lo). by apply Qplus_le_compat.
  - rewrite (Qplus_comm _ hi). by apply Qplus_le_compat.
Qed.

Lemma mean_bounds (l : list Q) (lo hi : Q) :
  l ≠ [] → Forall (λ r, lo <= r <= hi)%Q l →
  ∃ m, mean l = Ok m ∧ (lo <= m <= hi)%Q.
Proof.
  intros Hne Hall. destruct (sum_bounds l lo hi Hall) as [Hlo Hhi].
  destruct l as [|x l]; [done|]. eexists. split; [reflexivity|].
  set (n := inject_Z (Z.of_nat (length (x :: l)))) in *.
  assert (Hn : (0 < n)%Q).
  { subst n. change 0%Q with (inject_Z 0). rewrite <- Zlt_Qlt. simpl. lia. }
  split.
  - apply Qle_shift_div_l; [done|]. by rewrite Qmult_comm.
  - apply Qle_shift_div_r; [done|]. by rewrite Qmult_comm.
Qed.

Lemma Qle_bool_false (a b : Q) : Qle_bool a b = false → (b <= a)%Q.
Proof.
  intros Hf. destruct (Qlt_le_dec b a) as [Hlt|Hle].
  - by apply Qlt_le_weak.
  - apply Qle_bool_iff in Hle. congruence.
Qed.

Lemma foldl_min (l : list Q) (x : Q) :
  let lo := foldl (λ m y, if Qle_bool m y then m else y) x l in
  lo ∈ x :: l ∧ (lo <= x)%Q ∧ Forall (λ r, lo <= r)%Q l.
Proof.
  revert x. induction l as [|y l IH]; intros x; cbn [foldl].
  { split_and!; [left | apply Qle_refl | constructor]. }
  destruct (Qle_bool x y) eqn:Hxy.
  - destruct (IH x) as (Hin & Hx & Hall). apply Qle_bool_iff in Hxy.
    split_and!; [set_solver | done |].
    constructor; [by eapply Qle_trans | done].
  - destruct (IH y) as (Hin & Hy & Hall). apply Qle_bool_false in Hxy.
    split_and!; [set_solver | by eapply Qle_trans |].
    by constructor.
Qed.

Lemma foldl_max (l : list Q) (x : Q) :
  let hi := foldl (λ m y, if Qle_bool y m then m else y) x l in
  hi ∈ x :: l ∧ (x <= hi)%Q ∧ Forall (λ r, r <= hi)%Q l.
Proof.
  revert x. induction l as [|y l IH]; intros x; cbn [foldl].
  { split_and!; [left | apply Qle_refl | constructor]. }
  destruct (Qle_bool y x) eqn:Hxy.
  - destruct (IH x) as (Hin & Hx & Hall). apply Qle_bool_iff in Hxy.
    split_and!; [set_solver | done |].
    constructor; [by eapply Qle_trans | done].
  - destruct (IH y) as (Hin & Hy & Hall). apply Qle_bool_false in Hxy.
    split_and!; [set_solver | by eapply Qle_trans |].
    by constructor.
Qed.

Lemma min_of_spec (l : list Q) :
  l ≠ [] →
  ∃ lo, min_of l = Ok lo ∧ lo ∈ l ∧ Forall (λ r, lo <= r)%Q l.
Proof.
  destruct l as [|x l]; [done|]. intros _.
  destruct (foldl_min l x) as (Hin & Hx & Hall).
  eexists. split; [reflexivity|]. split; [done|]. by constructor.
Qed.

Lemma max_of_spec (l : list Q) :
  l ≠ [] →
  ∃ hi, max_of l = Ok hi ∧ hi ∈ l ∧ Forall (λ r, r <= hi)%Q l.
Proof.
  destruct l as [|x l]; [done|]. intros _.
  destruct (foldl_max l x) as (Hin & Hx & Hall).
  eexists. split; [reflexivity|]. split; [done|]. by constructor.
Qed.

(** Once the loop has returned, the tail of [get_statistics] fails exactly
    on an empty list of overlaps, in [mean]. *)
Lemma statistics_tail fil_dict ref_dict ovs :
  collect_overlaps fil_dict ref_dict = Ok ovs →
  match ovs with
  | [] => get_statistics fil_dict ref_dict = Raise StatisticsError
  | _ :: _ =>
      ∃ m lo hi,
        get_statistics fil_dict ref_dict
        = Ok (OverlapStats (size (comparable_queries fil_dict ref_dict))
                ovs m lo hi)
        ∧ mean ovs = Ok m ∧ min_of ovs = Ok lo ∧ max_of ovs = Ok hi
  end.
Proof.
  intros Hovs. unfold get_statistics. rewrite Hovs.
  destruct ovs as [|r ovs]; [done|]. by eexists _, _, _.
Qed.

Lemma elements_nil_empty (X : gset string) : elements X = [] ↔ X = ∅.
Proof.
  split; [|intros ->; apply elements_empty].
  intros He%elements_empty_iff. by apply leibniz_equiv.
Qed.

Lemma overlaps_loop_length fil_dict ref_dict (qids : list string) acc ovs :
  for_each (λ overlaps qid,
              overlap ← overlap_of fil_dict ref_dict qid;
              Ok (overlaps ++ [overlap])) acc qids
  = Ok ovs →
  length ovs = length acc + length qids.
Proof.
  revert acc. induction qids as [|qid qids IH]; intros acc; cbn [for_each].
  { intros [= <-]. simpl. lia. }
  destruct (overlap_of fil_dict ref_dict qid) as [r|e];
    cbn [mbind res_bind]; [|done].
  intros ->%IH. rewrite length_app. simpl. lia.
Qed.

Lemma get_statistics_inv fil_dict ref_dict st :
  get_statistics fil_dict ref_dict = Ok st →
  collect_overlaps fil_dict ref_dict = Ok (overlaps st)
  ∧ num_comparable st = size (comparable_queries fil_dict ref_dict)
  ∧ mean (overlaps st) = Ok (mean_overlap st)
  ∧ min_of (overlaps st) = Ok (min_overlap st)
  ∧ max_of (overlaps st) = Ok (max_overlap st).
Proof.
  unfold get_statistics.
  destruct (collect_overlaps fil_dict ref_dict) as [ovs|e]; [|done].
  destruct (mean ovs) as [m|e] eqn:Hm; [|done].
  destruct (min_of ovs) as [lo|e] eqn:Hlo; [|done].
  destruct (max_of ovs) as [hi|e] eqn:Hhi; [|done].
  by intros [= <-].
Qed.

End StatisticsFacts.

Import FilterFacts StatisticsFacts.

(** ** Overlap filter *)

(** C3.  On a ranking file whose lines have the five fields the loop reads,
    [filter_ranking] writes, group by group, the retained lines in their
    input order, numbered densely from 1 within the group, with the score
    field copied; a document is retained iff its linked entities and the
    query's scored entities share an element, and a query without an entry
    in the scored-entity mapping loses all its documents. *)
Theorem filter_ranking_keeps_overlapping ent_qrels ranking doc_ents :
  (∀ line, line ∈ ranking → 5 ≤ length (split_space line)) →
  filter_ranking ent_qrels ranking doc_ents
  = Ok (filter_ranking_spec ent_qrels ranking doc_ents, length ranking)
  ∧ (∀ qid line,
       retained ent_qrels doc_ents qid line
       ↔ ∃ e, e ∈ scored_ents_of ent_qrels qid
              ∧ e ∈ linked_ents_of doc_ents (field 2 line))
  ∧ (∀ qid ents, get ent_qrels qid = Some ents →
       scored_ents_of ent_qrels qid = list_to_set (keys ents))
  ∧ (∀ qid group, get ent_qrels qid = None →
       filter_group_spec ent_qrels doc_ents (qid, group) = [])
  ∧ (∀ qid kept i line, kept !! i = Some line →
       renumber qid 1 kept !! i
       = Some (out_line qid (field 1 line) (field 2 line) (S i)
                 (field 4 line))).
Proof.
  intros Hwf. split_and!.
  - unfold filter_ranking.
    destruct (filter_groups_spec ent_qrels doc_ents
                (groupby line_key ranking) (FilterState 0 1 [])) as [r ->].
    { intros k g line Hg Hl. apply Hwf. by eapply groupby_elem. }
    cbn [mbind res_bind doc_count written]. simpl.
    by rewrite groupby_concat.
  - intros qid line. unfold retained. split.
    + intros [e He]%set_choose_L. exists e. set_solver.
    + intros (e & H1 & H2) He. set_solver.
  - intros qid ents Hg. unfold scored_ents_of. by rewrite Hg.
  - intros qid group Hg. unfold filter_group_spec. simpl.
    rewrite filter_none; [done|].
    intros line _. unfold retained, scored_ents_of. rewrite Hg. set_solver.
  - intros qid kept i line Hl. by rewrite (renumber_lookup _ _ _ _ _ Hl).
Qed.

Lemma filter_ranking_keeps_overlapping_witness :
  filter_ranking ex_scored ex_initial ex_doc_ents
  = Ok ([ "q1 Q0 d1 1 3.5 Entity-Filtered" +:+ newline;
          "q1 Q0 d3 2 2.5 Entity-Filtered" +:+ newline ], 4).
Proof.
  assert (Hwf : ∀ line, line ∈ ex_initial → 5 ≤ length (split_space line)).
  { apply Forall_forall. unfold ex_initial. repeat constructor. }
  exact (proj1 (filter_ranking_keeps_overlapping
                  ex_scored ex_initial ex_doc_ents Hwf)).
Defined.

(** ** Overlap statistics *)

(** C6, as stated, fails: the comparable queries are not the queries with a
    non-empty reference set.  ["q1"] has a reference document but no
    filtered ranking, and is not comparable. *)
Lemma comparable_not_all_referenced :
  ¬ (∀ qid, qid ∈ comparable_queries ex_fil ex_ref
            ↔ ∃ docs, get ex_ref qid = Some docs ∧ docs ≠ []).
Proof.
  intros H. destruct (H "q1") as [_ Hq].
  assert (Hin : "q1" ∈ comparable_queries ex_fil ex_ref).
  { apply Hq. by eexists. }
  apply comparable_elem in Hin as [Hin _].
  unfold keys, ex_fil in Hin. simpl in Hin.
  by apply list_elem_of_singleton in Hin.
Qed.

(** C6 (amended).  The comparable queries are exactly the queries present
    in both the filtered and the reference ranking; for every comparable
    query with a non-empty reference set the overlap ratio is
    [|filtered ∩ reference| / |reference|] and lies in [[0,1]]; when no
    reference entry is empty, [get_statistics] divides by no zero: with at
    least one comparable query it returns, its overlaps being exactly these
    ratios, one per comparable query, and their mean, minimum and maximum
    lying in [[0,1]]; with no comparable query the loop appends nothing and
    the mean of the empty list raises [StatisticsError]. *)
Theorem overlap_ratio_of_comparable (fil_dict ref_dict : Dict (Dict Q)) :
  (∀ qid, qid ∈ comparable_queries fil_dict ref_dict
          ↔ qid ∈ keys fil_dict ∧ qid ∈ keys ref_dict)
  ∧ (∀ qid fil_docs ref_docs,
       get fil_dict qid = Some fil_docs →
       get ref_dict qid = Some ref_docs →
       ref_docs ≠ [] →
       let F : gset string := list_to_set (keys fil_docs) in
       let R : gset string := list_to_set (keys ref_docs) in
       overlap_of fil_dict ref_dict qid
       = Ok (inject_Z (Z.of_nat (size (F ∩ R)))
             / inject_Z (Z.of_nat (size R)))%Q
       ∧ (0 <= inject_Z (Z.of_nat (size (F ∩ R)))
               / inject_Z (Z.of_nat (size R)) <= 1)%Q)
  ∧ ((∀ q docs, (q, docs) ∈ ref_dict → docs ≠ []) →
     (comparable_queries fil_dict ref_dict = ∅ →
      get_statistics fil_dict ref_dict = Raise StatisticsError)
     ∧ (comparable_queries fil_dict ref_dict ≠ ∅ →
        ∃ st, get_statistics fil_dict ref_dict = Ok st
          ∧ num_comparable st = size (comparable_queries fil_dict ref_dict)
          ∧ Forall2
              (λ qid r, ∃ fil_docs ref_docs,
                 get fil_dict qid = Some fil_docs
                 ∧ get ref_dict qid = Some ref_docs
                 ∧ r = (inject_Z
                          (Z.of_nat
                             (size ((list_to_set (keys fil_docs) : gset string)
                                    ∩ list_to_set (keys ref_docs))))
                        / inject_Z
                            (Z.of_nat
                               (size (list_to_set (keys ref_docs)
                                      : gset string))))%Q)
              (elements (comparable_queries fil_dict ref_dict)) (overlaps st)
          ∧ Forall (λ r, 0 <= r <= 1)%Q
              (mean_overlap st :: min_overlap st :: max_overlap st
               :: overlaps st))).
Proof.
  split_and!.
  - apply comparable_elem.
  - intros qid fil_docs ref_docs. apply overlap_of_ok.
  - intros Href.
    destruct (collect_overlaps_ok fil_dict ref_dict Href)
      as (ovs & Hovs & Hex & Hall).
    pose proof (statistics_tail _ _ _ Hovs) as Htail.
    pose proof (Forall2_length _ _ _ Hex) as Hlen.
    split.
    + intros He. rewrite He, elements_empty in Hlen.
      destruct ovs; [done|discriminate Hlen].
    + intros Hne. destruct ovs as [|r ovs].
      { destruct Hne. apply elements_nil_empty.
        apply length_zero_iff_nil. exact Hlen. }
      destruct Htail as (m & lo & hi & -> & Hm & Hlo & Hhi).
      eexists. split; [reflexivity|]. cbn [num_comparable overlaps
        mean_overlap min_overlap max_overlap].
      split; [done|]. split; [done|].
      destruct (mean_bounds (r :: ovs) 0 1) as (m' & Hm' & Hmb);
        [done|done|].
      destruct (min_of_spec (r :: ovs)) as (lo' & Hlo' & Hlin & _); [done|].
      destruct (max_of_spec (r :: ovs)) as (hi' & Hhi' & Hhin & _); [done|].
      rewrite Hm in Hm'. rewrite Hlo in Hlo'. rewrite Hhi in Hhi'.
      injection Hm' as <-. injection Hlo' as <-. injection Hhi' as <-.
      rewrite Forall_forall in Hall.
      repeat (constructor; [by auto|]). by apply Forall_forall.
Qed.

Lemma overlap_ratio_of_comparable_witness :
  overlap_of ex_fil ex_ref "q2"
  = Ok (inject_Z (Z.of_nat (size ((list_to_set ["d1"] : gset string)
                                  ∩ list_to_set ["d1"; "d2"])))
        / inject_Z (Z.of_nat (size (list_to_set ["d1"; "d2"] : gset string))))%Q
  ∧ ∃ st, get_statistics ex_fil ex_ref = Ok st
      ∧ num_comparable st = size (comparable_queries ex_fil ex_ref)
      ∧ overlaps st = [1 # 2]%Q
      ∧ Forall (λ r, 0 <= r <= 1)%Q
          (mean_overlap st :: min_overlap st :: max_overlap st
           :: overlaps st).
Proof.
  destruct (overlap_ratio_of_comparable ex_fil ex_ref) as (_ & Hov & Hst).
  split.
  - apply (Hov "q2" [("d1", 3 # 1)]%Q [("d1", 3 # 1); ("d2", 2 # 1)]%Q);
      done.
  - destruct Hst as [_ Hst].
    { intros q docs Hin. unfold ex_ref in Hin.
      repeat (apply elem_of_cons in Hin as [[= -> ->]|Hin]; [done|]).
      by apply not_elem_of_nil in Hin. }
    destruct Hst as (st & Hst & Hn & Hex & Hall).
    { intros He. assert (Hq : "q2" ∈ comparable_queries ex_fil ex_ref).
      { apply comparable_elem. split; unfold keys; simpl; set_solver. }
      rewrite He in Hq. by apply not_elem_of_empty in Hq. }
    exists st. split_and!; try done.
    assert (Hst' : get_statistics ex_fil ex_ref
                   = Ok (OverlapStats 1 [1 # 2] (1 # 2) (1 # 2) (1 # 2))%Q)
      by (vm_compute; reflexivity).
    rewrite Hst in Hst'. by injection Hst' as ->.
Defined.

(** ** Entity classification *)

Module SharedEntitiesFacts.
Import PyDict PyDictFacts SharedEntities.

Lemma entity_union_cons links d docs :
  entity_union links (d :: docs)
  = default ∅ (links !! d) ∪ entity_union links docs.
Proof. done. Qed.

Lemma classify_doc_linked links st d rel ents :
  links !! d = Some ents →
  classify_doc links st (d, rel)
  = Ok (if decide (1 ≤ rel)%Z
        then EntityState (pos_entities st ∪ ents) (neg_entities st)
               (warnings st)
        else EntityState (pos_entities st) (neg_entities st ∪ ents)
               (warnings st)).
Proof.
  intros Hd. unfold classify_doc. cbn [fst snd]. rewrite Hd.
  destruct (decide (1 ≤ rel)%Z); [done|]. by rewrite decide_True by lia.
Qed.

Lemma classify_doc_unlinked links st d rel :
  links !! d = None → classify_doc links st (d, rel) = Raise TypeError.
Proof.
  intros Hd. unfold classify_doc. cbn [fst snd]. rewrite Hd.
  destruct (decide (1 ≤ rel)%Z); [done|]. by rewrite decide_True by lia.
Qed.

Lemma classify_docs_ok links doc_rels st :
  (∀ doc rel, (doc, rel) ∈ doc_rels → is_Some (links !! doc)) →
  for_each (classify_doc links) st doc_rels
  = Ok (EntityState
          (pos_entities st ∪ entity_union links (positive_docs doc_rels))
          (neg_entities st ∪ entity_union links (negative_docs doc_rels))
          (warnings st)).
Proof.
  revert st. induction doc_rels as [|[d rel] doc_rels IH]; intros st Hl.
  { destruct st. simpl. unfold entity_union. simpl.
    by rewrite !(right_id_L ∅ (∪)). }
  destruct (Hl d rel ltac:(left)) as [ents Hd].
  cbn [for_each]. rewrite (classify_doc_linked _ _ _ _ _ Hd).
  cbn [mbind res_bind]. rewrite IH by (intros; eapply Hl; by right).
  unfold positive_docs, negative_docs. rewrite !filter_cons. cbn [snd].
  destruct (decide (1 ≤ rel)%Z) as [Hp|Hp];
    cbn [pos_entities neg_entities warnings].
  - rewrite decide_False by lia. rewrite fmap_cons, entity_union_cons.
    cbn [fst]. rewrite Hd. simpl. by rewrite (assoc_L (∪)).
  - rewrite decide_True by lia. rewrite fmap_cons, entity_union_cons.
    cbn [fst]. rewrite Hd. simpl. by rewrite (assoc_L (∪)).
Qed.

Lemma classify_docs_raise links doc_rels st doc rel :
  (doc, rel) ∈ doc_rels → links !! doc = None →
  for_each (classify_doc links) st doc_rels = Raise TypeError.
Proof.
  revert st. induction doc_rels as [|[d r] doc_rels IH]; intros st Hin Hd.
  { by apply not_elem_of_nil in Hin. }
  cbn [for_each].
  destruct (links !! d) as [ents|] eqn:Hld.
  - rewrite (classify_doc_linked _ _ _ _ _ Hld). cbn [mbind res_bind].
    apply elem_of_cons in Hin as [[= <- <-]|Hin]; [congruence|].
    by apply IH.
  - by rewrite (classify_doc_unlinked _ _ _ _ Hld).
Qed.

Lemma classify_docs_exn links doc_rels st e :
  for_each (classify_doc links) st doc_rels = Raise e → e = TypeError.
Proof.
  revert st. induction doc_rels as [|[d r] doc_rels IH]; intros st.
  { done. }
  cbn [for_each].
  destruct (links !! d) as [ents|] eqn:Hld.
  - rewrite (classify_doc_linked _ _ _ _ _ Hld). cbn [mbind res_bind].
    apply IH.
  - rewrite (classify_doc_unlinked _ _ _ _ Hld). cbn [mbind res_bind].
    congruence.
Qed.

Lemma classify_docs_warnings links doc_rels st es :
  for_each (classify_doc links) st doc_rels = Ok es →
  warnings es = warnings st.
Proof.
  revert st. induction doc_rels as [|[d r] doc_rels IH]; intros st.
  { by intros [= <-]. }
  cbn [for_each].
  destruct (links !! d) as [ents|] eqn:Hld.
  - rewrite (classify_doc_linked _ _ _ _ _ Hld). cbn [mbind res_bind].
    intros ->%IH. by destruct (decide _).
  - by rewrite (classify_doc_unlinked _ _ _ _ Hld).
Qed.

Lemma classify_topic_ok links st t doc_rels :
  (∀ doc rel, (doc, rel) ∈ doc_rels → is_Some (links !! doc)) →
  classify_topic links st (t, doc_rels)
  = Ok (set st.1 t (classes_of links doc_rels), st.2).
Proof.
  intros Hl. unfold classify_topic. cbn [fst snd].
  rewrite classify_docs_ok by done.
  cbn [mbind res_bind pos_entities neg_entities warnings].
  unfold classes_of. by rewrite !(left_id_L ∅ (∪)).
Qed.

Lemma classify_topic_raise links st t doc_rels doc rel :
  (doc, rel) ∈ doc_rels → links !! doc = None →
  classify_topic links st (t, doc_rels) = Raise TypeError.
Proof.
  intros Hd Hl. unfold classify_topic. cbn [fst snd].
  by rewrite (classify_docs_raise _ _ _ _ _ Hd Hl).
Qed.

Lemma classify_topic_exn links st item e :
  classify_topic links st item = Raise e → e = TypeError.
Proof.
  unfold classify_topic.
  destruct (for_each (classify_doc links) _ item.2) as [es|e'] eqn:Hes;
    cbn [mbind res_bind]; [done|].
  intros [= <-]. by eapply classify_docs_exn.
Qed.

Lemma classify_topic_warnings links st item st' :
  classify_topic links st item = Ok st' → st'.2 = st.2.
Proof.
  unfold classify_topic.
  destruct (for_each (classify_doc links) _ item.2) as [es|e'] eqn:Hes;
    cbn [mbind res_bind]; [|done].
  intros [= <-]. by apply classify_docs_warnings in Hes.
Qed.

(** The loop over the topics on linked judgments. *)
Lemma classify_topics_ok links qrels st :
  (∀ topic doc_rels doc rel,
     (topic, doc_rels) ∈ qrels → (doc, rel) ∈ doc_rels →
     is_Some (links !! doc)) →
  for_each (classify_topic links) st qrels
  = Ok (foldl (λ r it, set r it.1 (classes_of links it.2)) st.1 qrels, st.2).
Proof.
  revert st. induction qrels as [|[t doc_rels] qrels IH]; intros st Hl.
  { by destruct st. }
  cbn [for_each].
  rewrite classify_topic_ok by (intros; eapply Hl; [left|done]).
  cbn [mbind res_bind].
  by rewrite IH by (intros; eapply Hl; [by right|done]).
Qed.

Lemma classify_topics_raise links qrels st topic doc_rels doc rel :
  (topic, doc_rels) ∈ qrels → (doc, rel) ∈ doc_rels → links !! doc = None →
  for_each (classify_topic links) st qrels = Raise TypeError.
Proof.
  revert st. induction qrels as [|[t drs] qrels IH]; intros st Hin Hd Hl.
  { by apply not_elem_of_nil in Hin. }
  cbn [for_each].
  apply elem_of_cons in Hin as [[= <- <-]|Hin].
  - by rewrite (classify_topic_raise _ _ _ _ _ _ Hd Hl).
  - destruct (classify_topic links st (t, drs)) as [st'|e] eqn:Hst;
      cbn [mbind res_bind].
    + by eapply IH.
    + by rewrite (classify_topic_exn _ _ _ _ Hst).
Qed.

Lemma classify_topics_warnings links qrels st st' :
  for_each (classify_topic links) st qrels = Ok st' → st'.2 = st.2.
Proof.
  revert st. induction qrels as [|item qrels IH]; intros st.
  { by intros [= <-]. }
  cbn [for_each].
  destruct (classify_topic links st item) as [st1|e] eqn:Hst;
    cbn [mbind res_bind]; [|done].
  intros ->%IH. by eapply classify_topic_warnings.
Qed.

Lemma classes_sources links qrels (r : Dict classes) topic c :
  get (foldl (λ r it, set r it.1 (classes_of links it.2)) r qrels) topic
  = Some c →
  get r topic = Some c
  ∨ ∃ doc_rels, (topic, doc_rels) ∈ qrels ∧ c = classes_of links doc_rels.
Proof.
  revert r. induction qrels as [|[t drs] qrels IH]; intros r; simpl.
  { by left. }
  intros [Hr | (drs' & Hin & ->)]%IH.
  - rewrite get_set in Hr. destruct (decide (t = topic)) as [->|]; [|by left].
    injection Hr as <-. right. exists drs. split; [left|done].
  - right. exists drs'. split; [by right|done].
Qed.

Lemma classes_present links qrels (r : Dict classes) topic :
  topic ∈ keys qrels ∨ is_Some (get r topic) →
  is_Some (get (foldl (λ r it, set r it.1 (classes_of links it.2)) r qrels)
             topic).
Proof.
  revert r. induction qrels as [|[t drs] qrels IH]; intros r; simpl.
  { intros [[]%not_elem_of_nil|?]; done. }
  intros Hor. apply IH. rewrite get_set.
  destruct (decide (t = topic)) as [->|Hne]; [right; eauto|].
  destruct Hor as [Hk|?]; [|by right].
  unfold keys in Hk. simpl in Hk.
  apply elem_of_cons in Hk as [?|?]; [congruence | by left].
Qed.

Lemma entity_union_elem links docs e :
  e ∈ entity_union links docs
  ↔ ∃ d ents, d ∈ docs ∧ links !! d = Some ents ∧ e ∈ ents.
Proof.
  unfold entity_union. rewrite elem_of_union_list. split.
  - intros (X & (d & -> & Hd)%list_elem_of_fmap & He).
    destruct (links !! d) as [ents|] eqn:Hl; simpl in He.
    + by exists d, ents.
    + by apply not_elem_of_empty in He.
  - intros (d & ents & Hd & Hl & He). exists ents. split; [|done].
    apply list_elem_of_fmap. exists d. by rewrite Hl.
Qed.

Lemma doc_classes_elem (doc_rels : Dict Z) d :
  (d ∈ positive_docs doc_rels ↔ ∃ rel, (d, rel) ∈ doc_rels ∧ (1 ≤ rel)%Z)
  ∧ (d ∈ negative_docs doc_rels ↔ ∃ rel, (d, rel) ∈ doc_rels ∧ (rel < 1)%Z).
Proof.
  unfold positive_docs, negative_docs. rewrite !list_elem_of_fmap.
  split; split.
  - intros ([d' rel] & -> & [Hg Hin]%list_elem_of_filter). by exists rel.
  - intros (rel & Hin & Hg). exists (d, rel). split; [done|].
    by apply list_elem_of_filter.
  - intros ([d' rel] & -> & [Hg Hin]%list_elem_of_filter). by exists rel.
  - intros (rel & Hin & Hg). exists (d, rel). split; [done|].
    by apply list_elem_of_filter.
Qed.

End SharedEntitiesFacts.

Import SharedEntities SharedEntitiesFacts.

(** ** Entity classifier *)

(** C4.  When every judged document is linked, [get_classified_entities]
    returns, for every query of the qrels, three pairwise disjoint sets:
    [shared] is the intersection of the entity union [P] of the documents
    classified positive and the entity union [N] of the documents
    classified negative (by the loop: [rel >= 1], resp. [rel < 1]),
    [positive] and [negative] are [P] and [N] without the shared entities,
    and the three sets together are [P ∪ N]. *)
Theorem shared_removal_partitions (qrels : Dict (Dict Z)) links :
  all_linked qrels links →
  ∃ result log,
    get_classified_entities qrels links = Ok (result, log)
    ∧ (∀ topic, topic ∈ keys qrels → is_Some (get result topic))
    ∧ (∀ topic c, get result topic = Some c →
         ∃ doc_rels, (topic, doc_rels) ∈ qrels ∧
           let P := entity_union links (positive_docs doc_rels) in
           let N := entity_union links (negative_docs doc_rels) in
           shared c = P ∩ N
           ∧ positive c = P ∖ shared c
           ∧ negative c = N ∖ shared c
           ∧ positive c ## negative c
           ∧ positive c ## shared c
           ∧ negative c ## shared c
           ∧ positive c ∪ negative c ∪ shared c = P ∪ N)
    ∧ (∀ docs e, e ∈ entity_union links docs
                 ↔ ∃ d ents, d ∈ docs ∧ links !! d = Some ents ∧ e ∈ ents).
Proof.
  intros Hl. unfold get_classified_entities.
  rewrite classify_topics_ok by exact Hl. cbn [fst snd].
  eexists _, _. split; [done|]. split_and!.
  - intros topic Hk. apply classes_present. by left.
  - intros topic c [Hc | (doc_rels & Hin & ->)]%classes_sources; [done|].
    exists doc_rels. split; [done|]. unfold classes_of. simpl.
    split_and!; try done; try set_solver.
    apply set_eq. intros x.
    destruct (decide (x ∈ entity_union links (positive_docs doc_rels))),
             (decide (x ∈ entity_union links (negative_docs doc_rels)));
      set_solver.
  - intros docs e. apply entity_union_elem.
Qed.

Lemma shared_removal_partitions_witness :
  ∃ result log,
    get_classified_entities ex_qrels_shared ex_links_shared
    = Ok (result, log)
    ∧ (∀ topic, topic ∈ keys ex_qrels_shared → is_Some (get result topic))
    ∧ (∀ topic c, get result topic = Some c →
         ∃ doc_rels, (topic, doc_rels) ∈ ex_qrels_shared ∧
           let P := entity_union ex_links_shared (positive_docs doc_rels) in
           let N := entity_union ex_links_shared (negative_docs doc_rels) in
           shared c = P ∩ N
           ∧ positive c = P ∖ shared c
           ∧ negative c = N ∖ shared c
           ∧ positive c ## negative c
           ∧ positive c ## shared c
           ∧ negative c ## shared c
           ∧ positive c ∪ negative c ∪ shared c = P ∪ N)
    ∧ (∀ docs e, e ∈ entity_union ex_links_shared docs
                 ↔ ∃ d ents, d ∈ docs ∧ ex_links_shared !! d = Some ents
                             ∧ e ∈ ents).
Proof.
  apply (shared_removal_partitions ex_qrels_shared ex_links_shared).
  intros topic doc_rels doc rel Ht Hd. unfold ex_qrels_shared in Ht.
  apply elem_of_cons in Ht as [[= -> ->]|[]%not_elem_of_nil].
  repeat (apply elem_of_cons in Hd as [[= -> ->]|Hd]; [by eexists|]).
  by apply not_elem_of_nil in Hd.
Defined.

(** C9.  [get_classified_entities] returns iff every judged document has an
    entry in the link map; a judged document without one makes it raise
    ([set.update(None)]) instead of skipping the document. *)
Theorem classification_requires_links (qrels : Dict (Dict Z)) links :
  (all_linked qrels links →
   ∃ result, get_classified_entities qrels links = Ok result)
  ∧ (∀ topic doc_rels doc rel,
       (topic, doc_rels) ∈ qrels → (doc, rel) ∈ doc_rels →
       links !! doc = None →
       get_classified_entities qrels links = Raise TypeError).
Proof.
  split.
  - intros Hl. unfold get_classified_entities.
    rewrite classify_topics_ok by exact Hl. by eexists.
  - intros topic doc_rels doc rel Ht Hd Hl.
    by eapply classify_topics_raise.
Qed.

Lemma classification_requires_links_witness :
  (∃ result, get_classified_entities ex_qrels_shared ex_links_shared
             = Ok result)
  ∧ get_classified_entities ex_qrels_shared ex_links = Raise TypeError.
Proof.
  split.
  - apply (proj1 (classification_requires_links
                    ex_qrels_shared ex_links_shared)).
    intros topic doc_rels doc rel Ht Hd. unfold ex_qrels_shared in Ht.
    apply elem_of_cons in Ht as [[= -> ->]|[]%not_elem_of_nil].
    repeat (apply elem_of_cons in Hd as [[= -> ->]|Hd]; [by eexists|]).
    by apply not_elem_of_nil in Hd.
  - apply (proj2 (classification_requires_links ex_qrels_shared ex_links)
             "q1" [("d1", 2%Z); ("d2", 0%Z)] "d2" 0%Z).
    + left.
    + right. left.
    + reflexivity.
Defined.

(** No input makes the classifier log a warning: the branch that warns
    about an invalid relevance value is unreachable, because [rel < 1]
    takes every grade that is not [>= 1]. *)
Lemma classifier_never_warns (qrels : Dict (Dict Z)) links result log :
  get_classified_entities qrels links = Ok (result, log) → log = [].
Proof. intros Hr. by apply classify_topics_warnings in Hr. Qed.

(** C5 does not hold of the code.  A judgment with grade [-1] is treated as
    negative: the entities of its document are added to the negative class
    and no warning is logged. *)
Theorem invalid_grade_counted_negative :
  get_classified_entities ex_qrels_invalid ex_links
  = Ok ([("q1", Classes ∅ ∅ {[ "e1" ]})], []).
Proof. reflexivity. Qed.

(** * Further properties of the code *)

(** ** Document balancer: what is kept *)

Module BalancingMore.
Import PyDict PyDictFacts DocBalancing DocBalancingFacts.

Lemma StronglySorted_filter {A} (R : relation A) (P : A → Prop)
    `{!∀ x, Decision (P x)} (l : list A) :
  StronglySorted R l → StronglySorted R (filter P l).
Proof.
  induction 1 as [|x l Hl IH Hx]; [constructor|].
  rewrite filter_cons. destruct (decide (P x)); [|done].
  constructor; [done|]. apply Forall_forall.
  intros y [_ Hy]%list_elem_of_filter. by eapply Forall_forall in Hx.
Qed.

Lemma result_sources_wf qrels ranking topic out :
  dict_wf ranking →
  get (get_balanced_ranking ranking qrels).1 topic = Some out →
  ∃ docs, get ranking topic = Some docs
    ∧ 0 < balance_k (topic_qrels_of qrels topic) docs
    ∧ out = balanced_docs (topic_qrels_of qrels topic) docs.
Proof.
  intros Hwf [Hget | (docs & Hin & Hk & ->)]%result_sources; [done|].
  exists docs. split; [by apply elem_get | done].
Qed.

Lemma result_lookup qrels ranking topic docs :
  dict_wf ranking → get ranking topic = Some docs →
  get (get_balanced_ranking ranking qrels).1 topic
  = if decide (0 < balance_k (topic_qrels_of qrels topic) docs)
    then Some (balanced_docs (topic_qrels_of qrels topic) docs) else None.
Proof.
  intros Hwf Hg.
  destruct (get (get_balanced_ranking ranking qrels).1 topic) as [out|] eqn:Ho.
  - apply result_sources_wf in Ho as (docs' & Hg' & Hk & ->); [|done].
    rewrite Hg in Hg'. injection Hg' as <-. by rewrite decide_True.
  - destruct (decide (0 < _)) as [Hk|]; [|done]. exfalso.
    rewrite get_balanced_ranking_omap in Ho by done.
    apply get_None_keys in Ho. apply Ho.
    apply (elem_keys _ _ (balanced_docs (topic_qrels_of qrels topic) docs)).
    apply list_elem_of_omap. exists (topic, docs).
    split; [by apply get_Some_elem|].
    unfold balance_item. simpl. by rewrite decide_True.
Qed.

Section Topic.
Context (topic_qrels : Dict Z) (docs : Dict Q).
Hypothesis docs_wf : dict_wf docs.

Lemma pos_docs_keys d : d ∈ pos_docs topic_qrels docs → d ∈ keys docs.
Proof. unfold pos_docs. rewrite list_elem_of_filter, sorted_ids_elem. tauto. Qed.

Lemma neg_docs_keys d : d ∈ neg_docs topic_qrels docs → d ∈ keys docs.
Proof. unfold neg_docs. rewrite list_elem_of_filter, sorted_ids_elem. tauto. Qed.

Lemma balanced_ids_elem d :
  d ∈ balanced_ids topic_qrels docs
  ↔ d ∈ take (balance_k topic_qrels docs) (pos_docs topic_qrels docs)
    ∨ d ∈ take (balance_k topic_qrels docs) (neg_docs topic_qrels docs).
Proof. unfold balanced_ids. by rewrite elem_of_list_to_set, elem_of_app. Qed.

Lemma take_elem {A} (l : list A) k x : x ∈ take k l → x ∈ l.
Proof. intros (i & Hi & _)%elem_of_take. by eapply list_elem_of_lookup_2. Qed.

Lemma balanced_keys_elem d :
  d ∈ keys (balanced_docs topic_qrels docs)
  ↔ d ∈ balanced_ids topic_qrels docs.
Proof.
  rewrite balanced_docs_keys, list_elem_of_filter. split; [tauto|].
  intros Hd. split; [done|].
  apply balanced_ids_elem in Hd as [Hd%take_elem|Hd%take_elem].
  - by apply pos_docs_keys.
  - by apply neg_docs_keys.
Qed.

Lemma balanced_keys_Permutation :
  keys (balanced_docs topic_qrels docs)
  ≡ₚ take (balance_k topic_qrels docs) (pos_docs topic_qrels docs)
     ++ take (balance_k topic_qrels docs) (neg_docs topic_qrels docs).
Proof.
  apply NoDup_Permutation.
  - by apply balanced_docs_wf.
  - apply NoDup_app. split_and!.
    + eapply sublist_NoDup; [by apply pos_docs_NoDup | apply sublist_take].
    + intros d Hp%take_elem Hn%take_elem. by eapply pos_neg_disjoint.
    + eapply sublist_NoDup; [by apply neg_docs_NoDup | apply sublist_take].
  - intros d. by rewrite balanced_keys_elem, balanced_ids_elem, elem_of_app.
Qed.

Lemma balanced_docs_length :
  length (balanced_docs topic_qrels docs) = 2 * balance_k topic_qrels docs.
Proof.
  transitivity (length (keys (balanced_docs topic_qrels docs))).
  { unfold keys. by rewrite length_fmap. }
  rewrite balanced_keys_Permutation, length_app, !length_take.
  unfold balance_k. lia.
Qed.

Lemma pos_docs_sorted :
  StronglySorted (ge_key (getitem docs)) (pos_docs topic_qrels docs).
Proof. apply StronglySorted_filter, sorted_rev_sorted. Qed.

Lemma neg_docs_sorted :
  StronglySorted (ge_key (getitem docs)) (neg_docs topic_qrels docs).
Proof. apply StronglySorted_filter, sorted_rev_sorted. Qed.

Lemma kept_before_dropped (l : list string) k d d' :
  StronglySorted (ge_key (getitem docs)) l →
  d ∈ take k l → d' ∈ l → d' ∉ take k l →
  (getitem docs d' <= getitem docs d)%Q.
Proof.
  intros Hs Hd Hd' Hn. rewrite <- (take_drop k l) in Hs, Hd'.
  apply elem_of_app in Hd' as [?|Hd']; [done|].
  apply Qle_bool_iff.
  by apply (StronglySorted_app_1_elem_of _ _ _ _ _ Hs Hd Hd').
Qed.
End Topic.

(** The log of a run: the two records of every skipped topic, in order. *)
Lemma log_concat qrels ranking st :
  (foldl (balance_step qrels) st ranking).2
  = st.2 ++ concat ((λ item,
        if decide (0 < balance_k (topic_qrels_of qrels item.1) item.2)
        then [] else skip_log item.1) <$> ranking).
Proof.
  revert st. induction ranking as [|item ranking IH]; intros st; simpl.
  { by rewrite app_nil_r. }
  rewrite IH. unfold balance_step.
  destruct (decide (0 < _)); simpl; [done|]. by rewrite <- app_assoc.
Qed.

End BalancingMore.

Import BalancingMore.

(** X1.  The balanced ranking is a sub-ranking of the input: its queries are
    a sub-sequence of the input queries, and the documents of a query are a
    sub-sequence of its input documents (same scores, same relative order)
    of length [2 * k], with [k >= 1]. *)
Theorem balanced_is_subranking (ranking : Dict (Dict Q)) qrels topic out :
  dict_wf ranking →
  (∀ t docs, (t, docs) ∈ ranking → dict_wf docs) →
  get (get_balanced_ranking ranking qrels).1 topic = Some out →
  keys (get_balanced_ranking ranking qrels).1 `sublist_of` keys ranking
  ∧ ∃ docs, get ranking topic = Some docs
      ∧ out `sublist_of` docs
      ∧ let tq := topic_qrels_of qrels topic in
        let k := length (pos_docs tq docs) `min` length (neg_docs tq docs) in
        0 < k ∧ length out = 2 * k.
Proof.
  intros Hwf Hdocs Hget. split.
  - rewrite get_balanced_ranking_omap by done. apply balance_item_keys.
  - apply result_sources_wf in Hget as (docs & Hg & Hk & ->); [|done].
    exists docs. split; [done|]. split; [apply sublist_filter|].
    simpl. split; [exact Hk|].
    apply balanced_docs_length. eapply Hdocs. by apply get_Some_elem.
Qed.

Lemma balanced_is_subranking_witness :
  keys (get_balanced_ranking ex_ranking ex_qrels).1 `sublist_of` keys ex_ranking
  ∧ ∃ docs, get ex_ranking "q1" = Some docs
      ∧ [("d1", 3 # 1); ("d2", 2 # 1)]%Q `sublist_of` docs
      ∧ let tq := topic_qrels_of ex_qrels "q1" in
        let k := length (pos_docs tq docs) `min` length (neg_docs tq docs) in
        0 < k ∧ length [("d1", 3 # 1); ("d2", 2 # 1)]%Q = 2 * k.
Proof.
  apply (balanced_is_subranking ex_ranking ex_qrels "q1").
  - unfold dict_wf. compute_done.
  - intros t docs [[= -> ->] | []%not_elem_of_nil]%elem_of_cons.
    unfold dict_wf. compute_done.
  - reflexivity.
Defined.

(** X2.  The down-sample is by score: within a class, every retained
    document scores at least as high as every dropped document of the same
    class. *)
Theorem balancer_keeps_top_scores (ranking : Dict (Dict Q)) qrels topic out :
  dict_wf ranking →
  (∀ t docs, (t, docs) ∈ ranking → dict_wf docs) →
  get (get_balanced_ranking ranking qrels).1 topic = Some out →
  ∃ docs, get ranking topic = Some docs ∧
    ∀ d d', d ∈ keys out → d' ∈ keys docs → d' ∉ keys out →
      let tq := topic_qrels_of qrels topic in
      ((1 ≤ grade tq d)%Z ∧ (1 ≤ grade tq d')%Z)
      ∨ (grade tq d = 0%Z ∧ grade tq d' = 0%Z) →
      (getitem docs d' <= getitem docs d)%Q.
Proof.
  intros Hwf Hdocs Hget.
  apply result_sources_wf in Hget as (docs & Hg & Hk & ->); [|done].
  exists docs. split; [done|].
  assert (Hdw : dict_wf docs) by (eapply Hdocs; by apply get_Some_elem).
  intros d d' Hd Hd' Hn tq Hcls.
  rewrite balanced_keys_elem in Hd, Hn. rewrite balanced_ids_elem in Hd, Hn.
  apply sorted_ids_elem in Hd'.
  destruct Hcls as [[Hp Hp']|[Hz Hz']].
  - destruct Hd as [Hd|Hd%take_elem].
    2:{ unfold neg_docs in Hd. apply list_elem_of_filter in Hd as [Hd _].
        fold tq in Hd. lia. }
    eapply kept_before_dropped; [apply pos_docs_sorted | exact Hd | |tauto].
    unfold pos_docs. by apply list_elem_of_filter.
  - destruct Hd as [Hd%take_elem|Hd].
    { unfold pos_docs in Hd. apply list_elem_of_filter in Hd as [Hd _].
      fold tq in Hd. lia. }
    eapply kept_before_dropped; [apply neg_docs_sorted | exact Hd | |tauto].
    unfold neg_docs. by apply list_elem_of_filter.
Qed.

Lemma balancer_keeps_top_scores_witness :
  ∃ docs, get ex_ranking "q1" = Some docs ∧
    ∀ d d', d ∈ keys [("d1", 3 # 1); ("d2", 2 # 1)]%Q → d' ∈ keys docs →
      d' ∉ keys [("d1", 3 # 1); ("d2", 2 # 1)]%Q →
      let tq := topic_qrels_of ex_qrels "q1" in
      ((1 ≤ grade tq d)%Z ∧ (1 ≤ grade tq d')%Z)
      ∨ (grade tq d = 0%Z ∧ grade tq d' = 0%Z) →
      (getitem docs d' <= getitem docs d)%Q.
Proof.
  apply (balancer_keeps_top_scores ex_ranking ex_qrels "q1").
  - unfold dict_wf. compute_done.
  - intros t docs [[= -> ->] | []%not_elem_of_nil]%elem_of_cons.
    unfold dict_wf. compute_done.
  - reflexivity.
Defined.

(** X3.  The smaller class is kept in full: when there are no more positive
    than negative documents every positive document is retained, and
    conversely. *)
Theorem minority_class_kept (ranking : Dict (Dict Q)) qrels topic out :
  dict_wf ranking →
  get (get_balanced_ranking ranking qrels).1 topic = Some out →
  ∃ docs, get ranking topic = Some docs ∧
    let tq := topic_qrels_of qrels topic in
    (length (pos_docs tq docs) ≤ length (neg_docs tq docs) →
     ∀ d, d ∈ pos_docs tq docs → d ∈ keys out)
    ∧ (length (neg_docs tq docs) ≤ length (pos_docs tq docs) →
       ∀ d, d ∈ neg_docs tq docs → d ∈ keys out).
Proof.
  intros Hwf Hget.
  apply result_sources_wf in Hget as (docs & Hg & Hk & ->); [|done].
  exists docs. split; [done|]. simpl.
  split; intros Hle d Hd; apply balanced_keys_elem, balanced_ids_elem.
  - left. rewrite take_ge; [done|]. unfold balance_k. lia.
  - right. rewrite take_ge; [done|]. unfold balance_k. lia.
Qed.

Lemma minority_class_kept_witness :
  ∃ docs, get ex_ranking_unjudged "q1" = Some docs ∧
    let tq := topic_qrels_of ex_qrels_unjudged "q1" in
    (length (pos_docs tq docs) ≤ length (neg_docs tq docs) →
     ∀ d, d ∈ pos_docs tq docs → d ∈ keys [("d1", 3 # 1); ("d3", 1 # 1)]%Q)
    ∧ (length (neg_docs tq docs) ≤ length (pos_docs tq docs) →
       ∀ d, d ∈ neg_docs tq docs → d ∈ keys [("d1", 3 # 1); ("d3", 1 # 1)]%Q).
Proof.
  apply (minority_class_kept ex_ranking_unjudged ex_qrels_unjudged "q1").
  - unfold dict_wf. compute_done.
  - reflexivity.
Defined.

(** X4.  A query none of whose documents has a judgment ≥ 1, in particular
    a query that is absent from the qrels, is dropped with the warning. *)
Theorem query_without_positive_dropped (ranking : Dict (Dict Q)) qrels topic docs :
  dict_wf ranking →
  get ranking topic = Some docs →
  get qrels topic = None
  ∨ (∀ d, d ∈ keys docs → (grade (topic_qrels_of qrels topic) d < 1)%Z) →
  get (get_balanced_ranking ranking qrels).1 topic = None
  ∧ LWarning (skip_warning topic) ∈ (get_balanced_ranking ranking qrels).2.
Proof.
  intros Hwf Hg Hno.
  assert (Hk : balance_k (topic_qrels_of qrels topic) docs = 0).
  { unfold balance_k. replace (pos_docs _ docs) with (@nil string); [done|].
    symmetry. apply filter_none. intros d Hd%sorted_ids_elem.
    destruct Hno as [Hq|Hno]; [|specialize (Hno d Hd); lia].
    unfold topic_qrels_of, get_default. rewrite Hq. simpl.
    unfold grade, get_default. simpl. lia. }
  split.
  - rewrite (result_lookup _ _ _ _ Hwf Hg), Hk. by rewrite decide_False by lia.
  - eapply log_skipped; [by apply get_Some_elem | done].
Qed.

Lemma query_without_positive_dropped_witness :
  get (get_balanced_ranking ex_ranking []).1 "q1" = None
  ∧ LWarning (skip_warning "q1") ∈ (get_balanced_ranking ex_ranking []).2.
Proof.
  apply (query_without_positive_dropped ex_ranking [] "q1"
           [("d1", 3 # 1); ("d2", 2 # 1); ("d3", 1 # 1)]%Q).
  - unfold dict_wf. compute_done.
  - reflexivity.
  - left. reflexivity.
Defined.

(** X5.  Balancing an already balanced ranking logs nothing: no query is
    skipped the second time. *)
Theorem rebalancing_skips_nothing (ranking : Dict (Dict Q)) qrels :
  dict_wf ranking →
  (∀ t docs, (t, docs) ∈ ranking → dict_wf docs) →
  (get_balanced_ranking (get_balanced_ranking ranking qrels).1 qrels).2 = [].
Proof.
  intros Hwf Hdocs. rewrite (get_balanced_ranking_omap ranking) by done.
  unfold get_balanced_ranking. rewrite log_concat. cbn [snd app].
  clear Hwf. induction ranking as [|[t docs] ranking IH]; [done|].
  change (omap (balance_item qrels) ((t, docs) :: ranking))
    with (match balance_item qrels (t, docs) with
          | Some y => y :: omap (balance_item qrels) ranking
          | None => omap (balance_item qrels) ranking
          end).
  destruct (balance_item qrels (t, docs)) as [item'|] eqn:Hit.
  - rewrite fmap_cons. cbn [concat].
    rewrite IH by (intros; eapply Hdocs; by right).
    pose proof (balance_item_fixed qrels (t, docs) item'
                  (Hdocs t docs ltac:(left)) Hit) as Hfix.
    unfold balance_item in Hfix.
    destruct (decide (0 < _)); [done | discriminate Hfix].
  - apply IH. intros; eapply Hdocs; by right.
Qed.

Lemma rebalancing_skips_nothing_witness :
  (get_balanced_ranking (get_balanced_ranking ex_ranking ex_qrels).1 ex_qrels).2
  = [].
Proof.
  apply (rebalancing_skips_nothing ex_ranking ex_qrels).
  - unfold dict_wf. compute_done.
  - intros t docs [[= -> ->] | []%not_elem_of_nil]%elem_of_cons.
    unfold dict_wf. compute_done.
Defined.

(** ** Counts before and after balancing *)

Module CountsFacts.
Import PyDict PyDictFacts DocBalancing DocBalancingFacts BalancedCounts.

Lemma counts_step_rows {V W} (balanced : Dict (Dict W))
    (ranking : Dict (Dict V)) rows :
  foldl (counts_step balanced) rows ranking
  = rows ++ omap (λ item, counts_step balanced [] item !! 0) ranking.
Proof.
  revert rows. induction ranking as [|item ranking IH]; intros rows.
  { by rewrite app_nil_r. }
  cbn [foldl]. rewrite IH.
  change (omap ?f (item :: ranking))
    with (match f item with
          | Some y => y :: omap f ranking
          | None => omap f ranking
          end).
  unfold counts_step at 1 3. destruct (get balanced item.1); simpl.
  - by rewrite <- app_assoc.
  - done.
Qed.

Lemma counts_rows_of_balanced qrels (ranking l : Dict (Dict Q)) :
  dict_wf ranking →
  (∀ item, item ∈ l → get ranking item.1 = Some item.2) →
  omap (λ item, counts_step (get_balanced_ranking ranking qrels).1 [] item !! 0) l
  = (λ item, CountRow item.1 (length item.2)
               (length (balanced_docs (topic_qrels_of qrels item.1) item.2))
               (Z.of_nat (length item.2)
                - Z.of_nat (length (balanced_docs (topic_qrels_of qrels item.1)
                                      item.2))))
    <$> filter (λ item, 0 < balance_k (topic_qrels_of qrels item.1) item.2) l.
Proof.
  intros Hwf. induction l as [|item l IH]; intros Hl; [done|].
  change (omap ?f (item :: l))
    with (match f item with
          | Some y => y :: omap f l
          | None => omap f l
          end).
  rewrite filter_cons, IH by (intros; apply Hl; by right).
  unfold counts_step.
  rewrite (result_lookup qrels ranking item.1 item.2 Hwf (Hl item ltac:(left))).
  destruct (decide (0 < _)); done.
Qed.

Lemma balanced_keys_filter qrels (ranking : Dict (Dict Q)) :
  keys (omap (balance_item qrels) ranking)
  = keys (filter (λ item, 0 < balance_k (topic_qrels_of qrels item.1) item.2)
            ranking).
Proof.
  unfold keys. induction ranking as [|item ranking IH]; [done|].
  change (omap ?f (item :: ranking))
    with (match f item with
          | Some y => y :: omap f ranking
          | None => omap f ranking
          end).
  rewrite filter_cons. unfold balance_item at 1. cbv zeta.
  destruct (decide (0 < _)); simpl; [f_equal|]; apply IH.
Qed.

End CountsFacts.

Import BalancedCounts CountsFacts.

(** X6.  [get_balanced_counts] on a ranking and its balanced version has one
    row per balanced query, in order; a row reports the number of documents
    before, [2 * k] documents after, and their difference as pruned, which
    is never negative. *)
Theorem balanced_counts_rows (ranking : Dict (Dict Q)) qrels :
  dict_wf ranking →
  (∀ t docs, (t, docs) ∈ ranking → dict_wf docs) →
  let rows :=
    get_balanced_counts ranking (get_balanced_ranking ranking qrels).1 in
  row_query <$> rows = keys (get_balanced_ranking ranking qrels).1
  ∧ ∀ row, row ∈ rows →
      ∃ docs, get ranking (row_query row) = Some docs
        ∧ num_before row = length docs
        ∧ num_after row
          = 2 * (length (pos_docs (topic_qrels_of qrels (row_query row)) docs)
                 `min`
                 length (neg_docs (topic_qrels_of qrels (row_query row)) docs))
        ∧ num_pruned row
          = (Z.of_nat (num_before row) - Z.of_nat (num_after row))%Z
        ∧ (0 ≤ num_pruned row)%Z.
Proof.
  intros Hwf Hdocs rows. subst rows. unfold get_balanced_counts.
  rewrite counts_step_rows, app_nil_l.
  rewrite (counts_rows_of_balanced qrels ranking ranking Hwf)
    by (intros [t d] Hin; by apply elem_get).
  split.
  - rewrite get_balanced_ranking_omap, balanced_keys_filter by done.
    unfold keys. rewrite <- list_fmap_compose. done.
  - intros row ([t docs] & -> & [Hk Hin]%list_elem_of_filter)%list_elem_of_fmap.
    simpl in *. exists docs. split; [by apply elem_get|].
    rewrite balanced_docs_length by (by eapply Hdocs).
    split_and!; try done.
    unfold balance_k in *.
    pose proof (sublist_length _ _
      (sublist_filter (λ it : string * Q,
         it.1 ∈ balanced_ids (topic_qrels_of qrels t) docs) docs)) as Hle.
    fold (balanced_docs (topic_qrels_of qrels t) docs) in Hle.
    rewrite balanced_docs_length in Hle by (by eapply Hdocs).
    unfold balance_k in Hle. lia.
Qed.

Lemma balanced_counts_rows_witness :
  row_query
    <$> get_balanced_counts ex_ranking
          (get_balanced_ranking ex_ranking ex_qrels).1
  = keys (get_balanced_ranking ex_ranking ex_qrels).1
  ∧ ∀ row,
      row ∈ get_balanced_counts ex_ranking
              (get_balanced_ranking ex_ranking ex_qrels).1 →
      ∃ docs, get ex_ranking (row_query row) = Some docs
        ∧ num_before row = length docs
        ∧ num_after row
          = 2 * (length (pos_docs (topic_qrels_of ex_qrels (row_query row)) docs)
                 `min`
                 length (neg_docs (topic_qrels_of ex_qrels (row_query row)) docs))
        ∧ num_pruned row
          = (Z.of_nat (num_before row) - Z.of_nat (num_after row))%Z
        ∧ (0 ≤ num_pruned row)%Z.
Proof.
  apply (balanced_counts_rows ex_ranking ex_qrels).
  - unfold dict_wf. compute_done.
  - intros t docs [[= -> ->] | []%not_elem_of_nil]%elem_of_cons.
    unfold dict_wf. compute_done.
Defined.

Example balanced_counts_scenario :
  get_balanced_counts ex_ranking (get_balanced_ranking ex_ranking ex_qrels).1
  = [CountRow "q1" 3 2 1].
Proof. reflexivity. Qed.

(** ** Entity-qrels balancing: which queries survive *)

Module EqrelsMore.
Import PyDict PyDictFacts DreqFiltering EqrelsFacts.

Local Abbreviation eqrels_item :=
  (λ item : string * Dict Z,
     if decide (0 < ents_k item.2)
     then Some (item.1, balanced_ents item.2) else None).

Lemma eqrels_omap (eqrels acc : Dict (Dict Z)) :
  dict_wf eqrels → (∀ q, q ∈ keys eqrels → q ∉ keys acc) →
  foldl eqrels_step acc eqrels = acc ++ omap eqrels_item eqrels.
Proof.
  unfold dict_wf. revert acc.
  induction eqrels as [|[q ents] eqrels IH]; intros acc Hwf Hacc.
  { by rewrite app_nil_r. }
  apply NoDup_cons in Hwf as [Hq Hwf].
  change (omap ?f ((q, ents) :: eqrels))
    with (match f (q, ents) with
          | Some y => y :: omap f eqrels
          | None => omap f eqrels
          end).
  cbn [foldl]. unfold eqrels_step at 2. cbn [fst snd].
  destruct (decide (0 < ents_k ents)).
  - rewrite set_fresh by (apply Hacc; left).
    rewrite IH; [by rewrite <- app_assoc | done |].
    intros q' Hq'. unfold keys. rewrite fmap_app, elem_of_app. simpl.
    intros [Hin | ->%list_elem_of_singleton]; [|done].
    eapply Hacc; [right|]; done.
  - apply IH; [done|]. intros; apply Hacc; by right.
Qed.

Lemma collect_filtered_eqrels_omap (eqrels : Dict (Dict Z)) :
  dict_wf eqrels →
  collect_filtered_eqrels eqrels = omap eqrels_item eqrels.
Proof.
  intros Hwf. unfold collect_filtered_eqrels.
  rewrite eqrels_omap; [done..|]. intros. apply not_elem_of_nil.
Qed.

Lemma eqrels_keys_sublist (eqrels : Dict (Dict Z)) :
  keys (omap eqrels_item eqrels) `sublist_of` keys eqrels.
Proof.
  unfold keys. induction eqrels as [|[q ents] eqrels IH]; [done|].
  change (omap ?f ((q, ents) :: eqrels))
    with (match f (q, ents) with
          | Some y => y :: omap f eqrels
          | None => omap f eqrels
          end).
  cbn [fst snd]. destruct (decide (0 < ents_k ents)); simpl; by constructor.
Qed.

Lemma eqrels_lookup (eqrels : Dict (Dict Z)) qid ents :
  dict_wf eqrels → get eqrels qid = Some ents →
  get (collect_filtered_eqrels eqrels) qid
  = if decide (0 < ents_k ents) then Some (balanced_ents ents) else None.
Proof.
  intros Hwf Hg.
  destruct (get (collect_filtered_eqrels eqrels) qid) as [bal|] eqn:Hb.
  - apply eqrels_sources in Hb as [Hb | (ents' & Hin & Hk & ->)]; [done|].
    apply (elem_get _ _ _ Hwf) in Hin. rewrite Hg in Hin.
    injection Hin as <-. by rewrite decide_True.
  - destruct (decide (0 < ents_k ents)) as [Hk|]; [|done]. exfalso.
    rewrite collect_filtered_eqrels_omap in Hb by done.
    apply get_None_keys in Hb. apply Hb.
    apply (elem_keys _ _ (balanced_ents ents)).
    apply list_elem_of_omap. exists (qid, ents).
    split; [by apply get_Some_elem|]. simpl. by rewrite decide_True.
Qed.

Lemma ents_k_pos (ents : Dict Z) :
  0 < ents_k ents
  ↔ (∃ e g, (e, g) ∈ ents ∧ (1 ≤ g)%Z) ∧ (∃ e, (e, 0%Z) ∈ ents).
Proof.
  unfold ents_k. split.
  - intros Hk.
    destruct (pos_ents ents) as [|p ps] eqn:Hp; [simpl in Hk; lia|].
    destruct (neg_ents ents) as [|n ns] eqn:Hn; [simpl in Hk; lia|].
    split.
    + assert (Hin : p ∈ pos_ents ents) by (rewrite Hp; left).
      apply pos_ents_elem in Hin as (g & ? & ?). eauto.
    + assert (Hin : n ∈ neg_ents ents) by (rewrite Hn; left).
      apply neg_ents_elem in Hin. eauto.
  - intros [(e & g & Hin & Hg) (e' & Hin')].
    assert (Hp : e ∈ pos_ents ents) by (apply pos_ents_elem; eauto).
    assert (Hn : e' ∈ neg_ents ents) by (by apply neg_ents_elem).
    destruct (pos_ents ents); [by apply not_elem_of_nil in Hp|].
    destruct (neg_ents ents); [by apply not_elem_of_nil in Hn|].
    simpl. lia.
Qed.

Section Query.
Context (ents : Dict Z).
Hypothesis ents_wf : dict_wf ents.

Lemma take_pos_neg_NoDup :
  NoDup (take (ents_k ents) (pos_ents ents)
         ++ take (ents_k ents) (neg_ents ents)).
Proof.
  apply NoDup_app. split_and!.
  - eapply sublist_NoDup; [by apply pos_ents_NoDup | apply sublist_take].
  - intros e H1%take_elem H2%take_elem.
    exact (pos_neg_ents_disjoint ents ents_wf e H1 H2).
  - eapply sublist_NoDup; [by apply neg_ents_NoDup | apply sublist_take].
Qed.

Lemma balanced_ents_wf : dict_wf (balanced_ents ents).
Proof.
  unfold dict_wf. rewrite balanced_ents_shape by done.
  rewrite fmap_app.
  fold (keys ((λ e, (e, 1%Z)) <$> take (ents_k ents) (pos_ents ents))).
  fold (keys ((λ e, (e, 0%Z)) <$> take (ents_k ents) (neg_ents ents))).
  rewrite !keys_tagged. apply take_pos_neg_NoDup.
Qed.

Lemma balanced_pos_ents :
  pos_ents (balanced_ents ents) = take (ents_k ents) (pos_ents ents).
Proof.
  unfold pos_ents at 1. rewrite balanced_ents_shape by done.
  rewrite filter_app, filter_all, filter_none.
  - rewrite app_nil_r.
    fold (keys ((λ e, (e, 1%Z)) <$> take (ents_k ents) (pos_ents ents))).
    by rewrite keys_tagged.
  - intros [e g] (e' & [= -> ->] & _)%list_elem_of_fmap. simpl. lia.
  - intros [e g] (e' & [= -> ->] & _)%list_elem_of_fmap. simpl. lia.
Qed.

Lemma balanced_neg_ents :
  neg_ents (balanced_ents ents) = take (ents_k ents) (neg_ents ents).
Proof.
  unfold neg_ents at 1. rewrite balanced_ents_shape by done.
  rewrite filter_app, filter_none, filter_all.
  - rewrite app_nil_l.
    fold (keys ((λ e, (e, 0%Z)) <$> take (ents_k ents) (neg_ents ents))).
    by rewrite keys_tagged.
  - by intros [e g] (e' & [= -> ->] & _)%list_elem_of_fmap.
  - by intros [e g] (e' & [= -> ->] & _)%list_elem_of_fmap.
Qed.

Lemma balanced_ents_k : ents_k (balanced_ents ents) = ents_k ents.
Proof.
  unfold ents_k at 1. rewrite balanced_pos_ents, balanced_neg_ents.
  rewrite !length_take. unfold ents_k. lia.
Qed.

Lemma balanced_ents_idemp :
  balanced_ents (balanced_ents ents) = balanced_ents ents.
Proof.
  rewrite (balanced_ents_shape (balanced_ents ents)) by apply balanced_ents_wf.
  rewrite balanced_ents_k, balanced_pos_ents, balanced_neg_ents, !take_idemp.
  by rewrite <- balanced_ents_shape.
Qed.
End Query.

End EqrelsMore.

Import EqrelsMore.

(** X7.  The entity-qrels balancing keeps exactly the queries that have at
    least one positive (grade ≥ 1) and one negative (grade 0) entity, in
    their input order; all other queries are lost. *)
Theorem eqrels_query_kept_iff (eqrels : Dict (Dict Z)) qid :
  dict_wf eqrels →
  keys (collect_filtered_eqrels eqrels) `sublist_of` keys eqrels
  ∧ (is_Some (get (collect_filtered_eqrels eqrels) qid)
     ↔ ∃ ents, get eqrels qid = Some ents
         ∧ (∃ e g, (e, g) ∈ ents ∧ (1 ≤ g)%Z)
         ∧ (∃ e, (e, 0%Z) ∈ ents)).
Proof.
  intros Hwf. split.
  - rewrite collect_filtered_eqrels_omap by done. apply eqrels_keys_sublist.
  - split.
    + intros [bal Hb].
      apply eqrels_sources in Hb as [Hb | (ents & Hin & Hk & ->)]; [done|].
      exists ents. split; [by apply elem_get|]. by apply ents_k_pos.
    + intros (ents & Hg & Hpn). apply ents_k_pos in Hpn.
      rewrite (eqrels_lookup _ _ _ Hwf Hg). by rewrite decide_True.
Qed.

Lemma eqrels_query_kept_iff_witness :
  keys (collect_filtered_eqrels ex_eqrels) `sublist_of` keys ex_eqrels
  ∧ (is_Some (get (collect_filtered_eqrels ex_eqrels) "q2")
     ↔ ∃ ents, get ex_eqrels "q2" = Some ents
         ∧ (∃ e g, (e, g) ∈ ents ∧ (1 ≤ g)%Z)
         ∧ (∃ e, (e, 0%Z) ∈ ents)).
Proof.
  apply (eqrels_query_kept_iff ex_eqrels "q2").
  unfold dict_wf. compute_done.
Defined.

(** X8.  The entity-qrels balancing is idempotent: an already balanced set
    of entity judgments is returned unchanged. *)
Theorem eqrels_balancing_idempotent (eqrels : Dict (Dict Z)) :
  dict_wf eqrels →
  (∀ q ents, (q, ents) ∈ eqrels → dict_wf ents) →
  collect_filtered_eqrels (collect_filtered_eqrels eqrels)
  = collect_filtered_eqrels eqrels.
Proof.
  intros Hwf Hents.
  rewrite (collect_filtered_eqrels_omap eqrels) by done.
  rewrite collect_filtered_eqrels_omap.
  2:{ eapply sublist_NoDup; [exact Hwf | apply eqrels_keys_sublist]. }
  clear Hwf. induction eqrels as [|[q ents] eqrels IH]; [done|].
  change (omap ?f ((q, ents) :: eqrels))
    with (match f (q, ents) with
          | Some y => y :: omap f eqrels
          | None => omap f eqrels
          end).
  cbn [fst snd]. destruct (decide (0 < ents_k ents)) as [Hk|Hk].
  - change (omap ?f ((q, balanced_ents ents) :: ?l))
      with (match f (q, balanced_ents ents) with
            | Some y => y :: omap f l
            | None => omap f l
            end).
    cbn [fst snd].
    rewrite balanced_ents_k, balanced_ents_idemp
      by (eapply Hents; left).
    rewrite decide_True by done. f_equal.
    apply IH. intros; eapply Hents; by right.
  - apply IH. intros; eapply Hents; by right.
Qed.

Lemma eqrels_balancing_idempotent_witness :
  collect_filtered_eqrels (collect_filtered_eqrels ex_eqrels)
  = collect_filtered_eqrels ex_eqrels.
Proof.
  apply (eqrels_balancing_idempotent ex_eqrels).
  - unfold dict_wf. compute_done.
  - intros q ents Hin. unfold ex_eqrels in Hin.
    repeat (apply elem_of_cons in Hin as [[= -> ->]|Hin];
            [unfold dict_wf; compute_done|]).
    by apply not_elem_of_nil in Hin.
Defined.

(** ** Overlap filter: what is written *)

Module FilterMore.
Import PyDict PyDictFacts DreqFiltering FilterFacts LineFields.

Lemma index_exn parts i e : index parts i = Raise e → e = IndexError.
Proof. unfold index. destruct (parts !! i); congruence. Qed.

Lemma filter_line_cases qid scored doc_ents st line :
  match filter_line qid scored doc_ents st line with
  | Ok st' =>
      3 ≤ length (split_space line)
      ∧ doc_count st' = S (doc_count st)
      ∧ length (written st') ≤ S (length (written st))
  | Raise e => e = IndexError
  end.
Proof.
  unfold filter_line. cbv zeta. unfold index.
  destruct (split_space line !! 2) as [doc|] eqn:H2; cbn [mbind res_bind];
    [|done].
  apply lookup_lt_Some in H2.
  destruct (decide (0 < size _)); cbn [doc_count written].
  - destruct (split_space line !! 1); cbn [mbind res_bind]; [|done].
    destruct (split_space line !! 4); cbn [mbind res_bind]; [|done].
    cbn [doc_count written]. rewrite length_app. simpl. lia.
  - lia.
Qed.

Lemma filter_lines_cases qid scored doc_ents group st :
  match for_each (filter_line qid scored doc_ents) st group with
  | Ok st' =>
      (∀ line, line ∈ group → 3 ≤ length (split_space line))
      ∧ doc_count st' = doc_count st + length group
      ∧ length (written st') ≤ length (written st) + length group
  | Raise e => e = IndexError
  end.
Proof.
  revert st. induction group as [|line group IH]; intros st.
  { simpl. split_and!; [by intros ? ?%not_elem_of_nil | lia..]. }
  cbn [for_each].
  pose proof (filter_line_cases qid scored doc_ents st line) as H1.
  destruct (filter_line qid scored doc_ents st line) as [st1|e];
    cbn [mbind res_bind]; [|done].
  specialize (IH st1).
  destruct (for_each _ st1 group) as [st'|e]; [|done].
  destruct H1 as (? & ? & ?), IH as (Hall & ? & ?).
  split_and!; [|simpl; lia..].
  intros l [->|?]%elem_of_cons; auto.
Qed.

Lemma filter_group_cases ent_qrels doc_ents grp st :
  match filter_group ent_qrels doc_ents st grp with
  | Ok st' =>
      (∀ line, line ∈ grp.2 → 3 ≤ length (split_space line))
      ∧ doc_count st' = doc_count st + length grp.2
      ∧ length (written st') ≤ length (written st) + length grp.2
  | Raise e => e = IndexError
  end.
Proof.
  unfold filter_group.
  apply (filter_lines_cases grp.1 (scored_ents_of ent_qrels grp.1) doc_ents
           grp.2 (FilterState (doc_count st) 1 (written st))).
Qed.

Lemma filter_groups_cases ent_qrels doc_ents groups st :
  match for_each (filter_group ent_qrels doc_ents) st groups with
  | Ok st' =>
      (∀ line, line ∈ concat groups.*2 → 3 ≤ length (split_space line))
      ∧ doc_count st' = doc_count st + length (concat groups.*2)
      ∧ length (written st')
        ≤ length (written st) + length (concat groups.*2)
  | Raise e => e = IndexError
  end.
Proof.
  revert st. induction groups as [|grp groups IH]; intros st.
  { simpl. split_and!; [by intros ? ?%not_elem_of_nil | lia..]. }
  cbn [for_each].
  pose proof (filter_group_cases ent_qrels doc_ents grp st) as H1.
  destruct (filter_group ent_qrels doc_ents st grp) as [st1|e];
    cbn [mbind res_bind]; [|done].
  specialize (IH st1).
  destruct (for_each _ st1 groups) as [st'|e]; [|done].
  destruct H1 as (Hg & ? & ?), IH as (Hall & ? & ?).
  rewrite fmap_cons. cbn [concat]. rewrite length_app.
  split_and!; [|lia..].
  intros l [?|?]%elem_of_app; auto.
Qed.

Lemma groupby_key {A} (key : A → string) (l : list A) k g x :
  (k, g) ∈ groupby key l → x ∈ g → key x = k.
Proof.
  revert k g. induction l as [|y l IH]; intros k g; simpl.
  { by intros ?%not_elem_of_nil. }
  destruct (groupby key l) as [|[k0 g0] rest] eqn:Hgr.
  - intros [= -> ->]%list_elem_of_singleton
           ->%list_elem_of_singleton. done.
  - destruct (decide (key y = k0)) as [Hy|Hy].
    + intros [[= -> ->]|Hin]%elem_of_cons Hx.
      * apply elem_of_cons in Hx as [->|Hx]; [done|].
        eapply IH; [left|done].
      * eapply IH; [by right|done].
    + intros [[= -> ->]|Hin]%elem_of_cons Hx.
      * by apply list_elem_of_singleton in Hx as ->.
      * by eapply IH.
Qed.

(** *** Pieces without a space *)

Lemma split_space_no_space s : Forall no_space (split_space s).
Proof.
  induction s as [|c s IH]; simpl.
  { by repeat constructor. }
  destruct (Ascii.eqb c space) eqn:Hc.
  - by constructor.
  - apply Ascii.eqb_neq in Hc.
    destruct (split_space s) as [|p ps]; [by repeat constructor|].
    apply Forall_cons in IH as [Hp Hps]. by repeat constructor.
Qed.

Lemma field_no_space i line : no_space (field i line).
Proof.
  unfold field. destruct (split_space line !! i) as [p|] eqn:Hp; [|done].
  eapply Forall_forall; [apply split_space_no_space|].
  by eapply list_elem_of_lookup_2.
Qed.

Lemma line_key_field line : line_key line = field 0 line.
Proof. unfold line_key, field. by destruct (split_space line). Qed.

Lemma split_space_cons a rest :
  no_space a →
  split_space (a +:+ String space rest) = a :: split_space rest.
Proof.
  induction a as [|c a IH]; intros Ha; simpl.
  { done. }
  destruct Ha as [Hc Ha]. apply Ascii.eqb_neq in Hc. rewrite Hc.
  by rewrite IH.
Qed.

Lemma pretty_N_char_no_space x : pretty_N_char x ≠ space.
Proof. unfold pretty_N_char. by repeat case_match. Qed.

Lemma pretty_N_go_no_space x s : no_space s → no_space (pretty_N_go x s).
Proof.
  revert s. induction (N.lt_wf_0 x) as [x _ IH]; intros s Hs.
  assert (x = 0 ∨ 0 < x)%N as [->|Hx] by lia.
  - by rewrite pretty_N_go_0.
  - rewrite pretty_N_go_step by done. apply IH.
    + by apply N.div_lt.
    + split; [apply pretty_N_char_no_space | done].
Qed.

Lemma pretty_nat_no_space (n : nat) : no_space (pretty n).
Proof.
  unfold pretty, pretty_nat, pretty, pretty_N.
  destruct (decide _); [by split|]. by apply pretty_N_go_no_space.
Qed.

Lemma split_space_sep a rest :
  no_space a → split_space (a +:+ " " +:+ rest) = a :: split_space rest.
Proof. apply split_space_cons. Qed.

Lemma split_out_line qid p1 doc_id rank p4 :
  no_space qid → no_space p1 → no_space doc_id → no_space p4 →
  split_space (out_line qid p1 doc_id rank p4)
  = [qid; p1; doc_id; pretty rank; p4; "Entity-Filtered" +:+ newline].
Proof.
  intros Hq H1 Hd H4. unfold out_line.
  change (" Entity-Filtered" +:+ newline)
    with (" " +:+ ("Entity-Filtered" +:+ newline)).
  by rewrite !split_space_sep by auto using pretty_nat_no_space.
Qed.

Lemma renumber_elem qid rank kept w :
  w ∈ renumber qid rank kept →
  ∃ line r, line ∈ kept ∧ rank ≤ r
    ∧ w = out_line qid (field 1 line) (field 2 line) r (field 4 line).
Proof.
  revert rank. induction kept as [|l kept IH]; intros rank; simpl.
  { by intros ?%not_elem_of_nil. }
  intros [->|Hw]%elem_of_cons.
  - exists l, rank. split_and!; [left | lia | done].
  - apply IH in Hw as (line & r & ? & ? & ?).
    exists line, r. split_and!; [by right | lia | done].
Qed.

Lemma concat_elem {A} (ls : list (list A)) x :
  x ∈ concat ls → ∃ g, g ∈ ls ∧ x ∈ g.
Proof.
  induction ls as [|g ls IH]; simpl.
  { by intros ?%not_elem_of_nil. }
  intros [?|(g' & ? & ?)%IH]%elem_of_app.
  - exists g. split; [left|done].
  - exists g'. split; [by right|done].
Qed.

Lemma written_line_source ent_qrels ranking doc_ents out n w :
  (∀ line, line ∈ ranking → 5 ≤ length (split_space line)) →
  filter_ranking ent_qrels ranking doc_ents = Ok (out, n) →
  w ∈ out →
  ∃ line r, line ∈ ranking
    ∧ retained ent_qrels doc_ents (line_key line) line
    ∧ 1 ≤ r
    ∧ split_space w
      = [line_key line; field 1 line; field 2 line; pretty r;
         field 4 line; "Entity-Filtered" +:+ newline].
Proof.
  intros Hwf. unfold filter_ranking.
  destruct (filter_groups_spec ent_qrels doc_ents
              (groupby line_key ranking) (FilterState 0 1 [])) as [r0 ->].
  { intros k g line Hg Hl. apply Hwf. by eapply groupby_elem. }
  cbn [mbind res_bind doc_count written]. intros [= <- <-] Hw.
  simpl in Hw.
  apply concat_elem in Hw as (ws & Hws & Hw).
  apply list_elem_of_fmap in Hws as ([k g] & -> & Hg).
  unfold filter_group_spec in Hw. cbn [fst snd] in Hw.
  apply renumber_elem in Hw as (line & r & Hl & Hr & ->).
  apply list_elem_of_filter in Hl as [Hret Hl].
  pose proof (groupby_key _ _ _ _ _ Hg Hl) as <-.
  exists line, r. split_and!; [by eapply groupby_elem | done | done |].
  apply split_out_line; try apply field_no_space.
  rewrite line_key_field. apply field_no_space.
Qed.

End FilterMore.

Import LineFields FilterMore.

(** ** Overlap filter: the lines of the files *)

Module WrittenLines.
Import PyDict PyDictFacts DreqFiltering FilterFacts LineFields FilterMore.

Lemma append_cons c (a b : string) : String c a +:+ b = String c (a +:+ b).
Proof. done. Qed.

Lemma append_assoc (a b c : string) : (a +:+ b) +:+ c = a +:+ b +:+ c.
Proof.
  induction a as [|x a IH]; [done|]. rewrite !append_cons. by f_equal.
Qed.

Lemma no_break_app a b : no_break a → no_break b → no_break (a +:+ b).
Proof.
  induction a as [|x a IH]; [done|]. rewrite append_cons.
  intros (? & ? & ?) ?. split_and!; auto.
Qed.

Lemma pretty_N_char_no_break x :
  pretty_N_char x ≠ LF ∧ pretty_N_char x ≠ CR.
Proof. unfold pretty_N_char. split; by repeat case_match. Qed.

Lemma pretty_N_go_no_break x s : no_break s → no_break (pretty_N_go x s).
Proof.
  revert s. induction (N.lt_wf_0 x) as [x _ IH]; intros s Hs.
  assert (x = 0 ∨ 0 < x)%N as [->|Hx] by lia.
  - by rewrite pretty_N_go_0.
  - rewrite pretty_N_go_step by done. apply IH.
    + by apply N.div_lt.
    + destruct (pretty_N_char_no_break (x `mod` 10)). by split_and!.
Qed.

Lemma pretty_nat_no_break (n : nat) : no_break (pretty n).
Proof.
  unfold pretty, pretty_nat, pretty, pretty_N.
  destruct (decide _); [by split_and!|]. by apply pretty_N_go_no_break.
Qed.

Lemma split_space_no_break s : no_break s → Forall no_break (split_space s).
Proof.
  induction s as [|c s IH]; simpl.
  { by repeat constructor. }
  intros (Hlf & Hcr & Hs). specialize (IH Hs).
  destruct (Ascii.eqb c space).
  - by constructor.
  - destruct (split_space s) as [|p ps]; [by repeat constructor|].
    apply Forall_cons in IH as [Hp Hps]. by repeat constructor.
Qed.

Lemma split_space_single t : no_space t → split_space t = [t].
Proof.
  induction t as [|c t IH]; [done|]. intros [Hc Ht]. simpl.
  apply Ascii.eqb_neq in Hc. rewrite Hc. by rewrite IH.
Qed.

(** Appending a terminator without a space changes the last field only. *)
Lemma split_space_tail body tail :
  no_space tail →
  ∃ init last, split_space body = init ++ [last]
    ∧ split_space (body +:+ tail) = init ++ [last +:+ tail].
Proof.
  intros Ht. induction body as [|c body (init & last & Hb & Hbt)].
  { exists [], "". split; [done|]. by apply split_space_single. }
  rewrite append_cons. cbn [split_space]. rewrite Hb, Hbt.
  destruct (Ascii.eqb c space).
  - by exists ("" :: init), last.
  - destruct init as [|p init].
    + by exists [], (String c last).
    + by exists (String c p :: init), last.
Qed.

(** Every field of a file line but the last is free of line breaks. *)
Lemma file_line_field line i :
  file_line line → S i < length (split_space line) → no_break (field i line).
Proof.
  intros (body & Hnb & [->| ->]) Hi; unfold field.
  - destruct (split_space body !! i) as [p|] eqn:Hp; [|done].
    eapply Forall_forall; [by apply split_space_no_break|].
    by eapply list_elem_of_lookup_2.
  - destruct (split_space_tail body newline) as (init & last & Hb & Hbt).
    { by split. }
    rewrite Hbt in *. rewrite length_app in Hi. simpl in Hi.
    rewrite lookup_app_l by lia.
    destruct (init !! i) as [p|] eqn:Hp; [|done]. simpl.
    pose proof (split_space_no_break body Hnb) as Hall.
    rewrite Hb in Hall. apply Forall_app in Hall as [Hall _].
    eapply Forall_forall; [exact Hall|]. by eapply list_elem_of_lookup_2.
Qed.

(** A write of [filter_ranking] is one terminated line when its fields
    hold no line break. *)
Lemma out_line_is_line qid p1 doc_id rank p4 :
  no_break qid → no_break p1 → no_break doc_id → no_break p4 →
  ∃ body, no_break body ∧ out_line qid p1 doc_id rank p4 = body +:+ newline.
Proof.
  intros Hq H1 Hd H4.
  exists (qid +:+ " " +:+ p1 +:+ " " +:+ doc_id +:+ " " +:+ pretty rank
          +:+ " " +:+ p4 +:+ " Entity-Filtered").
  split.
  - repeat (apply no_break_app; [done || apply pretty_nat_no_break
                                 || (by vm_compute; intuition discriminate)|]).
    vm_compute; intuition discriminate.
  - unfold out_line. by rewrite !append_assoc.
Qed.

Lemma readlines_line body rest :
  no_break body →
  readlines (body +:+ newline +:+ rest) = (body +:+ newline) :: readlines rest.
Proof.
  induction body as [|c body IH].
  { intros _. done. }
  intros (Hlf & Hcr & Hb). rewrite !append_cons. cbn [readlines].
  apply Ascii.eqb_neq in Hlf, Hcr. rewrite Hlf, Hcr. by rewrite IH.
Qed.

Lemma readlines_writes (writes : list string) :
  (∀ w, w ∈ writes → ∃ body, no_break body ∧ w = body +:+ newline) →
  readlines (file_text writes) = writes.
Proof.
  induction writes as [|w writes IH]; intros Hw; [done|].
  destruct (Hw w ltac:(left)) as (body & Hb & ->).
  cbn [file_text foldr]. rewrite append_assoc, readlines_line by done.
  f_equal. apply IH. intros; apply Hw; by right.
Qed.

(** What the iteration over a text file yields are file lines. *)
Lemma readlines_file_line text : Forall file_line (readlines text).
Proof.
  assert (Hnl : file_line newline) by (exists ""; split; [done | by right]).
  induction text as [|c text IH]; cbn [readlines]; [constructor|].
  destruct (Ascii.eqb c LF) eqn:Hlf; [by constructor|].
  destruct (Ascii.eqb c CR) eqn:Hcr.
  { destruct text as [|c' text']; [by repeat constructor|].
    destruct (Ascii.eqb c' LF); [done | by constructor]. }
  apply Ascii.eqb_neq in Hlf, Hcr.
  destruct (readlines text) as [|l ls].
  - repeat constructor. exists (String c ""). split; [by split_and! | by left].
  - apply Forall_cons in IH as [(body & Hb & Hl) Hls].
    constructor; [|done]. exists (String c body).
    split; [by split_and!|]. destruct Hl as [->| ->]; [by left | by right].
Qed.

Lemma written_line_origin ent_qrels ranking doc_ents out n w :
  (∀ line, line ∈ ranking → 5 ≤ length (split_space line)) →
  filter_ranking ent_qrels ranking doc_ents = Ok (out, n) →
  w ∈ out →
  ∃ line r, line ∈ ranking
    ∧ retained ent_qrels doc_ents (line_key line) line
    ∧ 1 ≤ r
    ∧ w = out_line (line_key line) (field 1 line) (field 2 line) r
            (field 4 line).
Proof.
  intros Hwf. unfold filter_ranking.
  destruct (filter_groups_spec ent_qrels doc_ents
              (groupby line_key ranking) (FilterState 0 1 [])) as [r0 ->].
  { intros k g line Hg Hl. apply Hwf. by eapply groupby_elem. }
  cbn [mbind res_bind doc_count written]. intros [= <- <-] Hw.
  simpl in Hw.
  apply concat_elem in Hw as (ws & Hws & Hw).
  apply list_elem_of_fmap in Hws as ([k g] & -> & Hg).
  unfold filter_group_spec in Hw. cbn [fst snd] in Hw.
  apply renumber_elem in Hw as (line & r & Hl & Hr & ->).
  apply list_elem_of_filter in Hl as [Hret Hl].
  pose proof (groupby_key _ _ _ _ _ Hg Hl) as <-.
  exists line, r. split_and!; [by eapply groupby_elem | done | done | done].
Qed.

(** On the lines of a text file with six fields each, every write of
    [filter_ranking] is exactly one line of the saved file. *)
Lemma writes_are_lines ent_qrels text doc_ents out n :
  (∀ line, line ∈ readlines text → 6 ≤ length (split_space line)) →
  filter_ranking ent_qrels (readlines text) doc_ents = Ok (out, n) →
  readlines (file_text out) = out.
Proof.
  intros Hwf Hr. apply readlines_writes. intros w Hw.
  destruct (written_line_origin _ _ _ _ _ _
              ltac:(intros l Hl; specialize (Hwf l Hl); lia) Hr Hw)
    as (line & r & Hl & _ & _ & ->).
  assert (Hfl : file_line line).
  { eapply Forall_forall; [apply readlines_file_line | exact Hl]. }
  specialize (Hwf line Hl).
  apply out_line_is_line; try (apply file_line_field; [done | lia]).
  rewrite line_key_field. apply file_line_field; [done | lia].
Qed.

End WrittenLines.

Import WrittenLines.

(** X9.  On the lines of a text file with six fields each, [filter_ranking]
    counts every line it reads, each of its writes is exactly one line of
    the saved file, and the saved file has at most as many lines as the
    file read. *)
Theorem filter_never_adds_lines ent_qrels text doc_ents out n :
  (∀ line, line ∈ readlines text → 6 ≤ length (split_space line)) →
  filter_ranking ent_qrels (readlines text) doc_ents = Ok (out, n) →
  n = length (readlines text)
  ∧ readlines (file_text out) = out
  ∧ length (readlines (file_text out)) ≤ length (readlines text).
Proof.
  intros Hwf Hr. rewrite (writes_are_lines _ _ _ _ _ Hwf Hr).
  revert Hr. unfold filter_ranking.
  pose proof (filter_groups_cases ent_qrels doc_ents
                (groupby line_key (readlines text)) (FilterState 0 1 []))
    as Hc.
  destruct (for_each _ _ (groupby line_key (readlines text))) as [st|e];
    cbn [mbind res_bind]; [|done].
  intros [= <- <-]. destruct Hc as (_ & Hn & Hw).
  rewrite groupby_concat in Hn, Hw. simpl in *. split_and!; [lia|done|lia].
Qed.

Lemma filter_never_adds_lines_witness :
  4 = length (readlines (file_text ex_initial))
  ∧ readlines (file_text
                 [ "q1 Q0 d1 1 3.5 Entity-Filtered" +:+ newline;
                   "q1 Q0 d3 2 2.5 Entity-Filtered" +:+ newline ])
    = [ "q1 Q0 d1 1 3.5 Entity-Filtered" +:+ newline;
        "q1 Q0 d3 2 2.5 Entity-Filtered" +:+ newline ]
  ∧ length (readlines (file_text
                         [ "q1 Q0 d1 1 3.5 Entity-Filtered" +:+ newline;
                           "q1 Q0 d3 2 2.5 Entity-Filtered" +:+ newline ]))
    ≤ length (readlines (file_text ex_initial)).
Proof.
  apply (filter_never_adds_lines ex_scored (file_text ex_initial) ex_doc_ents).
  - assert (Hread : readlines (file_text ex_initial) = ex_initial)
      by (vm_compute; reflexivity).
    rewrite Hread. intros line Hin. unfold ex_initial in Hin.
    repeat (apply elem_of_cons in Hin as [->|Hin]; [vm_compute; lia|]).
    by apply not_elem_of_nil in Hin.
  - vm_compute. reflexivity.
Defined.

(** X10.  [filter_ranking] raises nothing but [IndexError], and it does
    raise it when some line has fewer than three space-separated fields
    (there is no document id to read). *)
Theorem filter_short_line_raises ent_qrels ranking doc_ents :
  (∀ e, filter_ranking ent_qrels ranking doc_ents = Raise e → e = IndexError)
  ∧ (∀ line, line ∈ ranking → length (split_space line) < 3 →
       filter_ranking ent_qrels ranking doc_ents = Raise IndexError).
Proof.
  unfold filter_ranking.
  pose proof (filter_groups_cases ent_qrels doc_ents
                (groupby line_key ranking) (FilterState 0 1 [])) as Hc.
  destruct (for_each _ _ (groupby line_key ranking)) as [st|e];
    cbn [mbind res_bind].
  - split; [done|]. intros line Hin Hshort.
    destruct Hc as (Hall & _). rewrite groupby_concat in Hall.
    specialize (Hall line Hin). lia.
  - subst e. split; [by intros e [= <-] | done].
Qed.

Lemma filter_short_line_raises_witness :
  filter_ranking ex_scored ["q1 Q0 d1 1 3.5 bm25"; "q1 Q0"] ex_doc_ents
  = Raise IndexError.
Proof.
  apply (proj2 (filter_short_line_raises ex_scored
                  ["q1 Q0 d1 1 3.5 bm25"; "q1 Q0"] ex_doc_ents) "q1 Q0").
  - right. left.
  - vm_compute. lia.
Defined.

(** X11.  On the lines of a text file with six fields each, every line of
    the file saved by [filter_ranking] comes from a retained line of the
    input and splits at spaces into six fields: the query, the second field
    and the document id of that line, a rank ≥ 1, its score field, and the
    tag with the line terminator. *)
Theorem written_lines_read_back ent_qrels text doc_ents out n :
  (∀ line, line ∈ readlines text → 6 ≤ length (split_space line)) →
  filter_ranking ent_qrels (readlines text) doc_ents = Ok (out, n) →
  ∀ w, w ∈ readlines (file_text out) →
    ∃ line r, line ∈ readlines text
      ∧ retained ent_qrels doc_ents (line_key line) line
      ∧ 1 ≤ r
      ∧ split_space w
        = [line_key line; field 1 line; field 2 line; pretty r;
           field 4 line; "Entity-Filtered" +:+ newline].
Proof.
  intros Hwf Hr w. rewrite (writes_are_lines _ _ _ _ _ Hwf Hr). intros Hw.
  eapply written_line_source; [|exact Hr|exact Hw].
  intros line Hl. specialize (Hwf line Hl). lia.
Qed.

Lemma written_lines_read_back_witness :
  ∃ line r, line ∈ readlines (file_text ex_initial)
    ∧ retained ex_scored ex_doc_ents (line_key line) line
    ∧ 1 ≤ r
    ∧ split_space ("q1 Q0 d3 2 2.5 Entity-Filtered" +:+ newline)
      = [line_key line; field 1 line; field 2 line; pretty r;
         field 4 line; "Entity-Filtered" +:+ newline].
Proof.
  apply (written_lines_read_back ex_scored (file_text ex_initial) ex_doc_ents
           [ "q1 Q0 d1 1 3.5 Entity-Filtered" +:+ newline;
             "q1 Q0 d3 2 2.5 Entity-Filtered" +:+ newline ] 4).
  - assert (Hread : readlines (file_text ex_initial) = ex_initial)
      by (vm_compute; reflexivity).
    rewrite Hread. intros line Hin. unfold ex_initial in Hin.
    repeat (apply elem_of_cons in Hin as [->|Hin]; [vm_compute; lia|]).
    by apply not_elem_of_nil in Hin.
  - vm_compute. reflexivity.
  - assert (Hread : readlines (file_text
                       [ "q1 Q0 d1 1 3.5 Entity-Filtered" +:+ newline;
                         "q1 Q0 d3 2 2.5 Entity-Filtered" +:+ newline ])
                    = [ "q1 Q0 d1 1 3.5 Entity-Filtered" +:+ newline;
                        "q1 Q0 d3 2 2.5 Entity-Filtered" +:+ newline ])
      by (vm_compute; reflexivity).
    rewrite Hread. right. left.
Defined.

(** X12.  In the pipeline of [main], where the scored entities come from
    [collect_filtered_eqrels], every written line belongs to a query whose
    entity judgments could be balanced ([k >= 1]), and its document links
    one of the first [k] positive or first [k] negative entities of that
    query; a query without such judgments loses all its documents. *)
Theorem pipeline_keeps_balanced_entities
    (eqrels : Dict (Dict Z)) ranking doc_ents out n :
  dict_wf eqrels →
  (∀ q ents, (q, ents) ∈ eqrels → dict_wf ents) →
  (∀ line, line ∈ ranking → 5 ≤ length (split_space line)) →
  filter_ranking (collect_filtered_eqrels eqrels) ranking doc_ents
  = Ok (out, n) →
  ∀ w, w ∈ out →
    ∃ line ents e, line ∈ ranking
      ∧ line_key w = line_key line
      ∧ get eqrels (line_key line) = Some ents
      ∧ let k := length (pos_ents ents) `min` length (neg_ents ents) in
        0 < k
        ∧ e ∈ linked_ents_of doc_ents (field 2 line)
        ∧ (e ∈ take k (pos_ents ents) ∨ e ∈ take k (neg_ents ents)).
Proof.
  intros Hwf Hents Hlines Hr w Hw.
  destruct (written_line_source _ _ _ _ _ _ Hlines Hr Hw)
    as (line & r & Hl & Hret & _ & Hsplit).
  unfold retained in Hret. apply set_choose_L in Hret as [e He].
  apply elem_of_intersection in He as [Hs He].
  unfold scored_ents_of in Hs.
  destruct (get (collect_filtered_eqrels eqrels) (line_key line))
    as [bal|] eqn:Hb; [|by apply not_elem_of_empty in Hs].
  apply eqrels_sources in Hb as [Hb | (ents & Hin & Hk & ->)]; [done|].
  exists line, ents, e. split_and!; try done.
  - unfold line_key at 1. by rewrite Hsplit.
  - by apply elem_get.
  - apply elem_of_list_to_set in Hs.
    rewrite balanced_ents_shape in Hs by (by eapply Hents).
    unfold keys in Hs. rewrite fmap_app in Hs.
    fold (keys ((λ e, (e, 1%Z)) <$> take (ents_k ents) (pos_ents ents))) in Hs.
    fold (keys ((λ e, (e, 0%Z)) <$> take (ents_k ents) (neg_ents ents))) in Hs.
    rewrite !keys_tagged in Hs. by apply elem_of_app in Hs.
Qed.

Lemma pipeline_keeps_balanced_entities_witness :
  ∃ line ents e, line ∈ ex_initial
    ∧ line_key ("q1 Q0 d1 1 3.5 Entity-Filtered" +:+ newline) = line_key line
    ∧ get ex_eqrels_pipeline (line_key line) = Some ents
    ∧ let k := length (pos_ents ents) `min` length (neg_ents ents) in
      0 < k
      ∧ e ∈ linked_ents_of ex_doc_ents (field 2 line)
      ∧ (e ∈ take k (pos_ents ents) ∨ e ∈ take k (neg_ents ents)).
Proof.
  apply (pipeline_keeps_balanced_entities ex_eqrels_pipeline ex_initial
           ex_doc_ents
           [ "q1 Q0 d1 1 3.5 Entity-Filtered" +:+ newline;
             "q1 Q0 d3 2 2.5 Entity-Filtered" +:+ newline ] 4);
    [| | | |left].
  - unfold dict_wf. compute_done.
  - intros q ents Hin. unfold ex_eqrels_pipeline in Hin.
    repeat (apply elem_of_cons in Hin as [[= -> ->]|Hin];
            [unfold dict_wf; compute_done|]).
    by apply not_elem_of_nil in Hin.
  - intros line Hin. unfold ex_initial in Hin.
    repeat (apply elem_of_cons in Hin as [->|Hin]; [vm_compute; lia|]).
    by apply not_elem_of_nil in Hin.
  - vm_compute. reflexivity.
Defined.


(** ** Overlap statistics: extreme values and the logged range *)

Module StatisticsMore.
Import PyDict PyDictFacts DreqFiltering FilterFacts StatisticsFacts.

Lemma ratio_eq_1 (a b : nat) :
  0 < b →
  (inject_Z (Z.of_nat a) / inject_Z (Z.of_nat b) == 1)%Q ↔ a = b.
Proof.
  intros Hb. destruct b as [|b]; [lia|].
  unfold Qeq, Qdiv, Qmult, Qinv, inject_Z. simpl. lia.
Qed.

Lemma ratio_eq_0 (a b : nat) :
  0 < b →
  (inject_Z (Z.of_nat a) / inject_Z (Z.of_nat b) == 0)%Q ↔ a = 0.
Proof.
  intros Hb. destruct b as [|b]; [lia|].
  unfold Qeq, Qdiv, Qmult, Qinv, inject_Z. simpl. lia.
Qed.

End StatisticsMore.

Import StatisticsMore.

(** X13.  For a query with a non-empty reference set, the overlap ratio is
    1 exactly when every reference document is among the filtered documents,
    and 0 exactly when none is. *)
Theorem overlap_extremes (fil_dict ref_dict : Dict (Dict Q))
    qid fil_docs ref_docs r :
  get fil_dict qid = Some fil_docs →
  get ref_dict qid = Some ref_docs →
  ref_docs ≠ [] →
  overlap_of fil_dict ref_dict qid = Ok r →
  ((r == 1)%Q ↔ ∀ d, d ∈ keys ref_docs → d ∈ keys fil_docs)
  ∧ ((r == 0)%Q ↔ ∀ d, d ∈ keys ref_docs → d ∉ keys fil_docs).
Proof.
  intros Hf Hr Hne Hov.
  destruct (overlap_of_ok _ _ _ _ _ Hf Hr Hne) as [Hov' _].
  rewrite Hov in Hov'. injection Hov' as ->.
  set (F := list_to_set (keys fil_docs) : gset string).
  set (R := list_to_set (keys ref_docs) : gset string).
  assert (HR : 0 < size R).
  { apply overlap_nonempty_set. destruct ref_docs as [|[d v] ?]; [done|].
    exists d. subst R. unfold keys. simpl. set_solver. }
  rewrite ratio_eq_1, ratio_eq_0 by done. split.
  - split.
    + intros Hs d Hd.
      assert (HFR : F ∩ R = R).
      { apply set_subseteq_size_eq; [set_solver | lia]. }
      assert (d ∈ F ∩ R) by (rewrite HFR; by apply elem_of_list_to_set).
      apply (elem_of_list_to_set (C := gset string)). set_solver.
    + intros Hsub. f_equal. apply set_eq. intros d. subst F R.
      rewrite elem_of_intersection, !elem_of_list_to_set. naive_solver.
  - rewrite size_empty_iff. split.
    + intros He d Hd Hd'. apply (not_elem_of_empty (C := gset string) d).
      rewrite <- He. subst F R.
      rewrite elem_of_intersection, !elem_of_list_to_set. done.
    + intros Hdis. apply elem_of_equiv_empty. intros d. subst F R.
      rewrite elem_of_intersection, !elem_of_list_to_set. naive_solver.
Qed.

Lemma overlap_extremes_witness :
  (((1 # 2) == 1)%Q ↔ ∀ d, d ∈ keys [("d1", 3 # 1); ("d2", 2 # 1)]%Q →
                            d ∈ keys [("d1", 3 # 1)]%Q)
  ∧ (((1 # 2) == 0)%Q ↔ ∀ d, d ∈ keys [("d1", 3 # 1); ("d2", 2 # 1)]%Q →
                              d ∉ keys [("d1", 3 # 1)]%Q).
Proof.
  apply (overlap_extremes ex_fil ex_ref "q2"); try reflexivity. done.
Defined.

(** X14.  Whenever [get_statistics] returns, there is one overlap per
    comparable query and at least one; the minimum and the maximum it logs
    are overlaps of comparable queries, every overlap lies between them, and
    so does the mean it logs. *)
Theorem overlap_range_brackets_mean (fil_dict ref_dict : Dict (Dict Q)) st :
  get_statistics fil_dict ref_dict = Ok st →
  0 < num_comparable st
  ∧ length (overlaps st) = num_comparable st
  ∧ min_overlap st ∈ overlaps st
  ∧ max_overlap st ∈ overlaps st
  ∧ Forall (λ r, min_overlap st <= r <= max_overlap st)%Q (overlaps st)
  ∧ (min_overlap st <= mean_overlap st <= max_overlap st)%Q.
Proof.
  intros (Hovs & Hn & Hm & Hlo & Hhi)%get_statistics_inv.
  apply overlaps_loop_length in Hovs. simpl in Hovs.
  assert (Hne : overlaps st ≠ []).
  { intros He. rewrite He in Hm. discriminate Hm. }
  destruct (min_of_spec _ Hne) as (lo & Hlo' & Hlin & Hlall).
  destruct (max_of_spec _ Hne) as (hi & Hhi' & Hhin & Hhall).
  rewrite Hlo in Hlo'. rewrite Hhi in Hhi'.
  injection Hlo' as <-. injection Hhi' as <-.
  assert (Hall : Forall (λ r, min_overlap st <= r <= max_overlap st)%Q
                   (overlaps st)).
  { rewrite Forall_forall in Hlall, Hhall. apply Forall_forall.
    intros r Hr. split; auto. }
  destruct (mean_bounds _ _ _ Hne Hall) as (m & Hm' & Hmb).
  rewrite Hm in Hm'. injection Hm' as <-.
  assert (Hlen : length (overlaps st) = num_comparable st).
  { rewrite Hn. exact Hovs. }
  destruct Hmb. split_and!; [|done..].
  rewrite <- Hlen. destruct (overlaps st); [done|]. simpl. lia.
Qed.

Lemma overlap_range_brackets_mean_witness :
  ∃ st, get_statistics ex_fil ex_ref = Ok st
    ∧ 0 < num_comparable st
    ∧ length (overlaps st) = num_comparable st
    ∧ min_overlap st ∈ overlaps st
    ∧ max_overlap st ∈ overlaps st
    ∧ Forall (λ r, min_overlap st <= r <= max_overlap st)%Q (overlaps st)
    ∧ (min_overlap st <= mean_overlap st <= max_overlap st)%Q.
Proof.
  exists (OverlapStats 1 [1 # 2] (1 # 2) (1 # 2) (1 # 2))%Q.
  split; [vm_compute; reflexivity|].
  apply (overlap_range_brackets_mean ex_fil ex_ref).
  vm_compute. reflexivity.
Defined.

(** ** Illegal entities *)

Module IllegalFacts.
Import PyDict PyDictFacts IllegalEntities.

Lemma valid_entities_acc links docs (acc : gset string) e :
  e ∈ foldl (λ acc doc_id, acc ∪ ents_in_doc links doc_id) acc docs
  ↔ e ∈ acc ∨ ∃ d, d ∈ docs ∧ e ∈ ents_in_doc links d.
Proof.
  revert acc. induction docs as [|d docs IH]; intros acc; simpl.
  - split; [by left|]. intros [?|(d & []%not_elem_of_nil & _)]. done.
  - rewrite IH, elem_of_union. split.
    + intros [[?|?]|(d' & ? & ?)]; [by left| |].
      * right. exists d. split; [left|done].
      * right. exists d'. split; [by right|done].
    + intros [?|(d' & [->|?]%elem_of_cons & ?)].
      * by left; left.
      * by left; right.
      * right. by exists d'.
Qed.

Lemma valid_entities_elem links docs e :
  e ∈ valid_entities links docs
  ↔ ∃ d ents, d ∈ docs ∧ links !! d = Some ents ∧ e ∈ ents.
Proof.
  unfold valid_entities. rewrite valid_entities_acc. split.
  - intros [[]%not_elem_of_empty | (d & Hd & He)].
    unfold ents_in_doc in He. destruct (links !! d) as [ents|] eqn:Hl.
    + by exists d, ents.
    + by apply not_elem_of_empty in He.
  - intros (d & ents & Hd & Hl & He). right. exists d. split; [done|].
    unfold ents_in_doc. by rewrite Hl.
Qed.

Lemma size_split (S V : gset string) :
  size (S ∖ V) + size (S ∩ V) = size S.
Proof.
  rewrite <- size_union by set_solver. f_equal.
  apply set_eq. intros x. destruct (decide (x ∈ V)); set_solver.
Qed.

Lemma entity_rows_acc {V W} links (doc_rank : Dict (Dict V))
    (ent_rank : Dict (Dict W)) (topics : list string) st :
  (foldl (λ st topic,
            let res := validate_topic_entities links doc_rank ent_rank topic in
            (match res.1 with
             | Some row => st.1 ++ [row]
             | None => st.1
             end, st.2 ++ res.2)) st topics).1
  = st.1 ++ omap (λ topic,
                    (validate_topic_entities links doc_rank ent_rank topic).1)
              topics.
Proof.
  revert st. induction topics as [|t topics IH]; intros st.
  { by rewrite app_nil_r. }
  cbn [foldl]. rewrite IH. cbn [fst].
  change (omap ?f (t :: topics))
    with (match f t with
          | Some y => y :: omap f topics
          | None => omap f topics
          end).
  destruct (validate_topic_entities links doc_rank ent_rank t).1; [|done].
  by rewrite <- app_assoc.
Qed.

End IllegalFacts.

Import IllegalEntities IllegalFacts.

(** X16.  [validate_topic_entities] returns the empty result, with the
    warning naming the topic, exactly when the topic is missing from the
    initial or from the entity ranking; [main] therefore lists exactly the
    topics of the initial ranking that the entity ranking also has, in
    order. *)
Theorem missing_topic_is_skipped {V W : Type} links
    (i_dict : Dict (Dict V)) (e_dict : Dict (Dict W)) topic :
  ((validate_topic_entities links i_dict e_dict topic).1 = None
   ↔ topic ∉ keys i_dict ∨ topic ∉ keys e_dict)
  ∧ ((validate_topic_entities links i_dict e_dict topic).1 = None →
     (validate_topic_entities links i_dict e_dict topic).2
     = [LWarning ("Topic #" +:+ topic
          +:+ " missing from either the initial or entity ranking, skipping.")])
  ∧ (is_Some (validate_topic_entities links i_dict e_dict topic).1 →
     (validate_topic_entities links i_dict e_dict topic).2 = [])
  ∧ stat_topic <$> (entity_rows links i_dict e_dict).1
    = filter (λ t, t ∈ keys e_dict) (keys i_dict).
Proof.
  unfold validate_topic_entities. split_and!.
  - rewrite <- !get_None_keys.
    destruct (get i_dict topic), (get e_dict topic); simpl; naive_solver.
  - destruct (get i_dict topic), (get e_dict topic); simpl; done.
  - destruct (get i_dict topic), (get e_dict topic); simpl;
      by intros [? ?].
  - unfold entity_rows. rewrite entity_rows_acc. cbn [fst app].
    assert (Hall : ∀ t, t ∈ keys i_dict → is_Some (get i_dict t)).
    { intros t [v Hv]%keys_get. by eexists. }
    induction (keys i_dict) as [|t ts IH]; [done|].
    change (omap ?f (t :: ts))
      with (match f t with
            | Some y => y :: omap f ts
            | None => omap f ts
            end).
    rewrite filter_cons. unfold validate_topic_entities at 1.
    destruct (Hall t ltac:(left)) as [docs ->].
    destruct (get e_dict t) as [ents|] eqn:He; simpl.
    + rewrite decide_True.
      2:{ eapply elem_keys. by apply get_Some_elem. }
      f_equal. apply IH. intros; apply Hall; by right.
    + rewrite decide_False by (by apply get_None_keys).
      apply IH. intros; apply Hall; by right.
Qed.

Lemma missing_topic_is_skipped_witness :
  (validate_topic_entities ex_links_shared ex_ranking ex_fil "q1").1 = None
  ∧ (validate_topic_entities ex_links_shared ex_ranking ex_fil "q1").2
    = [LWarning ("Topic #" +:+ "q1"
         +:+ " missing from either the initial or entity ranking, skipping.")].
Proof.
  destruct (missing_topic_is_skipped ex_links_shared ex_ranking ex_fil "q1")
    as (Hiff & Hlog & _).
  assert (Hn : (validate_topic_entities ex_links_shared ex_ranking ex_fil
                  "q1").1 = None).
  { apply Hiff. right. unfold keys, ex_fil. simpl.
    by intros ?%list_elem_of_singleton. }
  split; [exact Hn | exact (Hlog Hn)].
Defined.

(** X17.  In a non-empty result the scored entities split into illegal and
    legal ones ([Illegal + Legal = Scored]), the legal ones are among the
    retrieved ones, and there is no illegal entity exactly when every scored
    entity is linked from a document of the topic's initial ranking. *)
Theorem illegal_legal_split {V W : Type} links
    (i_dict : Dict (Dict V)) (e_dict : Dict (Dict W)) topic row :
  (validate_topic_entities links i_dict e_dict topic).1 = Some row →
  ∃ docs ents,
    get i_dict topic = Some docs ∧ get e_dict topic = Some ents
    ∧ stat_topic row = topic
    ∧ num_illegal row + num_legal row = num_scored row
    ∧ num_legal row ≤ num_retrieved row
    ∧ (num_illegal row = 0
       ↔ ∀ e, e ∈ keys ents →
              ∃ d linked, d ∈ keys docs ∧ links !! d = Some linked
                          ∧ e ∈ linked).
Proof.
  unfold validate_topic_entities.
  destruct (get i_dict topic) as [docs|] eqn:Hi; [|done].
  destruct (get e_dict topic) as [ents|] eqn:He; [|done].
  intros [= <-]. exists docs, ents. cbn [stat_topic num_illegal num_legal
    num_scored num_retrieved]. split_and!; try done.
  - apply size_split.
  - apply subseteq_size. set_solver.
  - rewrite size_empty_iff. split.
    + intros Hemp e Hin. apply valid_entities_elem.
      destruct (decide (e ∈ valid_entities links (keys docs))); [done|].
      exfalso. apply (not_elem_of_empty (C := gset string) e).
      rewrite <- Hemp. apply elem_of_difference.
      split; [by apply elem_of_list_to_set | done].
    + intros Hall. apply elem_of_equiv_empty. intros e.
      rewrite elem_of_difference, elem_of_list_to_set.
      intros [Hin Hn]. apply Hn, valid_entities_elem. by apply Hall.
Qed.

Lemma illegal_legal_split_witness :
  ∃ docs ents,
    get ex_ranking "q1" = Some docs ∧ get ex_ent_ranking "q1" = Some ents
    ∧ stat_topic (TopicStats "q1" 3 2 1 1) = "q1"
    ∧ num_illegal (TopicStats "q1" 3 2 1 1) + num_legal (TopicStats "q1" 3 2 1 1)
      = num_scored (TopicStats "q1" 3 2 1 1)
    ∧ num_legal (TopicStats "q1" 3 2 1 1) ≤ num_retrieved (TopicStats "q1" 3 2 1 1)
    ∧ (num_illegal (TopicStats "q1" 3 2 1 1) = 0
       ↔ ∀ e, e ∈ keys ents →
              ∃ d linked, d ∈ keys docs ∧ ex_links_shared !! d = Some linked
                          ∧ e ∈ linked).
Proof.
  apply (illegal_legal_split ex_links_shared ex_ranking ex_ent_ranking "q1").
  reflexivity.
Defined.

(** ** Ranking decomposition *)

Module DecompositionFacts.
Import PyDict PyDictFacts DocBalancing DocBalancingFacts Decomposition.

Lemma classify_ids_lengths (qrel_dict : Dict Z) (ids : list string) st :
  let st' := foldl (classify_doc_id qrel_dict) st ids in
  length (positive_ids st')
  = length (positive_ids st)
    + length (filter (λ d, (1 ≤ grade qrel_dict d)%Z) ids)
  ∧ length (positive_ids st') + length (negative_ids st')
    + length (unknown_ids st')
    = length (positive_ids st) + length (negative_ids st)
      + length (unknown_ids st) + length ids
  ∧ length (unknown_ids st')
    = length (unknown_ids st)
      + length (filter (λ d, get qrel_dict d = None) ids)
  ∧ length (filter (λ d, grade qrel_dict d = 0%Z) ids)
      + length (negative_ids st) + length (unknown_ids st)
    ≤ length (negative_ids st') + length (unknown_ids st')
  ∧ ((∀ d g, get qrel_dict d = Some g → (0 ≤ g)%Z) →
     length (negative_ids st') + length (unknown_ids st')
     = length (filter (λ d, grade qrel_dict d = 0%Z) ids)
       + length (negative_ids st) + length (unknown_ids st)).
Proof.
  revert st. induction ids as [|d ids IH]; intros st.
  { simpl. split_and!; intros; lia. }
  cbn [foldl]. cbv zeta in IH |- *.
  specialize (IH (classify_doc_id qrel_dict st d)).
  set (st' := foldl _ _ ids) in *. clearbody st'.
  rewrite !filter_cons.
  assert (Hgr : grade qrel_dict d = default 0%Z (get qrel_dict d)) by done.
  rewrite Hgr. clear Hgr.
  unfold classify_doc_id in IH.
  destruct (get qrel_dict d) as [g|] eqn:Hg; cbn [default] in *.
  - destruct (decide (1 ≤ g)%Z) as [H1|H1];
      cbn [positive_ids negative_ids unknown_ids] in IH;
      rewrite ?length_app in IH; cbn [length] in IH;
      destruct IH as (IH1 & IH2 & IH3 & IH4 & IH5);
      repeat case_decide; simplify_eq; unfold id in *; cbn [length];
      split_and!; try lia;
      intros Hnn; specialize (IH5 Hnn);
      try (specialize (Hnn d g Hg)); lia.
  - cbn [positive_ids negative_ids unknown_ids] in IH.
    rewrite ?length_app in IH. cbn [length] in IH.
    destruct IH as (IH1 & IH2 & IH3 & IH4 & IH5).
    repeat case_decide; simplify_eq; unfold id in *; cbn [length];
      split_and!; try lia;
      intros Hnn; specialize (IH5 Hnn); lia.
Qed.

Lemma decompose_steps {V} (doc_ranking : Dict (Dict V)) qrels topics st :
  let st' := foldl (decompose_step doc_ranking qrels) st topics in
  let judged := filter (λ t, is_Some (get qrels t)) topics in
  let cls t := decompose_topic (get_default qrels t [])
                 (get_default doc_ranking t []) in
  positive_counts st'.1
  = positive_counts st.1 ++ ((λ t, length (positive_ids (cls t))) <$> judged)
  ∧ negative_counts st'.1
    = negative_counts st.1 ++ ((λ t, length (negative_ids (cls t))) <$> judged)
  ∧ unknown_counts st'.1
    = unknown_counts st.1 ++ ((λ t, length (unknown_ids (cls t))) <$> judged)
  ∧ st'.2
    = st.2 ++ ((λ t, LWarning (missing_qrels_warning t))
               <$> filter (λ t, get qrels t = None) topics).
Proof.
  revert st. induction topics as [|t topics IH]; intros st.
  { simpl. by rewrite !app_nil_r. }
  cbn [foldl]. cbv zeta in IH |- *.
  specialize (IH (decompose_step doc_ranking qrels st t)).
  destruct IH as (IH1 & IH2 & IH3 & IH4).
  rewrite IH1, IH2, IH3, IH4. clear. rewrite !filter_cons.
  unfold decompose_step.
  destruct (get qrels t) as [q|] eqn:Hq;
    repeat case_decide; simplify_eq;
    try (exfalso; by eauto using is_Some_None);
    cbn [fst snd positive_counts negative_counts unknown_counts];
    rewrite ?fmap_cons, <- ?app_assoc; cbn [app].
  - assert (Hd : get_default qrels t [] = q)
      by (unfold get_default; by rewrite Hq).
    by rewrite Hd.
  - done.
Qed.

End DecompositionFacts.

Import Decomposition DecompositionFacts.

(** X18.  [collect_decomposed_ranking] appends one count per class for every
    topic of the ranking that the qrels have, and logs a warning for every
    other topic; the three counts of a topic add up to its number of ranked
    documents. *)
Theorem decomposition_counts_add_up {V : Type}
    (doc_ranking : Dict (Dict V)) (qrels : Dict (Dict Z)) :
  let res := collect_decomposed_ranking doc_ranking qrels in
  let topics := elements (list_to_set (keys doc_ranking) : gset string) in
  let judged := filter (λ t, is_Some (get qrels t)) topics in
  length (positive_counts res.1) = length judged
  ∧ length (negative_counts res.1) = length judged
  ∧ length (unknown_counts res.1) = length judged
  ∧ (∀ i t, judged !! i = Some t →
       ∃ p n u, positive_counts res.1 !! i = Some p
         ∧ negative_counts res.1 !! i = Some n
         ∧ unknown_counts res.1 !! i = Some u
         ∧ p + n + u = length (get_default doc_ranking t []))
  ∧ res.2 = (λ t, LWarning ("Topic #" +:+ t +:+ " missing from QRELs, skipping."))
            <$> filter (λ t, get qrels t = None) topics.
Proof.
  intros res topics judged. subst res. unfold collect_decomposed_ranking.
  fold topics.
  destruct (decompose_steps doc_ranking qrels topics (Decomp [] [] [], []))
    as (H1 & H2 & H3 & H4).
  cbv zeta in H1, H2, H3, H4. rewrite H1, H2, H3, H4.
  cbn [fst snd positive_counts negative_counts unknown_counts app].
  fold judged. rewrite !length_fmap. split_and!; try done.
  intros i t Hi. rewrite !list_lookup_fmap, Hi. simpl.
  eexists _, _, _. split_and!; try done.
  unfold decompose_topic.
  destruct (classify_ids_lengths (get_default qrels t [])
              (keys (get_default doc_ranking t [])) (DocClasses [] [] []))
    as (_ & Hsum & _).
  cbv zeta in Hsum. simpl in Hsum. rewrite Hsum.
  unfold keys. by rewrite length_fmap.
Qed.

(** X19.  Against the decomposition of the same documents, the balancer's
    positive class has the size of the decomposition's positive class, and
    its negative class contains all unknown documents: their number is at
    most [negative + unknown], with equality when no grade is below 0. *)
Theorem balancer_classes_vs_decomposition
    (topic_qrels : Dict Z) (docs : Dict Q) :
  let cls := decompose_topic topic_qrels docs in
  length (pos_docs topic_qrels docs) = length (positive_ids cls)
  ∧ length (unknown_ids cls) ≤ length (neg_docs topic_qrels docs)
  ∧ length (neg_docs topic_qrels docs)
    ≤ length (negative_ids cls) + length (unknown_ids cls)
  ∧ ((∀ d g, get topic_qrels d = Some g → (0 ≤ g)%Z) →
     length (neg_docs topic_qrels docs)
     = length (negative_ids cls) + length (unknown_ids cls)).
Proof.
  intros cls. subst cls. unfold decompose_topic, pos_docs, neg_docs.
  rewrite !sorted_ids_Permutation.
  destruct (classify_ids_lengths topic_qrels (keys docs) (DocClasses [] [] []))
    as (Hp & _ & Hu & Hle & Heq).
  cbv zeta in Hp, Hu, Hle, Heq. simpl in Hp, Hu, Hle, Heq.
  split_and!.
  - lia.
  - rewrite Hu. clear.
    induction (keys docs) as [|d l IH]; [done|].
    rewrite !filter_cons.
    assert (Hgr : grade topic_qrels d = default 0%Z (get topic_qrels d))
      by done.
    rewrite Hgr. clear Hgr.
    destruct (get topic_qrels d) as [g|]; cbn [default];
      repeat case_decide; simplify_eq; cbn [length]; lia.
  - lia.
  - intros Hnn. specialize (Heq Hnn). lia.
Qed.

Lemma balancer_classes_vs_decomposition_witness :
  length (neg_docs [("d1", 1%Z); ("d2", 0%Z)]
            [("d1", 3 # 1); ("d2", 2 # 1); ("d3", 1 # 1)]%Q)
  = length (negative_ids
              (decompose_topic [("d1", 1%Z); ("d2", 0%Z)]
                 [("d1", 3 # 1); ("d2", 2 # 1); ("d3", 1 # 1)]%Q))
    + length (unknown_ids
                (decompose_topic [("d1", 1%Z); ("d2", 0%Z)]
                   [("d1", 3 # 1); ("d2", 2 # 1); ("d3", 1 # 1)]%Q)).
Proof.
  apply (balancer_classes_vs_decomposition [("d1", 1%Z); ("d2", 0%Z)]
           [("d1", 3 # 1); ("d2", 2 # 1); ("d3", 1 # 1)]%Q).
  intros d g Hg. simpl in Hg.
  repeat (case_decide; [injection Hg as <-; lia|]). done.
Defined.

Lemma decomposition_counts_add_up_witness :
  ∃ p n u,
    positive_counts (collect_decomposed_ranking ex_ranking ex_qrels).1 !! 0
    = Some p
    ∧ negative_counts (collect_decomposed_ranking ex_ranking ex_qrels).1 !! 0
      = Some n
    ∧ unknown_counts (collect_decomposed_ranking ex_ranking ex_qrels).1 !! 0
      = Some u
    ∧ p + n + u = length (get_default ex_ranking "q1" []).
Proof.
  destruct (decomposition_counts_add_up ex_ranking ex_qrels)
    as (_ & _ & _ & Hsum & _).
  apply (Hsum 0 "q1"). vm_compute. reflexivity.
Defined.

(** ** Entity prevalence *)

Module PrevalenceFacts.
Import PyDict PyDictFacts SharedEntities Prevalence.

Lemma incr_lookup (counts : gmap string nat) ent e :
  incr counts ent !! e
  = if decide (ent = e) then Some (S (default 0 (counts !! e)))
    else counts !! e.
Proof.
  unfold incr. destruct (decide (ent = e)) as [->|Hne].
  - by rewrite lookup_insert_eq.
  - by rewrite lookup_insert_ne.
Qed.

Lemma incr_list (l : list string) (counts : gmap string nat) e :
  NoDup l →
  foldl incr counts l !! e
  = if decide (e ∈ l) then Some (S (default 0 (counts !! e)))
    else counts !! e.
Proof.
  intros Hl. revert counts.
  induction Hl as [|x l Hx Hl IH]; intros counts; cbn [foldl].
  { by destruct (decide (e ∈ [])) as [?%not_elem_of_nil|]. }
  rewrite IH, incr_lookup.
  repeat case_decide; simplify_eq; try done;
    exfalso; set_solver.
Qed.

Lemma incr_set (s : gset string) (counts : gmap string nat) e :
  foldl incr counts (elements s) !! e
  = if decide (e ∈ s) then Some (S (default 0 (counts !! e)))
    else counts !! e.
Proof.
  rewrite incr_list by apply NoDup_elements.
  destruct (decide (e ∈ elements s)) as [Hin|Hin];
    destruct (decide (e ∈ s)) as [Hs|Hs]; try done;
    exfalso; apply elem_of_elements in Hin || apply Hin, elem_of_elements;
    done.
Qed.

Lemma prevalence_loop class_name (sel : classes → gset string)
    (items : Dict classes) (counts : gmap string nat) :
  (∀ c, class_set class_name c = Ok (sel c)) →
  ∃ counts', for_each (prevalence_step class_name) counts items = Ok counts'
    ∧ ∀ e, counts' !! e
           = let n := length (filter (λ it, e ∈ sel it.2) items) in
             if decide (n = 0) then counts !! e
             else Some (default 0 (counts !! e) + n).
Proof.
  intros Hsel. revert counts.
  induction items as [|[t c] items IH]; intros counts.
  { exists counts. split; [done|]. intros e. done. }
  cbn [for_each].
  assert (Hstep : prevalence_step class_name counts (t, c)
                  = Ok (foldl incr counts (elements (sel c)))).
  { unfold prevalence_step. cbn [snd]. by rewrite Hsel. }
  rewrite Hstep. cbn [mbind res_bind].
  destruct (IH (foldl incr counts (elements (sel c)))) as (counts' & -> & Hc).
  exists counts'. split; [done|]. intros e. rewrite Hc. cbv zeta.
  rewrite incr_set, filter_cons. cbn [snd].
  destruct (decide (e ∈ sel c)); cbn [length];
    repeat case_decide; try lia; try done.
  - simpl. f_equal. lia.
  - simpl. f_equal. lia.
Qed.

Lemma classes_get_valid c name :
  name ∈ ["shared"; "positive"; "negative"] →
  classes_get c name = Some (default ∅ (classes_get c name)).
Proof.
  unfold classes_get.
  intros [->|[->|[->|[]%not_elem_of_nil]%elem_of_cons]%elem_of_cons]%elem_of_cons;
    done.
Qed.

Lemma classes_get_invalid c name :
  name ∉ ["shared"; "positive"; "negative"] → classes_get c name = None.
Proof.
  intros Hn. unfold classes_get.
  repeat case_decide; try done; subst; exfalso; apply Hn;
    repeat first [left | right].
Qed.

Lemma fraction_bounds (n m : nat) :
  0 < n → n ≤ m →
  (0 < inject_Z (Z.of_nat n) / inject_Z (Z.of_nat m) <= 1)%Q.
Proof.
  intros Hn Hm.
  assert (Hm' : (0 < inject_Z (Z.of_nat m))%Q).
  { change 0%Q with (inject_Z 0). rewrite <- Zlt_Qlt. lia. }
  split.
  - apply Qlt_shift_div_l; [done|]. rewrite Qmult_0_l.
    change 0%Q with (inject_Z 0). rewrite <- Zlt_Qlt. lia.
  - apply Qle_shift_div_r; [done|]. rewrite Qmult_1_l.
    rewrite <- Zle_Qle. lia.
Qed.

End PrevalenceFacts.

Import Prevalence PrevalenceFacts.

(** X20.  For one of the three class names, [collect_entity_prevalence]
    maps exactly the entities that occur in that class of some topic, each
    to the fraction of topics in whose class it occurs, a value in (0,1]. *)
Theorem prevalence_is_topic_fraction (ents_per_topic : Dict classes) name :
  name ∈ ["shared"; "positive"; "negative"] →
  ∃ prev, collect_entity_prevalence ents_per_topic (Some name) = Ok prev
    ∧ ∀ e,
        let n := length (filter (λ it, e ∈ default ∅ (classes_get it.2 name))
                           ents_per_topic) in
        (n = 0 → prev !! e = None)
        ∧ (0 < n →
           prev !! e
           = Some (inject_Z (Z.of_nat n)
                   / inject_Z (Z.of_nat (length ents_per_topic)))%Q
           ∧ (0 < inject_Z (Z.of_nat n)
                  / inject_Z (Z.of_nat (length ents_per_topic)) <= 1)%Q).
Proof.
  intros Hname. unfold collect_entity_prevalence.
  destruct (prevalence_loop (Some name)
              (λ c, default ∅ (classes_get c name)) ents_per_topic ∅)
    as (counts & -> & Hc).
  { intros c. unfold class_set. by rewrite (classes_get_valid c name Hname). }
  eexists. split; [done|]. intros e. cbv zeta.
  rewrite lookup_fmap, Hc. cbv zeta.
  set (n := length (filter _ ents_per_topic)).
  rewrite lookup_empty. simpl. split.
  - intros ->. by rewrite decide_True.
  - intros Hn. rewrite decide_False by lia. simpl.
    unfold prevalence_of, keys. rewrite length_fmap. split; [done|].
    apply fraction_bounds; [done|]. apply length_filter.
Qed.

Lemma prevalence_is_topic_fraction_witness :
  ∃ prev, collect_entity_prevalence ex_class_entities (Some "shared") = Ok prev
    ∧ ∀ e,
        let n := length (filter (λ it, e ∈ default ∅ (classes_get it.2 "shared"))
                           ex_class_entities) in
        (n = 0 → prev !! e = None)
        ∧ (0 < n →
           prev !! e
           = Some (inject_Z (Z.of_nat n)
                   / inject_Z (Z.of_nat (length ex_class_entities)))%Q
           ∧ (0 < inject_Z (Z.of_nat n)
                  / inject_Z (Z.of_nat (length ex_class_entities)) <= 1)%Q).
Proof.
  apply (prevalence_is_topic_fraction ex_class_entities "shared"). left.
Defined.

(** X21.  [collect_entity_prevalence] returns the empty dict for an empty
    input whatever the class name, and raises [TypeError] on a non-empty
    input when the class name is not one of the three keys of the class
    dicts ([classes.get] gives [None]). *)
Theorem prevalence_unknown_class_raises (ents_per_topic : Dict classes) name :
  collect_entity_prevalence [] (Some name) = Ok ∅
  ∧ (name ∉ ["shared"; "positive"; "negative"] →
     ents_per_topic ≠ [] →
     collect_entity_prevalence ents_per_topic (Some name) = Raise TypeError).
Proof.
  split; [done|]. intros Hn Hne.
  destruct ents_per_topic as [|[t c] items]; [done|].
  unfold collect_entity_prevalence. cbn [for_each].
  assert (Hstep : prevalence_step (Some name) ∅ (t, c) = Raise TypeError).
  { unfold prevalence_step, class_set. cbn [snd].
    by rewrite (classes_get_invalid c name Hn). }
  by rewrite Hstep.
Qed.

Lemma prevalence_unknown_class_raises_witness :
  collect_entity_prevalence ex_class_entities (Some "unknown")
  = Raise TypeError.
Proof.
  apply (proj2 (prevalence_unknown_class_raises ex_class_entities "unknown")).
  - intros Hin. repeat (apply elem_of_cons in Hin as [Hin|Hin]; [done|]).
    by apply not_elem_of_nil in Hin.
  - done.
Defined.

(** ** Entity classifier: the only outcomes *)

Lemma classify_topics_exn links (qrels : Dict (Dict Z)) st e :
  for_each (classify_topic links) st qrels = Raise e → e = TypeError.
Proof.
  revert st. induction qrels as [|item qrels IH]; intros st; [done|].
  cbn [for_each].
  destruct (classify_topic links st item) as [st1|e1] eqn:Hst;
    cbn [mbind res_bind].
  - apply IH.
  - intros [= <-]. by eapply classify_topic_exn.
Qed.

(** X15.  Whatever the input, [get_classified_entities] either returns with
    an empty log (the warning for an invalid relevance value is never
    issued) or raises [TypeError]. *)
Theorem classifier_outcomes (qrels : Dict (Dict Z)) links :
  match get_classified_entities qrels links with
  | Ok (result, log) => log = []
  | Raise e => e = TypeError
  end.
Proof.
  destruct (get_classified_entities qrels links) as [[result log]|e] eqn:Hr.
  - by apply classify_topics_warnings in Hr.
  - by eapply classify_topics_exn.
Qed.

(** ** Unique elements *)

Import UniqueElements.

Lemma unique_all_acc {V} (ranking : Dict (Dict V)) (acc : gset string) e :
  e ∈ foldl (λ acc item, acc ∪ list_to_set (keys item.2)) acc ranking
  ↔ e ∈ acc ∨ ∃ t docs, (t, docs) ∈ ranking ∧ e ∈ keys docs.
Proof.
  revert acc. induction ranking as [|[t d] ranking IH]; intros acc; simpl.
  - split; [by left|]. intros [?|(? & ? & []%not_elem_of_nil & _)]. done.
  - rewrite IH, elem_of_union, elem_of_list_to_set. split.
    + intros [[?|?]|(t' & d' & ? & ?)]; [by left| |].
      * right. exists t, d. split; [left|done].
      * right. exists t', d'. split; [by right|done].
    + intros [?|(t' & d' & [[= -> ->]|?]%elem_of_cons & ?)].
      * by left; left.
      * by left; right.
      * right. by exists t', d'.
Qed.

(** X22.  [collect_unique_elements] for ["all"] returns exactly the
    candidates that occur under some query; for any other query it returns
    that query's candidates, a subset of the total, or, when the query is
    not in the ranking, the empty set with an error record. *)
Theorem unique_elements_of_topic {V : Type} (ranking : Dict (Dict V))
    topic element :
  (∀ e, e ∈ (collect_unique_elements ranking "all" element).1
        ↔ ∃ t docs, (t, docs) ∈ ranking ∧ e ∈ keys docs)
  ∧ (topic ≠ "all" →
     (collect_unique_elements ranking topic element).1
       ⊆ (collect_unique_elements ranking "all" element).1
     ∧ (∀ docs, get ranking topic = Some docs →
          ∀ e, e ∈ (collect_unique_elements ranking topic element).1
               ↔ e ∈ keys docs)
     ∧ (get ranking topic = None →
          collect_unique_elements ranking topic element
          = (∅, [LError ("Could not find given query in ranking: "
                         +:+ topic)]))).
Proof.
  split.
  - intros e. unfold collect_unique_elements. rewrite decide_True by done.
    cbn [fst]. rewrite unique_all_acc. split; [|by right].
    by intros [[]%not_elem_of_empty|?].
  - intros Hne. unfold collect_unique_elements.
    rewrite (decide_False (P := topic = "all")) by done.
    rewrite decide_True by done. cbn [fst].
    destruct (get ranking topic) as [docs|] eqn:Hg; cbn [fst].
    + split_and!; [|by intros ? [= <-] e; rewrite elem_of_list_to_set|done].
      intros e He%elem_of_list_to_set. apply unique_all_acc. right.
      exists topic, docs. split; [by apply get_Some_elem|done].
    + split_and!; [set_solver|done|done].
Qed.

Lemma unique_elements_of_topic_witness :
  (collect_unique_elements ex_entity_ranking "q2" "entities").1
    ⊆ (collect_unique_elements ex_entity_ranking "all" "entities").1
  ∧ (∀ docs, get ex_entity_ranking "q2" = Some docs →
       ∀ e, e ∈ (collect_unique_elements ex_entity_ranking "q2" "entities").1
            ↔ e ∈ keys docs)
  ∧ (get ex_entity_ranking "q2" = None →
       collect_unique_elements ex_entity_ranking "q2" "entities"
       = (∅, [LError ("Could not find given query in ranking: " +:+ "q2")])).
Proof.
  apply (proj2 (unique_elements_of_topic ex_entity_ranking "q2" "entities")).
  done.
Defined.

(** ** Rank prevalence *)

Module RankPrevalenceFacts.
Import PyDict PyDictFacts RankPrevalence.

Lemma get_map_values {A B} (f : A → B) (d : Dict A) e :
  get (map_values f d) e = f <$> get d e.
Proof.
  unfold map_values. induction d as [|[k v] d IH]; simpl; [done|].
  case_decide; [done | apply IH].
Qed.

Lemma rank_step_ranks k st item e :
  get (ent_ranks (rank_step k st item)) e
  = if decide (item.2.1 = e)
    then Some (get_default (ent_ranks st) e [] ++ [item.1])
    else get (ent_ranks st) e.
Proof.
  unfold rank_step. cbv zeta.
  destruct (in_top k item.1); cbn [ent_ranks]; rewrite get_set;
    case_decide; by subst.
Qed.

Lemma rank_step_prevs k st item e :
  get (ent_prevs (rank_step k st item)) e
  = if decide (item.2.1 = e ∧ in_top k item.1 = true)
    then Some (S (get_default (ent_prevs st) e 0))
    else get (ent_prevs st) e.
Proof.
  unfold rank_step. cbv zeta.
  destruct (in_top k item.1) eqn:Htop; cbn [ent_prevs].
  - rewrite get_set. repeat case_decide; subst; naive_solver.
  - rewrite decide_False; [done|]. by intros [_ ?].
Qed.

Lemma rank_steps_ranks k items st e :
  get (ent_ranks (foldl (rank_step k) st items)) e
  = let rs := (filter (λ it, it.2.1 = e) items).*1 in
    if decide (rs = []) then get (ent_ranks st) e
    else Some (get_default (ent_ranks st) e [] ++ rs).
Proof.
  revert st. induction items as [|item items IH]; intros st; [done|].
  cbn [foldl]. rewrite IH. cbv zeta. unfold get_default.
  rewrite rank_step_ranks, filter_cons.
  set (rs := (filter (λ it, it.2.1 = e) items).*1).
  destruct (decide (item.2.1 = e)) as [He|He].
  - rewrite fmap_cons. fold rs. cbn [from_option id].
    rewrite (decide_False (P := item.1 :: rs = [])) by done.
    unfold get_default.
    destruct (decide (rs = [])) as [->|]; [done|].
    by rewrite <- app_assoc.
  - fold rs. done.
Qed.

Lemma rank_steps_prevs k items st e :
  get (ent_prevs (foldl (rank_step k) st items)) e
  = let c := length (filter (λ r, in_top k r = true)
                       (filter (λ it, it.2.1 = e) items).*1) in
    if decide (c = 0) then get (ent_prevs st) e
    else Some (get_default (ent_prevs st) e 0 + c).
Proof.
  revert st. induction items as [|item items IH]; intros st; [done|].
  cbn [foldl]. rewrite IH. cbv zeta. unfold get_default.
  rewrite rank_step_prevs, filter_cons.
  set (rs := (filter (λ it, it.2.1 = e) items).*1).
  destruct (decide (item.2.1 = e)) as [He|He].
  - rewrite fmap_cons. fold rs. rewrite filter_cons.
    destruct (decide (in_top k item.1 = true)) as [Ht|Ht].
    + rewrite (decide_True (P := item.2.1 = e ∧ _)) by (by split).
      cbn [length from_option id]. unfold get_default.
      rewrite (decide_False (P := S _ = 0)) by done.
      destruct (decide (length _ = 0)) as [->|]; f_equal; lia.
    + rewrite (decide_False (P := item.2.1 = e ∧ _)) by (by intros [_ ?]).
      done.
  - fold rs.
    rewrite (decide_False (P := item.2.1 = e ∧ _)) by (by intros [? _]).
    done.
Qed.

Lemma topic_steps_ranks k (topics : list (Dict Q)) st e :
  get (ent_ranks (foldl (topic_step k) st topics)) e
  = let rs := concat (ranks_in e <$> topics) in
    if decide (rs = []) then get (ent_ranks st) e
    else Some (get_default (ent_ranks st) e [] ++ rs).
Proof.
  revert st. induction topics as [|t topics IH]; intros st; [done|].
  cbn [foldl]. rewrite IH. cbv zeta. rewrite fmap_cons. cbn [concat].
  unfold topic_step, get_default. rewrite rank_steps_ranks. cbv zeta.
  fold (ranks_in e t). unfold get_default.
  set (rest := concat (ranks_in e <$> topics)).
  destruct (decide (ranks_in e t = [])) as [->|Hr].
  - done.
  - cbn [from_option id].
    rewrite (decide_False (P := ranks_in e t ++ rest = [])).
    2:{ intros [? _]%app_eq_nil. done. }
    destruct (decide (rest = [])) as [->|]; [by rewrite app_nil_r|].
    by rewrite <- app_assoc.
Qed.

Lemma topic_steps_prevs k (topics : list (Dict Q)) st e :
  get (ent_prevs (foldl (topic_step k) st topics)) e
  = let c := length (filter (λ r, in_top k r = true)
                       (concat (ranks_in e <$> topics))) in
    if decide (c = 0) then get (ent_prevs st) e
    else Some (get_default (ent_prevs st) e 0 + c).
Proof.
  revert st. induction topics as [|t topics IH]; intros st; [done|].
  cbn [foldl]. rewrite IH. cbv zeta. rewrite fmap_cons. cbn [concat].
  rewrite filter_app, length_app.
  unfold topic_step, get_default. rewrite rank_steps_prevs. cbv zeta.
  fold (ranks_in e t). unfold get_default.
  set (c1 := length (filter _ (ranks_in e t))).
  set (c2 := length (filter _ (concat _))).
  destruct (decide (c1 = 0)) as [->|H1].
  - done.
  - cbn [from_option id].
    rewrite (decide_False (P := c1 + c2 = 0)) by lia.
    destruct (decide (c2 = 0)) as [->|]; f_equal; lia.
Qed.

Lemma enumerate_ranks {A} (l : list A) start r x :
  (r, x) ∈ enumerate_from start l → start ≤ r.
Proof.
  revert start. induction l as [|y l IH]; intros start; simpl.
  { by intros ?%not_elem_of_nil. }
  intros [[= -> ->]|Hin%IH]%elem_of_cons; lia.
Qed.

Lemma enumerate_filter_length {A} (P : A → Prop)
    `{HP1 : !∀ it : nat * A, Decision (P it.2)}
    `{HP2 : !∀ x, Decision (P x)} (l : list A) start :
  length (filter (λ it, P it.2) (enumerate_from start l))
  = length (filter P l).
Proof.
  revert start. induction l as [|y l IH]; intros start; [done|].
  cbn [enumerate_from]. rewrite !filter_cons.
  destruct (decide (P (start, y).2)), (decide (P y));
    cbn [length snd] in *; try done; by rewrite IH.
Qed.

Lemma key_filter_length {V} (d : Dict V) e :
  dict_wf d →
  length (filter (λ kv, kv.1 = e) d) = if decide (e ∈ keys d) then 1 else 0.
Proof.
  unfold dict_wf, keys. induction d as [|[k v] d IH]; intros Hwf.
  { by destruct (decide (e ∈ [])) as [?%not_elem_of_nil|]. }
  apply NoDup_cons in Hwf as [Hk Hwf]. rewrite filter_cons. cbn [fst].
  specialize (IH Hwf). simpl.
  destruct (decide (k = e)) as [->|Hne]; cbn [length]; rewrite IH.
  - rewrite decide_False by done. rewrite decide_True by left. done.
  - destruct (decide (e ∈ d.*1)).
    + rewrite decide_True by (by right). done.
    + rewrite decide_False; [done|].
      intros [?|?]%elem_of_cons; naive_solver.
Qed.

Lemma ranks_in_length e (topic_ents : Dict Q) :
  dict_wf topic_ents →
  length (ranks_in e topic_ents)
  = if decide (e ∈ keys topic_ents) then 1 else 0.
Proof.
  intros Hwf. unfold ranks_in. rewrite length_fmap.
  rewrite (enumerate_filter_length (λ kv, kv.1 = e)).
  unfold sorted_ents. rewrite sorted_rev_Permutation.
  by apply key_filter_length.
Qed.

Lemma ranks_in_ge_1 e (topic_ents : Dict Q) :
  Forall (λ r, 1 ≤ r) (ranks_in e topic_ents).
Proof.
  apply Forall_forall. intros r.
  unfold ranks_in. intros ([r' x] & -> & [_ Hin]%list_elem_of_filter)%list_elem_of_fmap.
  by eapply enumerate_ranks.
Qed.

Lemma all_ranks_ge_1 e (ents_per_topic : Dict (Dict Q)) :
  Forall (λ r, 1 ≤ r) (all_ranks e ents_per_topic).
Proof.
  unfold all_ranks. induction (ents_per_topic.*2) as [|t ts IH]; simpl.
  - constructor.
  - apply Forall_app. split; [apply ranks_in_ge_1 | done].
Qed.

Lemma all_ranks_length e (ents_per_topic : Dict (Dict Q)) :
  (∀ t ents, (t, ents) ∈ ents_per_topic → dict_wf ents) →
  length (all_ranks e ents_per_topic)
  = length (filter (λ item, e ∈ keys item.2) ents_per_topic).
Proof.
  unfold all_ranks.
  induction ents_per_topic as [|[t ents] items IH]; intros Hwf; [done|].
  rewrite !fmap_cons. cbn [concat snd]. rewrite length_app, filter_cons.
  rewrite ranks_in_length by (eapply Hwf; left).
  rewrite IH by (intros; eapply Hwf; by right). cbn [snd].
  destruct (decide (e ∈ keys ents)); cbn [length]; lia.
Qed.

Lemma mean_ge_1 (rs : list nat) :
  rs ≠ [] → Forall (λ r, 1 ≤ r) rs → (1 <= mean rs)%Q.
Proof.
  intros Hne Hall. unfold mean.
  assert (Hlen : 0 < length rs) by (destruct rs; [done | simpl; lia]).
  assert (Hsum : length rs ≤ sum_list rs).
  { clear Hne Hlen. induction Hall as [|r rs Hr Hall IH]; simpl; lia. }
  apply Qle_shift_div_l.
  - change 0%Q with (inject_Z 0). rewrite <- Zlt_Qlt. lia.
  - rewrite Qmult_1_l, <- Zle_Qle. lia.
Qed.

End RankPrevalenceFacts.

Import RankPrevalence RankPrevalenceFacts.

(** X23.  [collect_entity_rank_prevalence] maps an entity to the mean of the
    ranks (from 1, by descending score, ties in input order) it takes in the
    topics that rank it, and to the number of those ranks within the top
    [k], divided by the number of topics; an entity that no topic ranks
    (within the top [k]) has no entry.  The average rank is at least 1 and
    the prevalence lies in (0,1]. *)
Theorem rank_prevalence_values (ents_per_topic : Dict (Dict Q)) k e :
  let res := collect_entity_rank_prevalence ents_per_topic k in
  let rs := all_ranks e ents_per_topic in
  let c := length (filter (λ r, in_top k r = true) rs) in
  get res.1 e = (if decide (rs = []) then None else Some (mean rs))
  ∧ get res.2 e
    = (if decide (c = 0) then None
       else Some (inject_Z (Z.of_nat c)
                  / inject_Z (Z.of_nat (length ents_per_topic)))%Q)
  ∧ Forall (λ r, 1 ≤ r) rs
  ∧ (rs ≠ [] → (1 <= mean rs)%Q)
  ∧ (k = None → c = length rs)
  ∧ ((∀ t ents, (t, ents) ∈ ents_per_topic → dict_wf ents) →
     length rs = length (filter (λ item, e ∈ keys item.2) ents_per_topic)
     ∧ (0 < c →
        (0 < inject_Z (Z.of_nat c)
             / inject_Z (Z.of_nat (length ents_per_topic)) <= 1)%Q)).
Proof.
  intros res rs c. subst res. unfold collect_entity_rank_prevalence.
  cbv zeta. cbn [fst snd]. rewrite !get_map_values.
  rewrite topic_steps_ranks, topic_steps_prevs. cbv zeta.
  fold (all_ranks e ents_per_topic). fold rs. fold c.
  unfold keys. rewrite length_fmap. split_and!.
  - by destruct (decide (rs = [])).
  - destruct (decide (c = 0)); [done|]. done.
  - apply all_ranks_ge_1.
  - intros Hne. apply mean_ge_1; [done | apply all_ranks_ge_1].
  - intros ->. subst c. simpl. by rewrite filter_all.
  - intros Hwf. pose proof (all_ranks_length e ents_per_topic Hwf) as Hlen.
    fold rs in Hlen. split; [done|]. intros Hc.
    apply fraction_bounds; [done|].
    etrans; [apply length_filter|]. rewrite Hlen. apply length_filter.
Qed.

Lemma rank_prevalence_values_witness :
  length (all_ranks "e2" ex_entity_ranking)
  = length (filter (λ item, "e2" ∈ keys item.2) ex_entity_ranking)
  ∧ (0 < length (filter (λ r, in_top (Some 1%Z) r = true)
                   (all_ranks "e2" ex_entity_ranking)) →
     (0 < inject_Z (Z.of_nat (length (filter (λ r, in_top (Some 1%Z) r = true)
                                        (all_ranks "e2" ex_entity_ranking))))
          / inject_Z (Z.of_nat (length ex_entity_ranking)) <= 1)%Q).
Proof.
  apply (rank_prevalence_values ex_entity_ranking (Some 1%Z) "e2").
  intros t ents Hin. unfold ex_entity_ranking in Hin.
  repeat (apply elem_of_cons in Hin as [[= -> ->]|Hin];
          [unfold dict_wf; compute_done|]).
  by apply not_elem_of_nil in Hin.
Defined.

Example rank_prevalence_scenario :
  collect_entity_rank_prevalence ex_entity_ranking (Some 1%Z)
  = ([("e1", (3 # 2)); ("e2", (3 # 2)); ("e9", (3 # 1))],
     [("e1", (1 # 2)); ("e2", (1 # 2))])%Q.
Proof. vm_compute. reflexivity. Qed.

(** ** Filtering a filtered ranking *)

Module FilterIdempotence.
Import PyDict PyDictFacts DreqFiltering FilterFacts LineFields FilterMore.

Lemma groupby_nonempty {A} (key : A → string) (l : list A) k g :
  (k, g) ∈ groupby key l → g ≠ [].
Proof.
  revert k g. induction l as [|y l IH]; intros k g; simpl.
  { by intros ?%not_elem_of_nil. }
  destruct (groupby key l) as [|[k0 g0] rest] eqn:Hgr.
  - by intros [= -> ->]%list_elem_of_singleton.
  - destruct (decide (key y = k0)).
    + intros [[= -> ->]|Hin]%elem_of_cons; [done|]. eapply IH. by right.
    + intros [[= -> ->]|Hin]%elem_of_cons; [done|]. by eapply IH.
Qed.

Lemma groupby_prepend {A} (key : A → string) (b tail : list A) k :
  b ≠ [] → (∀ w, w ∈ b → key w = k) →
  (∀ k' g' rest, groupby key tail = (k', g') :: rest → k' ≠ k) →
  groupby key (b ++ tail) = (k, b) :: groupby key tail.
Proof.
  intros Hne Hk Hhead. induction b as [|x b IH]; [done|].
  assert (Hx : key x = k) by (apply Hk; left).
  destruct b as [|y b].
  - simpl. destruct (groupby key tail) as [|[k' g'] rest] eqn:Hg.
    + by rewrite Hx.
    + rewrite decide_False; [by rewrite Hx|].
      rewrite Hx. intros ->. by eapply Hhead.
  - cbn [app groupby] in *. rewrite IH; [|done|intros; apply Hk; by right].
    by rewrite decide_True.
Qed.

Lemma groupby_blocks {A} (key : A → string) (blocks : list (string * list A)) :
  (∀ k b, (k, b) ∈ blocks → b ≠ [] ∧ ∀ w, w ∈ b → key w = k) →
  NoDup blocks.*1 →
  groupby key (concat blocks.*2) = blocks.
Proof.
  induction blocks as [|[k b] blocks IH]; intros Hb Hnd; [done|].
  apply NoDup_cons in Hnd as [Hk Hnd].
  rewrite fmap_cons. cbn [concat snd].
  destruct (Hb k b ltac:(left)) as [Hne Hkeys].
  rewrite groupby_prepend with (k := k); try done.
  - f_equal. apply IH; [|done]. intros; apply Hb; by right.
  - rewrite IH; [|intros; apply Hb; by right|done].
    intros k' g' rest -> ->. apply Hk. simpl. left.
Qed.

Section Block.
Context (ent_qrels : Dict (Dict Z)) (doc_ents : gmap string (gset string)).
Context (qid : string).
Hypothesis qid_no_space : no_space qid.

Lemma out_line_fields line r :
  let w := out_line qid (field 1 line) (field 2 line) r (field 4 line) in
  line_key w = qid ∧ field 1 w = field 1 line ∧ field 2 w = field 2 line
  ∧ field 4 w = field 4 line ∧ length (split_space w) = 6.
Proof.
  intros w.
  assert (Hw : split_space w
               = [qid; field 1 line; field 2 line; pretty r; field 4 line;
                  "Entity-Filtered" +:+ newline]).
  { apply split_out_line; auto using field_no_space. }
  assert (Hf : ∀ i, field i w
                    = default "" ([qid; field 1 line; field 2 line; pretty r;
                                   field 4 line; "Entity-Filtered" +:+ newline]
                                  !! i)).
  { intros i. unfold field at 1. by rewrite Hw. }
  rewrite line_key_field, !Hf, Hw. done.
Qed.

Lemma renumber_renumber r kept :
  renumber qid r (renumber qid r kept) = renumber qid r kept.
Proof.
  revert r. induction kept as [|line kept IH]; intros r; [done|].
  cbn [renumber]. rewrite IH.
  destruct (out_line_fields line r) as (_ & -> & -> & -> & _). done.
Qed.

Lemma renumber_retained r kept :
  (∀ line, line ∈ kept → retained ent_qrels doc_ents qid line) →
  filter (retained ent_qrels doc_ents qid) (renumber qid r kept)
  = renumber qid r kept.
Proof.
  intros Hk. apply filter_all. intros w Hw.
  apply renumber_elem in Hw as (line & r' & Hl & _ & ->).
  unfold retained.
  destruct (out_line_fields line r') as (_ & _ & -> & _). by apply Hk.
Qed.

Lemma renumber_keys r kept w :
  w ∈ renumber qid r kept → line_key w = qid ∧ length (split_space w) = 6.
Proof.
  intros (line & r' & _ & _ & ->)%renumber_elem.
  destruct (out_line_fields line r') as (? & _ & _ & _ & ?). done.
Qed.

Lemma filter_group_spec_fixed group :
  filter_group_spec ent_qrels doc_ents
    (qid, filter_group_spec ent_qrels doc_ents (qid, group))
  = filter_group_spec ent_qrels doc_ents (qid, group).
Proof.
  unfold filter_group_spec. cbn [fst snd].
  rewrite renumber_retained, renumber_renumber; [done|].
  by intros line [? _]%list_elem_of_filter.
Qed.
End Block.

Lemma concat_nonempty {A} (ls : list (list A)) :
  concat (filter (λ l, l ≠ []) ls) = concat ls.
Proof.
  induction ls as [|l ls IH]; [done|]. rewrite filter_cons.
  destruct (decide (l ≠ [])) as [|Hn]; simpl; rewrite IH; [done|].
  destruct l; [done|]. by destruct Hn.
Qed.

End FilterIdempotence.

Import FilterIdempotence.

Lemma refilter_writes ent_qrels ranking doc_ents out n :
  (∀ line, line ∈ ranking → 5 ≤ length (split_space line)) →
  NoDup (groupby line_key ranking).*1 →
  filter_ranking ent_qrels ranking doc_ents = Ok (out, n) →
  filter_ranking ent_qrels out doc_ents = Ok (out, length out).
Proof.
  intros Hwf Hnd. unfold filter_ranking at 1.
  destruct (filter_groups_spec ent_qrels doc_ents
              (groupby line_key ranking) (FilterState 0 1 [])) as [r0 ->].
  { intros k g line Hg Hl. apply Hwf. by eapply groupby_elem. }
  cbn [mbind res_bind doc_count written app]. intros [= <- _].
  set (groups := groupby line_key ranking) in *.
  set (blocks := filter (λ kb : string * list string, kb.2 ≠ [])
                   ((λ grp, (grp.1, filter_group_spec ent_qrels doc_ents grp))
                    <$> groups)).
  assert (Hkey : ∀ k g, (k, g) ∈ groups → no_space k).
  { intros k g Hg. destruct g as [|x g'] eqn:Hgx.
    - by apply groupby_nonempty in Hg.
    - rewrite <- (groupby_key line_key ranking k (x :: g') x Hg ltac:(left)).
      rewrite line_key_field. apply field_no_space. }
  assert (Hout : concat blocks.*2
                 = concat (filter_group_spec ent_qrels doc_ents <$> groups)).
  { subst blocks. clear. induction groups as [|grp groups IH]; [done|].
    rewrite fmap_cons, filter_cons. cbn [snd].
    destruct (decide (filter_group_spec ent_qrels doc_ents grp ≠ [])) as [|Hn].
    - rewrite !fmap_cons. cbn [concat snd]. by rewrite IH.
    - rewrite fmap_cons. cbn [concat]. rewrite IH.
      destruct (filter_group_spec ent_qrels doc_ents grp); [done|].
      by destruct Hn. }
  assert (Hblock : ∀ k b, (k, b) ∈ blocks →
            ∃ g, (k, g) ∈ groups
                 ∧ b = filter_group_spec ent_qrels doc_ents (k, g) ∧ b ≠ []).
  { intros k b [Hne Hin]%list_elem_of_filter.
    apply list_elem_of_fmap in Hin as ([k' g] & [= -> ->] & Hg).
    exists g. by split_and!. }
  assert (Hgroup : groupby line_key (concat blocks.*2) = blocks).
  { apply groupby_blocks.
    - intros k b (g & Hg & -> & Hne)%Hblock. split; [done|].
      intros w Hw. unfold filter_group_spec in Hw.
      eapply renumber_keys; [by eapply Hkey | exact Hw].
    - eapply sublist_NoDup; [exact Hnd|]. subst blocks.
      etrans; [apply fmap_sublist, sublist_filter|].
      by rewrite <- list_fmap_compose. }
  rewrite <- Hout. unfold filter_ranking.
  destruct (filter_groups_spec ent_qrels doc_ents
              (groupby line_key (concat blocks.*2)) (FilterState 0 1 []))
    as [r1 ->].
  { rewrite Hgroup. intros k b w (g & Hg & -> & _)%Hblock Hw.
    unfold filter_group_spec in Hw.
    destruct (renumber_keys k (Hkey _ _ Hg) _ _ _ Hw) as [_ ->]. lia. }
  cbn [mbind res_bind doc_count written app]. rewrite Hgroup.
  rewrite Nat.add_0_l.
  assert (Hfix : ∀ kb, kb ∈ blocks →
            filter_group_spec ent_qrels doc_ents kb = kb.2).
  { intros [k b] (g & Hg & -> & _)%Hblock. cbn [snd].
    apply filter_group_spec_fixed. by eapply Hkey. }
  assert (Hcat : concat (filter_group_spec ent_qrels doc_ents <$> blocks)
                 = concat blocks.*2).
  { clear -Hfix. induction blocks as [|kb bs IH]; [done|].
    rewrite !fmap_cons. cbn [concat]. rewrite Hfix by left. f_equal.
    apply IH. intros; apply Hfix; by right. }
  by rewrite Hcat.
Qed.


(** X24.  On a text file whose lines have six fields each and in which the
    lines of each query are contiguous, filtering is idempotent: filtering
    the saved file again, with the same entity judgments and links, writes
    the same lines. *)
Theorem filtering_is_idempotent ent_qrels text doc_ents out n :
  (∀ line, line ∈ readlines text → 6 ≤ length (split_space line)) →
  NoDup (groupby line_key (readlines text)).*1 →
  filter_ranking ent_qrels (readlines text) doc_ents = Ok (out, n) →
  filter_ranking ent_qrels (readlines (file_text out)) doc_ents
  = Ok (out, length (readlines (file_text out))).
Proof.
  intros Hwf Hnd Hr. rewrite (writes_are_lines _ _ _ _ _ Hwf Hr).
  eapply refilter_writes; [|exact Hnd|exact Hr].
  intros line Hl. specialize (Hwf line Hl). lia.
Qed.

Lemma filtering_is_idempotent_witness :
  filter_ranking ex_scored
    (readlines (file_text
                  [ "q1 Q0 d1 1 3.5 Entity-Filtered" +:+ newline;
                    "q1 Q0 d3 2 2.5 Entity-Filtered" +:+ newline ]))
    ex_doc_ents
  = Ok ([ "q1 Q0 d1 1 3.5 Entity-Filtered" +:+ newline;
          "q1 Q0 d3 2 2.5 Entity-Filtered" +:+ newline ],
        length (readlines (file_text
                  [ "q1 Q0 d1 1 3.5 Entity-Filtered" +:+ newline;
                    "q1 Q0 d3 2 2.5 Entity-Filtered" +:+ newline ]))).
Proof.
  assert (Hread : readlines (file_text ex_initial) = ex_initial)
    by (vm_compute; reflexivity).
  apply (filtering_is_idempotent ex_scored (file_text ex_initial) ex_doc_ents
           _ 4).
  - rewrite Hread. intros line Hin. unfold ex_initial in Hin.
    repeat (apply elem_of_cons in Hin as [->|Hin]; [vm_compute; lia|]).
    by apply not_elem_of_nil in Hin.
  - vm_compute. apply NoDup_ListNoDup.
    repeat constructor; simpl; intuition discriminate.
  - vm_compute. reflexivity.
Defined.

(** The sixth field matters: a line of five fields ends in its score, the
    score field carries the line terminator into the write, the saved file
    has two lines for it, and filtering that file again fails. *)
Example five_field_line_is_split :
  filter_ranking ex_scored (readlines ("q1 Q0 d1 1 3.5" +:+ newline))
    ex_doc_ents
  = Ok (["q1 Q0 d1 1 3.5" +:+ newline +:+ " Entity-Filtered" +:+ newline], 1)
  ∧ readlines (file_text
                 ["q1 Q0 d1 1 3.5" +:+ newline +:+ " Entity-Filtered"
                  +:+ newline])
    = ["q1 Q0 d1 1 3.5" +:+ newline; " Entity-Filtered" +:+ newline]
  ∧ filter_ranking ex_scored
      ["q1 Q0 d1 1 3.5" +:+ newline; " Entity-Filtered" +:+ newline]
      ex_doc_ents
    = Raise IndexError.
Proof. by vm_compute. Qed.
